(** * CodeChrono extension: tracker, repository correlator and sync loop

    A shallow embedding of [src/sync/tracker.ts] (class [Tracker], with the
    [ApiClient] it drives) and [src/utils/gitTracker.ts] (class
    [GitTracker]), and the properties of the specification proved on it.

    Conventions of the embedding:
    - a JavaScript [number] holding a millisecond timestamp or a count is a
      [Z] (all the arithmetic done on them is exact on integers far below
      2^53);
    - a JavaScript string is a [string]; [s.length] is [String.length];
    - [T | undefined] is [option T]; the truthiness test the code applies to
      an optional string ([!best], [if (gitRoot)]) is [truthy], false on
      [undefined] and on the empty string;
    - a [Map<string, string>] is a [gmap string string]; a [Set<string>] is
      the list of its elements in insertion order, the order [for ... of]
      visits them in;
    - a method that mutates [this] takes the object and returns the new one;
      calls on collaborators (logger, status bar, store, remote service) are
      recorded in the list of effects the method returns. *)

From Stdlib Require Import ZArith Ascii String List Bool Lia.
From stdpp Require Import base option list gmap strings pretty.

Local Open Scope string_scope.
Local Open Scope Z_scope.

(** ** JavaScript values *)

Module Js.

(** [s.startsWith(p)]. *)
Fixpoint startsWith (s p : string) {struct p} : bool :=
  match p with
  | EmptyString => true
  | String c p' =>
      match s with
      | EmptyString => false
      | String d s' => Ascii.eqb c d && startsWith s' p'
      end
  end.

(** [s.includes(sub)]. *)
Fixpoint includes (s sub : string) {struct s} : bool :=
  startsWith s sub
  || match s with
     | String _ s' => includes s' sub
     | EmptyString => false
     end.

(** Truthiness of [string | undefined]: [undefined] and [""] are falsy. *)
Definition truthy (v : option string) : bool :=
  match v with
  | None => false
  | Some s => negb (String.eqb s "")
  end.

(** [v || d] on [string | undefined]. *)
Definition or_else (v : option string) (d : string) : string :=
  match v with
  | Some s => if String.eqb s "" then d else s
  | None => d
  end.

(** What an awaited call does: it returns a value or it throws. *)
Inductive Outcome (A : Type) : Type :=
  | Returned (a : A)
  | Thrown.
Arguments Returned {A} a.
Arguments Thrown {A}.

(** Comparison [a < b] of two strings: by code units, a proper prefix first. *)
Fixpoint string_lt (a b : string) : bool :=
  match a, b with
  | _, EmptyString => false
  | EmptyString, String _ _ => true
  | String c a', String d b' =>
      if (nat_of_ascii c <? nat_of_ascii d)%nat then true
      else if (nat_of_ascii d <? nat_of_ascii c)%nat then false
      else string_lt a' b'
  end.

Definition isDigit (c : ascii) : bool :=
  ((48 <=? nat_of_ascii c) && (nat_of_ascii c <=? 57))%nat.

(** White space and line terminators, among the code units below 256. *)
Definition isSpace (c : ascii) : bool :=
  let n := nat_of_ascii c in
  ((9 <=? n) && (n <=? 13) || (n =? 32) || (n =? 160))%nat.

Fixpoint trimStart (s : string) : string :=
  match s with
  | String c s' => if isSpace c then trimStart s' else s
  | EmptyString => EmptyString
  end.

Fixpoint rev_string (s acc : string) : string :=
  match s with
  | String c s' => rev_string s' (String c acc)
  | EmptyString => acc
  end.

(** [s.trim()]. *)
Definition trim (s : string) : string :=
  rev_string (trimStart (rev_string (trimStart s) "")) "".

(** The decimal digits at the head of [s], read as a number; [acc] is the
    value read so far, [None] before the first digit. *)
Fixpoint leadingDigits (s : string) (acc : option Z) : option Z :=
  match s with
  | String c s' =>
      if isDigit c
      then leadingDigits s'
             (Some (10 * default 0 acc + (Z.of_nat (nat_of_ascii c) - 48)))
      else acc
  | EmptyString => acc
  end.

(** The Numbers the code computes with the digits it reads: doubles that
    are integers, the negative zero, the infinities and [NaN]. [Finite 0]
    is the positive zero. *)
Inductive Number : Type :=
  | Finite (z : Z)
  | NegativeZero
  | Infinity (negative : bool)
  | NaN.

(** The Number value for the integer [n]: [n] itself up to [2^53] in
    magnitude; beyond, the nearest integer whose significand has 53 bits,
    and of two that are as near the one with the even significand; an
    infinity when this reaches [2^1024]. The host reads decimal digits of
    any number with this rounding. *)
Definition toNumber (n : Z) : Number :=
  let m := Z.abs n in
  if m <? 2 ^ 53 then Finite n
  else
    let e := Z.log2 m - 52 in
    let q := Z.shiftr m e in
    let r := Z.land m (Z.ones e) in
    let half := 2 ^ (e - 1) in
    let q' := if (half <? r) || ((r =? half) && Z.odd q) then q + 1 else q in
    let v := q' * 2 ^ e in
    if 2 ^ 1024 <=? v then Infinity (n <? 0) else Finite (Z.sgn n * v).

Definition negative (a : Number) : bool :=
  match a with
  | Finite z => z <? 0
  | NegativeZero => true
  | Infinity s => s
  | NaN => false
  end.

(** [a * b]: the Number value for the product of two integers, a zero or
    an infinity with the sign of the product, and [NaN] for a zero times
    an infinity. *)
Definition mul (a b : Number) : Number :=
  let zero := if xorb (negative a) (negative b) then NegativeZero else Finite 0 in
  let infinite := Infinity (xorb (negative a) (negative b)) in
  match a, b with
  | NaN, _ | _, NaN => NaN
  | Infinity _, (Finite 0 | NegativeZero) | (Finite 0 | NegativeZero), Infinity _ =>
      NaN
  | Infinity _, _ | _, Infinity _ => infinite
  | NegativeZero, _ | _, NegativeZero => zero
  | Finite x, Finite y => if x * y =? 0 then zero else toNumber (x * y)
  end.

(** [parseInt(s, 10)]: the Number value for the integer that the sign and
    the digits at the head of the trimmed text write, the negative zero
    for a zero after a minus sign, and [NaN] without a digit. *)
Definition parseInt (s : string) : Number :=
  match trimStart s with
  | String "-"%char s' =>
      match leadingDigits s' None with
      | Some 0 => NegativeZero
      | Some n => toNumber (- n)
      | None => NaN
      end
  | String "+"%char s' =>
      match leadingDigits s' None with
      | Some n => toNumber n
      | None => NaN
      end
  | s' =>
      match leadingDigits s' None with
      | Some n => toNumber n
      | None => NaN
      end
  end.

(** [n || 0]: [NaN] and the zeros are falsy. *)
Definition num_or_zero (n : Number) : Number :=
  match n with
  | NaN | NegativeZero | Finite 0 => Finite 0
  | _ => n
  end.

(** [s.substring(0, n)] and the rest of the string after it. *)
Fixpoint take (n : nat) (s : string) : string :=
  match n, s with
  | S n', String c s' => String c (take n' s')
  | _, _ => EmptyString
  end.

Fixpoint drop (n : nat) (s : string) : string :=
  match n, s with
  | S n', String _ s' => drop n' s'
  | _, _ => s
  end.

(** Number of occurrences of the code unit [c] in [s]. *)
Fixpoint count_char (c : ascii) (s : string) : Z :=
  match s with
  | String d s' => (if Ascii.eqb c d then 1 else 0) + count_char c s'
  | EmptyString => 0
  end.

End Js.

(** An integer where a Number is expected is the Number it is. *)
Coercion Js.Finite : Z >-> Js.Number.

(** ** Regular expressions

    The fragment of JavaScript regular expressions the code uses, with the
    backtracking semantics of [String.prototype.match] for a pattern without
    the [g] flag: the leftmost position at which the pattern matches, greedy
    [+] and lazy [*?] explored in priority order. Capturing groups are
    numbered in the order they close, which is the order of their opening
    parentheses for a pattern whose groups are neither nested nor repeated. *)

Module Regex.

Inductive re : Type :=
  | Class (p : ascii -> bool)   (* one code unit of a class: \d, . *)
  | Lit (s : string)            (* a literal text *)
  | Cat (r1 r2 : re)            (* r1 r2 *)
  | Plus (r : re)               (* r+ , greedy *)
  | LazyStar (r : re)           (* r*? , lazy *)
  | Group (r : re).             (* ( r ) *)

(** [\d] *)
Definition digit : ascii -> bool := Js.isDigit.

(** [.] without the [s] flag: any code unit but a line terminator (line feed
    and carriage return, among the code units below 256). *)
Definition dot (c : ascii) : bool :=
  negb ((nat_of_ascii c =? 10) || (nat_of_ascii c =? 13))%nat.

Definition Captures : Type := list string.

(** A matcher takes the input, the captures so far and a continuation, to
    which it hands the rest of the input and the captures after each way of
    matching, in priority order, until the continuation succeeds. *)
Definition Continuation : Type := string -> Captures -> option Captures.
Definition Matcher : Type := string -> Captures -> Continuation -> option Captures.

(** [r+], greedy, for the matcher [m1] of [r]: one [r], then more of them
    first, and the continuation when no more can be matched. An iteration
    that consumes nothing ends the repetition. [fuel] bounds the number of
    iterations by the length of the input. *)
Fixpoint plus_loop (m1 : Matcher) (k : Continuation) (fuel : nat) (s : string)
    (caps : Captures) {struct fuel} : option Captures :=
  m1 s caps (fun s' caps' =>
    match fuel with
    | O => k s' caps'
    | S fuel' =>
        if (String.length s' <? String.length s)%nat
        then match plus_loop m1 k fuel' s' caps' with
             | Some res => Some res
             | None => k s' caps'
             end
        else k s' caps'
    end).

(** [r*?], lazy: the continuation first, and one more [r] when it fails. *)
Fixpoint lazy_loop (m1 : Matcher) (k : Continuation) (fuel : nat) (s : string)
    (caps : Captures) {struct fuel} : option Captures :=
  match k s caps with
  | Some res => Some res
  | None =>
      match fuel with
      | O => None
      | S fuel' =>
          m1 s caps (fun s' caps' =>
            if (String.length s' <? String.length s)%nat
            then lazy_loop m1 k fuel' s' caps'
            else None)
      end
  end.

(** The matcher of a pattern. *)
Fixpoint run (r : re) : Matcher :=
  fun s caps k =>
  match r with
  | Class p =>
      match s with
      | String c s' => if p c then k s' caps else None
      | EmptyString => None
      end
  | Lit l =>
      if Js.startsWith s l then k (Js.drop (String.length l) s) caps else None
  | Cat r1 r2 => run r1 s caps (fun s' caps' => run r2 s' caps' k)
  | Plus r1 => plus_loop (run r1) k (String.length s) s caps
  | LazyStar r1 => lazy_loop (run r1) k (String.length s) s caps
  | Group r1 =>
      run r1 s caps (fun s' caps' =>
        k s' (caps' ++ [Js.take (String.length s - String.length s') s])%list)
  end.

(** The pattern matched at the head of [s]. *)
Definition match_here (r : re) (s : string) : option Captures :=
  run r s [] (fun _ caps => Some caps).

(** [s.match(r)]: the captures of the leftmost match, [None] for [null]. *)
Fixpoint search (r : re) (s : string) : option Captures :=
  match match_here r s with
  | Some caps => Some caps
  | None =>
      match s with
      | String _ s' => search r s'
      | EmptyString => None
      end
  end.

(** The texts a pattern matches. *)
Fixpoint flatten (ws : list string) : string :=
  match ws with
  | [] => ""
  | w :: ws' => w ++ flatten ws'
  end.

Fixpoint Lang (r : re) (w : string) : Prop :=
  match r with
  | Class p => exists c, w = String c "" /\ p c = true
  | Lit l => w = l
  | Cat r1 r2 => exists w1 w2, w = w1 ++ w2 /\ Lang r1 w1 /\ Lang r2 w2
  | Plus r1 => exists ws, ws <> [] /\ w = flatten ws /\ Forall (Lang r1) ws
  | LazyStar r1 => exists ws, w = flatten ws /\ Forall (Lang r1) ws
  | Group r1 => Lang r1 w
  end.

End Regex.

(** ** Dates

    The part of the built-in [Date] the sync loop uses, after ECMA-262
    (time values in milliseconds since the epoch, proleptic Gregorian
    calendar). Time values stay within the range of valid dates, where
    [TimeClip] changes nothing. *)

Module JsDate.

Definition msPerDay : Z := 86400000.

Definition Day (t : Z) : Z := t / msPerDay.
Definition TimeWithinDay (t : Z) : Z := t mod msPerDay.

(** Year, month (1 to 12) and day of the month (1 to 31) of a day number. *)
Definition civil_from_days (day : Z) : Z * Z * Z :=
  let z := day + 719468 in
  let era := z / 146097 in
  let doe := z - era * 146097 in
  let yoe := (doe - doe / 1460 + doe / 36524 - doe / 146096) / 365 in
  let doy := doe - (365 * yoe + yoe / 4 - yoe / 100) in
  let mp := (5 * doy + 2) / 153 in
  let d := doy - (153 * mp + 2) / 5 + 1 in
  let m := if mp <? 10 then mp + 3 else mp - 9 in
  let y := yoe + era * 400 + (if m <=? 2 then 1 else 0) in
  (y, m, d).

(** Day number of a year, month (1 to 12) and day of the month. *)
Definition days_from_civil (y m d : Z) : Z :=
  let y' := y - (if m <=? 2 then 1 else 0) in
  let era := y' / 400 in
  let yoe := y' - era * 400 in
  let doy := (153 * (if 2 <? m then m - 3 else m + 9) + 2) / 5 + d - 1 in
  let doe := yoe * 365 + yoe / 4 - yoe / 100 + doy in
  era * 146097 + doe - 719468.

Definition YearFromTime (t : Z) : Z := (civil_from_days (Day t)).1.1.
Definition MonthFromTime (t : Z) : Z := (civil_from_days (Day t)).1.2 - 1.
Definition DateFromTime (t : Z) : Z := (civil_from_days (Day t)).2.

Definition HourFromTime (t : Z) : Z := (t / 3600000) mod 24.
Definition MinFromTime (t : Z) : Z := (t / 60000) mod 60.
Definition SecFromTime (t : Z) : Z := (t / 1000) mod 60.
Definition msFromTime (t : Z) : Z := t mod 1000.

(** [MakeDay(year, month, date)], the month counted from 0. *)
Definition MakeDay (year month date : Z) : Z :=
  let ym := year + month / 12 in
  let mn := month mod 12 in
  days_from_civil ym (mn + 1) 1 + date - 1.

Definition MakeDate (day time : Z) : Z := day * msPerDay + time.

Section Zone.

(** [LocalTZA(t, isUTC)]: the offset of local time from UTC, in
    milliseconds, that the host applies at [t]. *)
Variable LocalTZA : Z -> bool -> Z.

Definition LocalTime (t : Z) : Z := t + LocalTZA t true.
Definition UTC (t : Z) : Z := t - LocalTZA t false.

(** [date.getDate()] *)
Definition getDate (t : Z) : Z := DateFromTime (LocalTime t).

(** [date.setDate(dt)]: the new time value of the date. *)
Definition setDate (t dt : Z) : Z :=
  let lt := LocalTime t in
  UTC (MakeDate (MakeDay (YearFromTime lt) (MonthFromTime lt) dt)
                (TimeWithinDay lt)).

End Zone.

Definition digitChar (n : Z) : ascii := ascii_of_nat (48 + Z.to_nat (n mod 10)).

(** The last [width] decimal digits of [n], zero padded. *)
Fixpoint padded (width : nat) (n : Z) : string :=
  match width with
  | O => ""
  | S w => padded w (n / 10) ++ String (digitChar n) ""
  end.

Definition isoYear (y : Z) : string :=
  if (0 <=? y) && (y <=? 9999) then padded 4 y
  else (if y <? 0 then "-" else "+") ++ padded 6 (Z.abs y).

(** The text [YYYY-MM-DD] of a year, a month and a day of the month. *)
Definition isoOf (y m d : Z) : string :=
  isoYear y ++ "-" ++ padded 2 m ++ "-" ++ padded 2 d.

(** The date of [YYYY-MM-DDTHH:mm:ss.sssZ]. *)
Definition isoDate (t : Z) : string :=
  let '(y, m, d) := civil_from_days (Day t) in isoOf y m d.

(** [date.toISOString()] *)
Definition toISOString (t : Z) : string :=
  isoDate t ++ "T" ++ padded 2 (HourFromTime t) ++ ":" ++ padded 2 (MinFromTime t)
    ++ ":" ++ padded 2 (SecFromTime t) ++ "." ++ padded 3 (msFromTime t) ++ "Z".

(** [s.split(c)[0]]: the text before the first [c]. *)
Fixpoint splitHead (c : ascii) (s : string) : string :=
  match s with
  | String d s' => if Ascii.eqb c d then "" else String d (splitHead c s')
  | EmptyString => ""
  end.

End JsDate.

(** ** The data model

    The rows of the local store and the values sent to the remote service,
    with the fields the code reads and writes. *)

Record ActivityLog : Type := mkActivityLog {
  al_projectPath : string;
  al_filePath : string;
  al_language : string;
  al_timestamp : Z;
  al_duration : Z;
  al_editor : string;
  al_commitHash : option string;
  al_branch : option string
}.

Record GitCommit : Type := mkGitCommit {
  gc_id : option Z;
  gc_projectPath : string;
  gc_commitHash : string;
  gc_message : string;
  gc_author : string;
  gc_authorEmail : string;
  gc_timestamp : Js.Number;
  gc_filesChanged : Z;
  gc_linesAdded : Js.Number;
  gc_linesDeleted : Js.Number;
  gc_branch : option string
}.

Record FileActivitySummary : Type := mkFileActivitySummary {
  fs_projectPath : string;
  fs_commitHash : option string;
  fs_branch : option string;
  fs_filePath : string;
  fs_language : string;
  fs_totalDuration : Z;
  fs_activityCount : Z;
  fs_firstActivityAt : Z;
  fs_lastActivityAt : Z;
  fs_editor : string
}.

Record DailyActivitySummary : Type := mkDailyActivitySummary {
  ds_date : string;
  ds_projectPath : string;
  ds_totalDuration : Z;
  ds_languageBreakdown : list (string * Z);
  ds_filesEdited : list string;
  ds_commitCount : Z
}.

(** ** The collaborators *)

(** The inputs of the mutations of the remote service. *)
Record ActivityInput : Type := mkActivityInput {
  ai_projectPath : string;
  ai_filePath : string;
  ai_language : string;
  ai_timestamp : Z;
  ai_duration : Z;
  ai_editor : string;
  ai_commitHash : option string
}.

Record CommitInput : Type := mkCommitInput {
  ci_projectPath : string;
  ci_commitHash : string;
  ci_message : string;
  ci_author : string;
  ci_authorEmail : string;
  ci_timestamp : Js.Number;
  ci_filesChanged : Z;
  ci_linesAdded : Js.Number;
  ci_linesDeleted : Js.Number;
  ci_branch : option string
}.

Record FileActivityInput : Type := mkFileActivityInput {
  fi_projectPath : string;
  fi_commitHash : option string;
  fi_branch : option string;
  fi_filePath : string;
  fi_language : string;
  fi_totalDuration : Z;
  fi_activityCount : Z;
  fi_firstActivityAt : Z;
  fi_lastActivityAt : Z;
  fi_editor : string
}.

(** [languageBreakdown] is sent serialized by [JSON.stringify]; the mapping
    itself stands for its serialization. *)
Record DailyStatsInput : Type := mkDailyStatsInput {
  di_date : string;
  di_projectPath : string;
  di_totalDuration : Z;
  di_languageBreakdown : list (string * Z);
  di_filesEdited : Z;
  di_commitCount : Z
}.

Inductive Mutation : Type :=
  | SyncActivity (input : list ActivityInput)
  | SyncCommits (input : list CommitInput)
  | SyncFileActivities (input : list FileActivityInput)
  | SyncDailyStats (input : list DailyStatsInput).

(** The remote service behind [GraphQLClient.request]: a request leaves the
    service in a new state and returns, or throws (network error, response
    that is not a success). *)
Class Remote (R : Type) : Type := {
  request : R -> Mutation -> R * Js.Outcome unit
}.

(** The calls that change the local store. *)
Inductive StoreCall : Type :=
  | InsertActivity (log : ActivityLog)
  | InsertCommit (row : GitCommit)
  | DeleteActivitiesBeforeDate (date : string)
  | DeleteAggregatedActivities (batch : list FileActivitySummary)
  | DeleteCommits (ids : list Z).

(** What a method does that is seen from outside: calls on the logger and on
    the status bar, the queries a handler makes to resolve the project,
    commit and branch of a file, pushes onto the pending queue, requests to
    the remote service, calls that change the store. Values interpolated
    into a log message are left out of it. *)
Inductive Resolution : Type :=
  | GitRootForPath
  | WorkspaceFolder
  | ActiveCommitForPath
  | ActiveBranchForPath.

Inductive Effect : Type :=
  | LogInfo (msg : string)
  | LogDebug (msg : string)
  | LogError (msg : string)
  | UpdateStatus (text : string)
  | Resolve (what : Resolution) (fsPath : string)
  | QueuePush (log : ActivityLog)
  | Request (m : Mutation)
  | Store (call : StoreCall).

(** [storage/database.ts] is not part of the sources at hand: the [Database]
    object is taken through the methods the code calls on it. A method that
    changes the store gives the store after the call and whether the call
    returned or threw. *)
Class Database (DB : Type) : Type := {
  insertActivity : DB -> ActivityLog -> DB * Js.Outcome unit;
  insertCommit : DB -> GitCommit -> DB * Js.Outcome unit;
  getDailyAggregatedActivities :
    DB -> Z -> Js.Outcome (list DailyActivitySummary);
  deleteActivitiesBeforeDate : DB -> string -> DB * Js.Outcome unit;
  getAggregatedActivities :
    DB -> Z -> Js.Outcome (list FileActivitySummary);
  deleteAggregatedActivities :
    DB -> list FileActivitySummary -> DB * Js.Outcome unit;
  getUnsyncedCommits : DB -> Z -> Js.Outcome (list GitCommit);
  deleteCommits : DB -> list Z -> DB * Js.Outcome unit
}.

(** ** GitTracker *)

Module GitTracker.

Record t : Type := mk {
  currentCommit : gmap string string;  (* gitRoot -> commitHash *)
  currentBranch : gmap string string;  (* gitRoot -> branch name *)
  gitRoots : list string               (* Set of known git roots *)
}.

Definition empty : t := mk ∅ ∅ [].

(** *** The repositories of the workspace *)

(** The file system below a workspace folder as the search reads it: an
    entry is a file, a directory with the entries it lists, or a path whose
    [statSync] throws and that [existsSync] denies (a dangling link). The
    entries of a directory that is not [readable] can be reached by name
    while [readdirSync] throws on it. *)
#[warnings="-register-all"] Inductive Entry : Type :=
  | File
  | Dir (readable : bool) (children : list (string * Entry))
  | Broken.

(** The entry at [path.join(current, name)], [None] when there is none. *)
Definition child (name : string) (current : Entry) : option Entry :=
  match current with
  | Dir _ children =>
      snd <$> List.find (fun c => String.eqb c.1 name) children
  | _ => None
  end.

(** [fs.existsSync(p)], [fs.statSync(p).isDirectory()] and
    [fs.readdirSync(p)] on the entry at [p]. *)
Definition existsSync (e : option Entry) : bool :=
  match e with
  | Some File | Some (Dir _ _) => true
  | Some Broken | None => false
  end.

Definition isDirectory (e : option Entry) : Js.Outcome bool :=
  match e with
  | Some (Dir _ _) => Js.Returned true
  | Some File => Js.Returned false
  | Some Broken | None => Js.Thrown
  end.

Definition readdirSync (e : Entry) : Js.Outcome (list (string * Entry)) :=
  match e with
  | Dir true children => Js.Returned children
  | _ => Js.Thrown
  end.

(** [fs.existsSync(gitDir) && fs.statSync(gitDir).isDirectory()] inside
    [try ... catch {}], for [gitDir = path.join(current, ".git")]. *)
Definition hasGitDir (current : Entry) : bool :=
  let gitDir := child ".git" current in
  existsSync gitDir
  && match isDirectory gitDir with
     | Js.Returned b => b
     | Js.Thrown => false
     end.

(** [roots.add(current)] on a [Set]. *)
Definition add (x : string) (s : list string) : list string :=
  if bool_decide (x ∈ s) then s else (s ++ [x])%list.

(** The number of entries of a tree. *)
Fixpoint entries (e : Entry) : nat :=
  match e with
  | Dir _ children => S (list_sum (map (fun c => entries c.2) children))
  | _ => 1
  end.

Section Discovery.

(** [path.join] *)
Variable join : string -> string -> string.

(** The loop over the children of [current]: each directory is pushed; a
    [statSync] that throws ends the loop, in the [catch {}] around it. The
    stack is a list with its top first, each path with the entry at it. *)
Fixpoint pushDirectories (current : string) (children : list (string * Entry))
    (stack : list (string * Entry)) : list (string * Entry) :=
  match children with
  | [] => stack
  | (name, e) :: rest =>
      let full := join current name in
      match isDirectory (Some e) with
      | Js.Returned true => pushDirectories current rest ((full, e) :: stack)
      | Js.Returned false => pushDirectories current rest stack
      | Js.Thrown => stack
      end
  end.

(** [while (stack.length > 0)]: a directory that holds a [.git] directory is
    a root and is not scanned deeper; else its children are scanned. [fuel]
    bounds the number of turns by the number of entries on the stack and
    below them. *)
Fixpoint scan (fuel : nat) (stack : list (string * Entry)) (roots : list string)
    {struct fuel} : list string :=
  match fuel, stack with
  | S fuel', (current, e) :: stack' =>
      if hasGitDir e then scan fuel' stack' (add current roots)
      else
        match readdirSync e with
        | Js.Returned children =>
            scan fuel' (pushDirectories current children stack') roots
        | Js.Thrown => scan fuel' stack' roots
        end
  | _, _ => roots
  end.

(** [findGitRootsInWorkspace], on [vscode.workspace.workspaceFolders]: each
    folder is its path with the tree of the entries below it. *)
Definition findGitRootsInWorkspace (folders : option (list (string * Entry)))
  : list string :=
  match folders with
  | None => []
  | Some folders =>
      fold_left (fun roots folder => scan (entries folder.2) [folder] roots)
        folders []
  end.

End Discovery.

(** The version-control tool as the tracker sees it: what each command gives
    when run in a root, its standard output or a failure. *)
Inductive LogFormat : Type := Subject | AuthorName | AuthorEmail | AuthorTime.

Record Git : Type := mkGit {
  revParseHead : string -> Js.Outcome string;        (* git rev-parse HEAD *)
  branchShowCurrent : string -> Js.Outcome string;   (* git branch --show-current *)
  logFormat : string -> LogFormat -> string -> Js.Outcome string;
                                                     (* git log -1 --format=.. hash *)
  showStat : string -> string -> Js.Outcome string   (* git show --stat --format="" hash *)
}.

Definition getCurrentCommit (git : Git) (gitRoot : string) : option string :=
  match revParseHead git gitRoot with
  | Js.Returned stdout => Some (Js.trim stdout)
  | Js.Thrown => None
  end.

Definition getBranch (git : Git) (gitRoot : string) : option string :=
  match branchShowCurrent git gitRoot with
  | Js.Returned stdout => Some (Js.trim stdout)
  | Js.Thrown => None
  end.

(** [/(\d+) insertion.*?(\d+) deletion/] *)
Definition diffStatRegex : Regex.re :=
  Regex.Cat (Regex.Group (Regex.Plus (Regex.Class Regex.digit)))
    (Regex.Cat (Regex.Lit " insertion")
       (Regex.Cat (Regex.LazyStar (Regex.Class Regex.dot))
          (Regex.Cat (Regex.Group (Regex.Plus (Regex.Class Regex.digit)))
             (Regex.Lit " deletion")))).

(** The [Partial<GitCommit>] that [getCommitDetails] returns. *)
Record CommitDetails : Type := mkCommitDetails {
  message : string;
  author : string;
  authorEmail : string;
  timestamp : Js.Number;
  filesChanged : Z;
  linesAdded : Js.Number;
  linesDeleted : Js.Number
}.

(** The counts read from the diff statistics: [linesAdded] and
    [linesDeleted] start at 0 and are set from the two groups of a match. *)
Definition parseDiffStats (diffStats : string) : Js.Number * Js.Number :=
  match Regex.search diffStatRegex diffStats with
  | Some stats =>
      (Js.num_or_zero (Js.parseInt (default "" (stats !! 0%nat))),
       Js.num_or_zero (Js.parseInt (default "" (stats !! 1%nat))))
  | None => (Js.Finite 0, Js.Finite 0)
  end.

(** [getCommitDetails]: [None] is [null], returned with an error logged when
    one of the commands fails. *)
Definition getCommitDetails (git : Git) (gitRoot hash : string)
  : option CommitDetails * list Effect :=
  match logFormat git gitRoot Subject hash,
        logFormat git gitRoot AuthorName hash,
        logFormat git gitRoot AuthorEmail hash,
        logFormat git gitRoot AuthorTime hash with
  | Js.Returned msg, Js.Returned author, Js.Returned email, Js.Returned time =>
      match showStat git gitRoot hash with
      | Js.Returned diffStats =>
          let '(added, deleted) := parseDiffStats diffStats in
          (Some {| message := Js.trim msg;
                   author := Js.trim author;
                   authorEmail := Js.trim email;
                   timestamp := Js.mul (Js.parseInt (Js.trim time)) 1000;
                   filesChanged := Js.count_char "010"%char diffStats;
                   linesAdded := added;
                   linesDeleted := deleted |}, [])
      | Js.Thrown => (None, [LogError "Failed reading commit details"])
      end
  | _, _, _, _ => (None, [LogError "Failed reading commit details"])
  end.

Section PathQueries.

(** [path.sep] of the platform: ["/"] on POSIX, a backslash on Windows. *)
Variable sep : string.

(** The condition of the three loops:
    [fsPath === root || fsPath.startsWith(root + path.sep) ||
     fsPath.startsWith(root + "/")]. *)
Definition covers (fsPath root : string) : bool :=
  String.eqb fsPath root
  || Js.startsWith fsPath (root ++ sep)
  || Js.startsWith fsPath (root ++ "/").

(** The body of the three loops on the running best match:
    [if (covers) { if (!best || root.length > best.length) best = root }]. *)
Definition visit (fsPath : string) (best : option string) (root : string)
  : option string :=
  if covers fsPath root then
    if negb (Js.truthy best)
       || (match best with
           | Some b => (String.length b <? String.length root)%nat
           | None => false
           end)
    then Some root
    else best
  else best.

Definition getActiveCommitForPath (g : t) (fsPath : string) : option string :=
  let bestMatch := fold_left (visit fsPath) (gitRoots g) None in
  if Js.truthy bestMatch
  then match bestMatch with Some b => currentCommit g !! b | None => None end
  else None.

(** Backwards compatibility *)
Definition getActiveCommit (g : t) (projectPath : string) : option string :=
  getActiveCommitForPath g projectPath.

Definition getActiveBranchForPath (g : t) (fsPath : string) : option string :=
  let bestMatch := fold_left (visit fsPath) (gitRoots g) None in
  if Js.truthy bestMatch
  then match bestMatch with Some b => currentBranch g !! b | None => None end
  else None.

Definition getGitRootForPath (g : t) (fsPath : string) : option string :=
  let best := fold_left (visit fsPath) (gitRoots g) None in
  best.

(** The specification's wording of the match: the path is the root, or it
    starts with the root followed by a path separator (the platform's, or
    a forward slash). *)
Definition Encloses (root fsPath : string) : Prop :=
  fsPath = root
  ∨ (∃ rest, fsPath = root ++ sep ++ rest)
  ∨ (∃ rest, fsPath = root ++ "/" ++ rest).

End PathQueries.

Section CommitTracking.

Context {DB : Type} `{Database DB}.

(** The [GitCommit] built from the details of a commit. *)
Definition commitRow (gitRoot commit : string) (details : CommitDetails)
    (branch : option string) : GitCommit :=
  {| gc_id := None;
     gc_projectPath := gitRoot;
     gc_commitHash := commit;
     gc_message := message details;
     gc_author := author details;
     gc_authorEmail := authorEmail details;
     gc_timestamp := timestamp details;
     gc_filesChanged := filesChanged details;
     gc_linesAdded := linesAdded details;
     gc_linesDeleted := linesDeleted details;
     gc_branch := if Js.truthy branch then branch else None |}.

(** What a call leaves behind: the tracker, the store, the effects, and
    whether the promise resolved or rejected. *)
Record Result : Type := mkResult {
  tracker : t;
  store : DB;
  effects : list Effect;
  settled : Js.Outcome unit
}.

Definition setCommit (gitRoot commit : string) (g : t) : t :=
  {| currentCommit := <[gitRoot := commit]> (currentCommit g);
     currentBranch := currentBranch g;
     gitRoots := gitRoots g |}.

Definition setBranch (gitRoot branch : string) (g : t) : t :=
  {| currentCommit := currentCommit g;
     currentBranch := <[gitRoot := branch]> (currentBranch g);
     gitRoots := gitRoots g |}.

(** [if (branch) this.currentBranch.set(gitRoot, branch)] *)
Definition cacheBranch (gitRoot : string) (branch : option string) (g : t) : t :=
  match branch with
  | Some b => if Js.truthy branch then setBranch gitRoot b g else g
  | None => g
  end.

Definition trackCommitChange (git : Git) (gitRoot : string) (g : t) (db : DB)
  : Result :=
  match getCurrentCommit git gitRoot with
  | Some newCommit =>
      if negb (Js.truthy (Some newCommit)) then mkResult g db [] (Js.Returned tt)
      else
        let oldCommit := currentCommit g !! gitRoot in
        if decide (oldCommit = Some newCommit)
        then mkResult g db [] (Js.Returned tt)
        else
          let '(details, errs) := getCommitDetails git gitRoot newCommit in
          let branch := getBranch git gitRoot in
          let log := (LogInfo "Commit changed" :: errs)%list in
          match details with
          | Some d =>
              let row := commitRow gitRoot newCommit d branch in
              match insertCommit db row with
              | (db', Js.Returned _) =>
                  mkResult (cacheBranch gitRoot branch (setCommit gitRoot newCommit g))
                    db' (log ++ [Store (InsertCommit row)])%list (Js.Returned tt)
              | (db', Js.Thrown) =>
                  mkResult g db' (log ++ [Store (InsertCommit row)])%list Js.Thrown
              end
          | None =>
              mkResult (cacheBranch gitRoot branch (setCommit gitRoot newCommit g))
                db log (Js.Returned tt)
          end
  | None => mkResult g db [] (Js.Returned tt)
  end.

(** A call of [trackCommitChange] is suspended at its [await]s, and another
    call can run in between: a watcher has two callbacks, on the change and
    on the creation of a file. What a call reads of the caches lies before
    the [await] of [getCommitDetails]. [detectChange] is the call up to
    there, on the tracker as it is then: the commit it goes on to record,
    [None] when it returns at once. *)
Definition detectChange (git : Git) (gitRoot : string) (g : t) : option string :=
  match getCurrentCommit git gitRoot with
  | Some newCommit =>
      if negb (Js.truthy (Some newCommit)) then None
      else
        let oldCommit := currentCommit g !! gitRoot in
        if decide (oldCommit = Some newCommit) then None else Some newCommit
  | None => None
  end.

(** The call from the [await] of [getCommitDetails] on, taken in one step
    on the tracker and the store as they are when it resumes: it does not
    read the cached commit again. *)
Definition recordChange (git : Git) (gitRoot newCommit : string) (g : t) (db : DB)
  : Result :=
  let '(details, errs) := getCommitDetails git gitRoot newCommit in
  let branch := getBranch git gitRoot in
  match details with
  | Some d =>
      let row := commitRow gitRoot newCommit d branch in
      match insertCommit db row with
      | (db', Js.Returned _) =>
          mkResult (cacheBranch gitRoot branch (setCommit gitRoot newCommit g))
            db' (errs ++ [Store (InsertCommit row)])%list (Js.Returned tt)
      | (db', Js.Thrown) =>
          mkResult g db' (errs ++ [Store (InsertCommit row)])%list Js.Thrown
      end
  | None =>
      mkResult (cacheBranch gitRoot branch (setCommit gitRoot newCommit g))
        db errs (Js.Returned tt)
  end.

(** One turn of the loop of [initializeAllRoots] over a discovered root. *)
Definition initializeRoot (git : Git) (acc : Result) (root : string) : Result :=
  match settled acc with
  | Js.Thrown => acc
  | Js.Returned _ =>
      let g := tracker acc in
      match getCurrentCommit git root with
      | Some commit =>
          if negb (Js.truthy (Some commit)) then acc
          else
            let g1 := setCommit root commit g in
            let '(details, errs) := getCommitDetails git root commit in
            let branch := getBranch git root in
            let g2 := cacheBranch root branch g1 in
            match details with
            | Some d =>
                let row := commitRow root commit d branch in
                match insertCommit (store acc) row with
                | (db', out) =>
                    mkResult g2 db'
                      (effects acc ++ errs ++ [Store (InsertCommit row)])%list out
                end
            | None => mkResult g2 (store acc) (effects acc ++ errs)%list (Js.Returned tt)
            end
      | None => acc
      end
  end.

(** [initializeAllRoots], on the roots that [findGitRootsInWorkspace]
    found in the workspace. *)
Definition initializeAllRoots (git : Git) (roots : list string) (g : t) (db : DB)
  : Result :=
  let g0 := {| currentCommit := currentCommit g;
               currentBranch := currentBranch g;
               gitRoots := roots |} in
  fold_left (initializeRoot git)
    roots (mkResult g0 db [LogInfo "GitTracker detected git roots"] (Js.Returned tt)).

(** [watchGitChanges], with [path.join] and the folders of the workspace:
    the roots found are initialized, then a watcher is created on each known
    root, whose events call [trackCommitChange] on that root. The second
    component is the roots watched, none when the initialization rejects. *)
Definition watchGitChanges (join : string -> string -> string) (git : Git)
    (folders : option (list (string * Entry))) (g : t) (db : DB)
  : Result * list string :=
  let res := initializeAllRoots git (findGitRootsInWorkspace join folders) g db in
  match settled res with
  | Js.Returned _ => (res, gitRoots (tracker res))
  | Js.Thrown => (res, [])
  end.

End CommitTracking.

End GitTracker.

(** ** ApiClient *)

Module ApiClient.

Section Api.

Context {R : Type} `{Remote R}.

Definition activityInput (log : ActivityLog) : ActivityInput :=
  {| ai_projectPath := al_projectPath log;
     ai_filePath := al_filePath log;
     ai_language := al_language log;
     ai_timestamp := al_timestamp log;
     ai_duration := al_duration log;
     ai_editor := Js.or_else (Some (al_editor log)) "vscode";
     ai_commitHash := al_commitHash log |}.

Definition commitInput (commit : GitCommit) : CommitInput :=
  {| ci_projectPath := gc_projectPath commit;
     ci_commitHash := gc_commitHash commit;
     ci_message := gc_message commit;
     ci_author := gc_author commit;
     ci_authorEmail := gc_authorEmail commit;
     ci_timestamp := gc_timestamp commit;
     ci_filesChanged := gc_filesChanged commit;
     ci_linesAdded := gc_linesAdded commit;
     ci_linesDeleted := gc_linesDeleted commit;
     ci_branch := gc_branch commit |}.

Definition fileActivityInput (summary : FileActivitySummary) : FileActivityInput :=
  {| fi_projectPath := fs_projectPath summary;
     fi_commitHash := fs_commitHash summary;
     fi_branch := fs_branch summary;
     fi_filePath := fs_filePath summary;
     fi_language := fs_language summary;
     fi_totalDuration := fs_totalDuration summary;
     fi_activityCount := fs_activityCount summary;
     fi_firstActivityAt := fs_firstActivityAt summary;
     fi_lastActivityAt := fs_lastActivityAt summary;
     fi_editor := fs_editor summary |}.

Definition dailyStatsInput (stat : DailyActivitySummary) : DailyStatsInput :=
  {| di_date := ds_date stat;
     di_projectPath := ds_projectPath stat;
     di_totalDuration := ds_totalDuration stat;
     di_languageBreakdown := ds_languageBreakdown stat;
     di_filesEdited := Z.of_nat (length (ds_filesEdited stat));
     di_commitCount := ds_commitCount stat |}.

(** The shape shared by the four methods: nothing to send is a success;
    otherwise one request, [true] when it returns and [false], with the
    error logged, when it throws. *)
Definition send (m : Mutation) (ok : list Effect) (failed : string) (r : R)
  : R * bool * list Effect :=
  match request r m with
  | (r', Js.Returned _) => (r', true, Request m :: ok)
  | (r', Js.Thrown) => (r', false, [Request m; LogError failed])
  end.

Definition syncActivities (logs : list ActivityLog) (r : R)
  : R * bool * list Effect :=
  match logs with
  | [] => (r, true, [])
  | _ =>
      send (SyncActivity (map activityInput logs))
        [LogInfo "Synced"; LogInfo "Synced activities"]
        "Failed to sync activities" r
  end.

Definition syncCommits (commits : list GitCommit) (r : R)
  : R * bool * list Effect :=
  match commits with
  | [] => (r, true, [])
  | _ =>
      send (SyncCommits (map commitInput commits))
        [LogInfo "Synced"; LogInfo "Synced commits"]
        "Failed to sync commits" r
  end.

Definition syncFileActivities (summaries : list FileActivitySummary) (r : R)
  : R * bool * list Effect :=
  match summaries with
  | [] => (r, true, [])
  | _ =>
      send (SyncFileActivities (map fileActivityInput summaries))
        [LogInfo "Synced file activity"; LogInfo "Synced file activity summaries"]
        "Failed to sync file activities" r
  end.

Definition syncDailyStats (dailyStats : list DailyActivitySummary) (r : R)
  : R * bool * list Effect :=
  match dailyStats with
  | [] => (r, true, [])
  | _ =>
      send (SyncDailyStats (map dailyStatsInput dailyStats))
        [LogInfo "Synced daily stats summaries"]
        "Failed to sync daily stats" r
  end.

End Api.

End ApiClient.

(** ** Tracker *)

Module Tracker.

(** The active editor's document, with the workspace folder the host reports
    for it ([getWorkspaceFolder(doc.uri)?.uri.fsPath]). *)
Record TextDocument : Type := mkTextDocument {
  fileName : string;
  languageId : string;
  workspaceFolder : option string
}.

Record t : Type := mk {
  disposable : option (list nat);   (* the subscriptions made by startTracking *)
  isTracking : bool;
  queue : list ActivityLog;
  syncTimer : option nat;           (* the handle setTimeout gave *)
  lastActivityTime : Z
}.

Definition debounceInterval : Z := 2000.            (* 2 seconds *)
Definition maxIdleTime : Z := 5 * 60 * 1000.        (* 5 minutes *)
Definition syncInterval : Z := 60000.               (* 60 seconds *)

(** A tracker as its constructor leaves it. *)
Definition new : t :=
  {| disposable := None; isTracking := false; queue := [];
     syncTimer := None; lastActivityTime := 0 |}.

Section Activity.

(** [path.sep] of the platform. *)
Variable sep : string.

(** [handleActivity], with what it reads from outside: [Date.now()],
    [vscode.window.activeTextEditor] and the optional [gitTracker]. *)
Definition handleActivity (now : Z) (editor : option TextDocument)
    (gitTracker : option GitTracker.t) (tr : t) : t * list Effect :=
  let timeDiff := now - lastActivityTime tr in
  (* Debounce very rapid events *)
  if timeDiff <? debounceInterval then (tr, [])
  else
    (* Only count duration if within max idle time and not the first event *)
    let duration :=
      if negb (lastActivityTime tr =? 0) && (timeDiff <? maxIdleTime)
      then timeDiff else 0 in
    let tr := {| disposable := disposable tr; isTracking := isTracking tr;
                 queue := queue tr; syncTimer := syncTimer tr;
                 lastActivityTime := now |} in
    match editor with
    | None => (tr, [])
    | Some doc =>
        let filePath := fileName doc in
        let language := languageId doc in
        let gitRoot :=
          g ← gitTracker; GitTracker.getGitRootForPath sep g filePath in
        let projectPath :=
          if Js.truthy gitRoot then default "" gitRoot
          else Js.or_else (workspaceFolder doc) "" in
        let commitHash :=
          g ← gitTracker; GitTracker.getActiveCommitForPath sep g filePath in
        let branch :=
          g ← gitTracker; GitTracker.getActiveBranchForPath sep g filePath in
        let log :=
          {| al_projectPath := projectPath;
             al_filePath := filePath;
             al_language := language;
             al_timestamp := now;
             al_duration := duration;
             al_editor := "vscode";
             al_commitHash := commitHash;
             al_branch := branch |} in
        let asked (what : Resolution) : list Effect :=
          match gitTracker with
          | Some _ => [Resolve what filePath]
          | None => []
          end in
        ({| disposable := disposable tr; isTracking := isTracking tr;
            queue := queue tr ++ [log]; syncTimer := syncTimer tr;
            lastActivityTime := lastActivityTime tr |},
         asked GitRootForPath
         ++ (if Js.truthy gitRoot then [] else [Resolve WorkspaceFolder filePath])
         ++ asked ActiveCommitForPath
         ++ asked ActiveBranchForPath
         ++ [LogDebug "Tracking activity"]
         ++ (if negb (Js.truthy commitHash) && Js.truthy (Some projectPath)
             then [LogDebug "No active commit found for file"] else [])
         ++ [QueuePush log; UpdateStatus "CodeChrono: Tracking..."])%list
    end.

Definition onDocumentChange := handleActivity.
Definition onSelectionChange := handleActivity.
Definition onDocumentSave := handleActivity.

End Activity.

(** The store and the remote service a sync cycle works on. *)
Record Stores (DB R : Type) : Type := mkStores { db : DB; remote : R }.
Arguments mkStores {DB R} db remote.
Arguments db {DB R} s.
Arguments remote {DB R} s.

(** An awaited computation of the sync loop: it changes the store and the
    remote service, leaves effects, and returns or throws. *)
Definition Task (DB R A : Type) : Type :=
  Stores DB R -> Stores DB R * list Effect * Js.Outcome A.

Section Tasks.

Context {DB R : Type}.

Definition ret {A : Type} (a : A) : Task DB R A :=
  fun st => (st, [], Js.Returned a).

Definition bind {A B : Type} (m : Task DB R A) (k : A -> Task DB R B)
  : Task DB R B :=
  fun st =>
    match m st with
    | (st1, es1, Js.Returned a) =>
        match k a st1 with
        | (st2, es2, out) => (st2, (es1 ++ es2)%list, out)
        end
    | (st1, es1, Js.Thrown) => (st1, es1, Js.Thrown)
    end.

(** [try { m } catch { handler }] *)
Definition try_catch {A : Type} (m handler : Task DB R A) : Task DB R A :=
  fun st =>
    match m st with
    | (st1, es1, Js.Thrown) =>
        match handler st1 with
        | (st2, es2, out) => (st2, (es1 ++ es2)%list, out)
        end
    | done => done
    end.

Definition emit (e : Effect) : Task DB R unit :=
  fun st => (st, [e], Js.Returned tt).

(** A query of the store. *)
Definition query {A : Type} (f : DB -> Js.Outcome A) : Task DB R A :=
  fun st => (st, [], f (db st)).

(** A call that changes the store. *)
Definition update (call : StoreCall) (f : DB -> DB * Js.Outcome unit)
  : Task DB R unit :=
  fun st =>
    match f (db st) with
    | (db', out) => (mkStores db' (remote st), [Store call], out)
    end.

(** A method of the [ApiClient]. *)
Definition api (f : R -> R * bool * list Effect) : Task DB R bool :=
  fun st =>
    match f (remote st) with
    | (r', success, es) => (mkStores (db st) r', es, Js.Returned success)
    end.

End Tasks.

Notation "x <- m ;; k" := (bind m (fun x => k))
  (at level 100, m at next level, right associativity).
Notation "m ;; k" := (bind m (fun _ => k))
  (at level 100, right associativity).

Section Sync.

Context {DB R : Type} `{Database DB} `{Remote R}.

(** The time zone of the host. *)
Variable LocalTZA : Z -> bool -> Z.

(** [d.setDate(d.getDate() - n); d.toISOString().split("T")[0]] on
    [d = new Date()] read as [now]. *)
Definition daysAgoStr (n : Z) (now : Z) : string :=
  let d := JsDate.setDate LocalTZA now (JsDate.getDate LocalTZA now - n) in
  JsDate.splitHead "T" (JsDate.toISOString d).

Definition yesterdayStr (now : Z) : string := daysAgoStr 1 now.

(** Flush queue to DB *)
Fixpoint flush (logsToSave : list ActivityLog) : Task DB R unit :=
  match logsToSave with
  | [] => ret tt
  | log :: rest =>
      try_catch (update (InsertActivity log) (fun d => insertActivity d log))
                (emit (LogError "Failed to save activity to DB")) ;;
      flush rest
  end.

Definition completedDayStats (now : Z) (dailyStats : list DailyActivitySummary)
  : list DailyActivitySummary :=
  List.filter (fun stat => Js.string_lt (ds_date stat) (yesterdayStr now)) dailyStats.

(** 1. Sync daily aggregated stats (for completed days). [now] and
    [later] are the readings of the two [new Date()]. *)
Definition syncDaily (now later : Z) : Task DB R unit :=
  dailyStats <- query (fun d => getDailyAggregatedActivities d 30) ;;
  let completed := completedDayStats now dailyStats in
  if (0 <? length completed)%nat then
    emit (LogDebug "Syncing daily stats summaries") ;;
    success <- api (ApiClient.syncDailyStats completed) ;;
    if success : bool then
      (* Delete old activities (keep last 7 days for safety) *)
      let before := daysAgoStr 7 later in
      update (DeleteActivitiesBeforeDate before)
             (fun d => deleteActivitiesBeforeDate d before) ;;
      emit (LogInfo "Synced and cleaned up daily stats")
    else ret tt
  else ret tt.

(** 2. Sync file-level aggregated activities (for commits) *)
Definition syncFiles : Task DB R unit :=
  aggregatedActivities <- query (fun d => getAggregatedActivities d 50) ;;
  if (0 <? length aggregatedActivities)%nat then
    emit (LogDebug "Syncing aggregated file activities") ;;
    success <- api (ApiClient.syncFileActivities aggregatedActivities) ;;
    if success : bool then
      update (DeleteAggregatedActivities aggregatedActivities)
             (fun d => deleteAggregatedActivities d aggregatedActivities) ;;
      emit (LogInfo "Synced file activities") ;;
      emit (UpdateStatus "CodeChrono: Synced")
    else emit (UpdateStatus "CodeChrono: Offline")
  else ret tt.

(** 3. Sync git commits *)
Definition syncGitCommits : Task DB R unit :=
  commits <- query (fun d => getUnsyncedCommits d 20) ;;
  if (0 <? length commits)%nat then
    emit (LogDebug "Syncing commits") ;;
    success <- api (ApiClient.syncCommits commits) ;;
    if success : bool then
      let ids := omap gc_id commits in
      (if (0 <? length ids)%nat
       then update (DeleteCommits ids) (fun d => deleteCommits d ids)
       else ret tt) ;;
      emit (LogInfo "Synced commits")
    else ret tt
  else ret tt.

(** The cycle from its first [await] on: the flush of the snapshot of the
    queue, then the three phases inside [try ... catch]. *)
Definition syncCycle (logsToSave : list ActivityLog) (now later : Z)
  : Task DB R unit :=
  flush logsToSave ;;
  try_catch (syncDaily now later ;; syncFiles ;; syncGitCommits)
            (emit (LogError "Sync loop error")).

End Sync.

(** *** The tracker in its host

    The host keeps the live event subscriptions and the armed timeouts, and
    runs one handler at a time. A sync cycle is suspended at its [await]s;
    what it reads and writes of the tracker lies before the first one (the
    test of [isTracking], the snapshot and reset of the queue) and after
    the last one (the [setTimeout]), so a cycle is taken in these two
    steps, with any other handler in between. *)

Inductive HostEvent : Type :=
  | DidChangeTextDocument
  | DidChangeTextEditorSelection
  | DidSaveTextDocument.

Global Instance HostEvent_eq_dec : EqDecision HostEvent.
Proof. solve_decision. Defined.

Record Host : Type := mkHost {
  subscriptions : list (nat * HostEvent);  (* live subscriptions, by handle *)
  timers : list nat;                       (* armed timeouts, each runs syncLoop *)
  fresh : nat                              (* the next handle *)
}.

Definition noHost : Host := mkHost [] [] 0.

(** [event(handler, this, subscriptions)] *)
Definition subscribe (e : HostEvent) (h : Host) : nat * Host :=
  (fresh h, mkHost (subscriptions h ++ [(fresh h, e)]) (timers h) (S (fresh h))).

(** [Disposable.from(...subscriptions).dispose()] *)
Definition dispose (handles : list nat) (h : Host) : Host :=
  mkHost (List.filter (fun s => negb (bool_decide (s.1 ∈ handles))) (subscriptions h))
         (timers h) (fresh h).

(** [setTimeout(() => this.syncLoop(), this.syncInterval)] *)
Definition setTimeout (h : Host) : nat * Host :=
  (fresh h, mkHost (subscriptions h) (timers h ++ [fresh h]) (S (fresh h))).

(** [clearTimeout(id)]: nothing happens when the timeout is not armed. *)
Definition clearTimeout (id : nat) (h : Host) : Host :=
  mkHost (subscriptions h) (List.filter (fun i => negb (i =? id)%nat) (timers h))
         (fresh h).

(** [syncLoop] up to its first [await]: [None] when it returns at once,
    else the snapshot [logsToSave] the cycle goes on with. *)
Definition syncLoopEnter (tr : t) : t * option (list ActivityLog) :=
  if negb (isTracking tr) then (tr, None)
  else if (0 <? length (queue tr))%nat then
    ({| disposable := disposable tr; isTracking := isTracking tr; queue := [];
        syncTimer := syncTimer tr; lastActivityTime := lastActivityTime tr |},
     Some (queue tr))
  else (tr, Some []).

(** The last statement of [syncLoop]. *)
Definition syncLoopExit (tr : t) (h : Host) : t * Host :=
  let '(id, h') := setTimeout h in
  ({| disposable := disposable tr; isTracking := isTracking tr; queue := queue tr;
      syncTimer := Some id; lastActivityTime := lastActivityTime tr |}, h').

(** [startTracking]; the last component is the cycle its call of [syncLoop]
    leaves suspended. *)
Definition startTracking (tr : t) (h : Host)
  : t * Host * list Effect * option (list ActivityLog) :=
  if isTracking tr then (tr, h, [], None)
  else
    let '(s1, h1) := subscribe DidChangeTextDocument h in
    let '(s2, h2) := subscribe DidChangeTextEditorSelection h1 in
    let '(s3, h3) := subscribe DidSaveTextDocument h2 in
    let tr1 := {| disposable := Some [s1; s2; s3]; isTracking := true;
                  queue := queue tr; syncTimer := syncTimer tr;
                  lastActivityTime := lastActivityTime tr |} in
    (* Start sync loop *)
    let '(tr2, cycle) := syncLoopEnter tr1 in
    (tr2, h3, [LogInfo "Tracking started"; UpdateStatus "CodeChrono: Active"], cycle).

Definition stopTracking (tr : t) (h : Host) : t * Host * list Effect :=
  if negb (isTracking tr) then (tr, h, [])
  else
    let tr1 := {| disposable := disposable tr; isTracking := false;
                  queue := queue tr; syncTimer := syncTimer tr;
                  lastActivityTime := lastActivityTime tr |} in
    let h1 := match disposable tr with
              | Some handles => dispose handles h
              | None => h
              end in
    let h2 := match syncTimer tr with
              | Some id => clearTimeout id h1
              | None => h1
              end in
    (tr1, h2, [LogInfo "Tracking stopped"; UpdateStatus "CodeChrono: Paused"]).

Section Lifecycle.

Context {DB R : Type} `{Database DB} `{Remote R}.

(** [path.sep] and the time zone of the host. *)
Variable sep : string.
Variable LocalTZA : Z -> bool -> Z.

Record World : Type := mkWorld {
  tracker : t;
  host : Host;
  gitTracker : option GitTracker.t;
  stores : Stores DB R;
  inflight : list (list ActivityLog)   (* the suspended sync cycles *)
}.

(** What happens to the extension, one handler at a time. *)
Inductive Event : Type :=
  | Start                                   (* startTracking() *)
  | Stop                                    (* stopTracking() *)
  | Fire (e : HostEvent) (now : Z) (editor : option TextDocument)
                                            (* the host raises an event *)
  | Timeout (id : nat)                      (* an armed timeout expires *)
  | Complete (i : nat) (now later : Z)      (* a suspended cycle runs to its end *)
  | Discover (git : GitTracker.Git) (roots : list string)
                                            (* initializeAllRoots() *)
  | HeadChanged (git : GitTracker.Git) (root : string).
                                            (* a watcher calls trackCommitChange *)

Definition newWorld (g : option GitTracker.t) (st : Stores DB R) : World :=
  mkWorld new noHost g st [].

Definition suspend (cycle : option (list ActivityLog))
    (cycles : list (list ActivityLog)) : list (list ActivityLog) :=
  match cycle with
  | Some logsToSave => (cycles ++ [logsToSave])%list
  | None => cycles
  end.

(** The handler of a live subscription, called when the host raises [e]:
    each of the three is [handleActivity]. *)
Definition notify (e : HostEvent) (now : Z) (editor : option TextDocument)
    (git : option GitTracker.t) (acc : t * list Effect) (s : nat * HostEvent)
  : t * list Effect :=
  if bool_decide (s.2 = e) then
    let '(tr, es) := handleActivity sep now editor git acc.1 in
    (tr, (acc.2 ++ es)%list)
  else acc.

(** The host raises an event: it calls the handler of every live
    subscription to it. *)
Definition deliver (e : HostEvent) (now : Z) (editor : option TextDocument)
    (w : World) : t * list Effect :=
  fold_left (notify e now editor (gitTracker w))
    (subscriptions (host w)) (tracker w, []).

Definition step (w : World) (ev : Event) : World * list Effect :=
  match ev with
  | Start =>
      let '(tr, h, es, cycle) := startTracking (tracker w) (host w) in
      (mkWorld tr h (gitTracker w) (stores w) (suspend cycle (inflight w)), es)
  | Stop =>
      let '(tr, h, es) := stopTracking (tracker w) (host w) in
      (mkWorld tr h (gitTracker w) (stores w) (inflight w), es)
  | Fire e now editor =>
      let '(tr, es) := deliver e now editor w in
      (mkWorld tr (host w) (gitTracker w) (stores w) (inflight w), es)
  | Timeout id =>
      if bool_decide (id ∈ timers (host w)) then
        let h := clearTimeout id (host w) in
        let '(tr, cycle) := syncLoopEnter (tracker w) in
        (mkWorld tr h (gitTracker w) (stores w) (suspend cycle (inflight w)), [])
      else (w, [])
  | Complete i now later =>
      match inflight w !! i with
      | Some logsToSave =>
          let '(st, es, _) := syncCycle LocalTZA logsToSave now later (stores w) in
          let '(tr, h) := syncLoopExit (tracker w) (host w) in
          (mkWorld tr h (gitTracker w) st (delete i (inflight w)), es)
      | None => (w, [])
      end
  | Discover git roots =>
      match gitTracker w with
      | Some g =>
          let res := GitTracker.initializeAllRoots git roots g (db (stores w)) in
          (mkWorld (tracker w) (host w) (Some (GitTracker.tracker res))
                   (mkStores (GitTracker.store res) (remote (stores w)))
                   (inflight w),
           GitTracker.effects res)
      | None => (w, [])
      end
  | HeadChanged git root =>
      match gitTracker w with
      | Some g =>
          if bool_decide (root ∈ GitTracker.gitRoots g) then
            let res := GitTracker.trackCommitChange git root g (db (stores w)) in
            (mkWorld (tracker w) (host w) (Some (GitTracker.tracker res))
                     (mkStores (GitTracker.store res) (remote (stores w)))
                     (inflight w),
             GitTracker.effects res)
          else (w, [])
      | None => (w, [])
      end
  end.

(** A run of the extension: the world and the effects after the events. *)
Fixpoint run (w : World) (evs : list Event) : World * list Effect :=
  match evs with
  | [] => (w, [])
  | ev :: rest =>
      let '(w1, es1) := step w ev in
      let '(w2, es2) := run w1 rest in
      (w2, (es1 ++ es2)%list)
  end.

End Lifecycle.

End Tracker.

(** ** A store and a remote service for the examples *)

Module Example.

Global Instance FileActivitySummary_eq_dec : EqDecision FileActivitySummary.
Proof. solve_decision. Defined.

(** Modelled from the spec: the local durable store of
    [storage/database.ts], which is not among the sources, "holding raw
    activity rows, file-activity aggregates, daily aggregates, and commit
    rows". Here it is a table of each; a query gives the rows at the head
    of its table, up to the limit asked for, and a deletion removes the
    rows it is given. No call throws. *)
Record Store : Type := mkStore {
  activities : list ActivityLog;
  files : list FileActivitySummary;
  daily : list DailyActivitySummary;
  commits : list GitCommit
}.

Definition withId (id : Z) (row : GitCommit) : GitCommit :=
  {| gc_id := Some id;
     gc_projectPath := gc_projectPath row;
     gc_commitHash := gc_commitHash row;
     gc_message := gc_message row;
     gc_author := gc_author row;
     gc_authorEmail := gc_authorEmail row;
     gc_timestamp := gc_timestamp row;
     gc_filesChanged := gc_filesChanged row;
     gc_linesAdded := gc_linesAdded row;
     gc_linesDeleted := gc_linesDeleted row;
     gc_branch := gc_branch row |}.

Global Instance store_database : Database Store := {|
  insertActivity s log :=
    (mkStore (activities s ++ [log]) (files s) (daily s) (commits s),
     Js.Returned tt);
  insertCommit s row :=
    (mkStore (activities s) (files s) (daily s)
       (commits s ++ [withId (Z.of_nat (length (commits s)) + 1) row]),
     Js.Returned tt);
  getDailyAggregatedActivities s n := Js.Returned (take (Z.to_nat n) (daily s));
  deleteActivitiesBeforeDate s date :=
    (mkStore
       (List.filter
          (fun a => negb (Js.string_lt (JsDate.isoDate (al_timestamp a)) date))
          (activities s))
       (files s) (daily s) (commits s),
     Js.Returned tt);
  getAggregatedActivities s n := Js.Returned (take (Z.to_nat n) (files s));
  deleteAggregatedActivities s batch :=
    (mkStore (activities s)
       (List.filter (fun f => negb (bool_decide (f ∈ batch))) (files s))
       (daily s) (commits s),
     Js.Returned tt);
  getUnsyncedCommits s n := Js.Returned (take (Z.to_nat n) (commits s));
  deleteCommits s ids :=
    (mkStore (activities s) (files s) (daily s)
       (List.filter
          (fun c => match gc_id c with
                    | Some id => negb (bool_decide (id ∈ ids))
                    | None => true
                    end)
          (commits s)),
     Js.Returned tt)
|}.

Definition emptyStore : Store := mkStore [] [] [] [].

(** A remote service that acknowledges every request while it is up and
    fails every request while it is down. *)
Inductive Service : Type := Up | Down.

Global Instance service_remote : Remote Service := {|
  request r m :=
    match r with
    | Up => (Up, Js.Returned tt)
    | Down => (Down, Js.Thrown)
    end
|}.

(** A document open in the editor, in the repository at [/w/app]. *)
Definition doc : Tracker.TextDocument :=
  Tracker.mkTextDocument "/w/app/src/main.ts" "typescript" (Some "/w").

Definition repo : GitTracker.t :=
  GitTracker.mk {[ "/w/app" := "abc123" ]} {[ "/w/app" := "main" ]} ["/w/app"].

(** Coordinated Universal Time as the time zone of the host. *)
Definition utc : Z -> bool -> Z := fun _ _ => 0.

(** India Standard Time, five hours and a half ahead. *)
Definition ist : Z -> bool -> Z := fun _ _ => 19800000.

(** Eastern Time around the start of daylight saving time in 2025: five
    hours behind Coordinated Universal Time until 9 March 2025 at 07:00
    UTC, which is 02:00 local time, and four hours behind from then on. A
    local time that the change skips is taken with the offset before
    it. *)
Definition newYork : Z -> bool -> Z :=
  fun t isUTC =>
    if isUTC
    then (if t <? 1741503600000 then -18000000 else -14400000)
    else (if t <? 1741489200000 then -18000000 else -14400000).

(** The repository at [/w/app] after a commit [def456] on [main]: what the
    commands give when all is well. *)
Definition healthy : GitTracker.Git :=
  GitTracker.mkGit
    (fun _ => Js.Returned "def456
")
    (fun _ => Js.Returned "main
")
    (fun _ format _ =>
       Js.Returned
         match format with
         | GitTracker.Subject => "Fix the parser"
         | GitTracker.AuthorName => "Ada"
         | GitTracker.AuthorEmail => "ada@example.org"
         | GitTracker.AuthorTime => "1749556800"
         end)
    (fun _ _ => Js.Returned " src/parser.ts | 3 +++
 1 file changed, 3 insertions(+)
").

(** The same, with the commit-details commands failing. *)
Definition detailsFail : GitTracker.Git :=
  GitTracker.mkGit (GitTracker.revParseHead healthy)
    (GitTracker.branchShowCurrent healthy)
    (fun _ _ _ => Js.Thrown) (fun _ _ => Js.Thrown).

(** The same, with the branch command failing. *)
Definition branchFails : GitTracker.Git :=
  GitTracker.mkGit (GitTracker.revParseHead healthy) (fun _ => Js.Thrown)
    (GitTracker.logFormat healthy) (GitTracker.showStat healthy).

Definition summary (file : string) : FileActivitySummary :=
  mkFileActivitySummary "/w/app" (Some "abc123") (Some "main") file "typescript"
    60000 4 1749556800000 1749556860000 "vscode".

(** A store with a batch of three pending file summaries. *)
Definition threeFiles : Store :=
  mkStore [] [summary "/w/app/a.ts"; summary "/w/app/b.ts"; summary "/w/app/c.ts"]
    [] [].

Definition day (date : string) : DailyActivitySummary :=
  mkDailyActivitySummary date "/w/app" 3600000 [("typescript", 3600000)]
    ["/w/app/a.ts"] 1.

(** A store with the daily aggregates of 8 and 9 June 2025. *)
Definition twoDays : Store :=
  mkStore [] [] [day "2025-06-08"; day "2025-06-09"] [].

(** A store that cannot be used, its data base closed: every call throws
    and changes nothing. *)
Inductive Closed : Type := closed.

Global Instance closed_database : Database Closed := {|
  insertActivity s _ := (s, Js.Thrown);
  insertCommit s _ := (s, Js.Thrown);
  getDailyAggregatedActivities _ _ := Js.Thrown;
  deleteActivitiesBeforeDate s _ := (s, Js.Thrown);
  getAggregatedActivities _ _ := Js.Thrown;
  deleteAggregatedActivities s _ := (s, Js.Thrown);
  getUnsyncedCommits _ _ := Js.Thrown;
  deleteCommits s _ := (s, Js.Thrown)
|}.

(** What [getCommitDetails] reads of the commit [def456] of
    [healthy]. *)
Definition details : GitTracker.CommitDetails :=
  GitTracker.mkCommitDetails "Fix the parser" "Ada" "ada@example.org"
    1749556800000 2 0 0.

(** A store that holds the row of this commit, not yet sent. *)
Definition oneCommit : Store :=
  mkStore [] [] []
    [withId 1 (GitTracker.commitRow "/w/app" "def456" details (Some "main"))].

(** [path.join] on POSIX, for a directory and a name. *)
Definition join (directory name : string) : string := directory ++ "/" ++ name.

(** The workspace folder [/w]: the repository [app], with a repository
    nested in it, a file, the directory [docs] without a repository, and
    the repository [lib]. *)
Definition workspace : list (string * GitTracker.Entry) :=
  [("/w",
    GitTracker.Dir true
      [("app", GitTracker.Dir true
                 [(".git", GitTracker.Dir true []);
                  ("vendor", GitTracker.Dir true [(".git", GitTracker.Dir true [])])]);
       ("README.md", GitTracker.File);
       ("docs", GitTracker.Dir true [("guide", GitTracker.Dir true [])]);
       ("lib", GitTracker.Dir true [(".git", GitTracker.Dir true [])])])].

End Example.

(** * The vocabulary of the specification

    The notions the specification states its properties with, defined on
    the embedding. *)

Section Vocabulary.

Context {DB R : Type} `{Database DB} `{Remote R}.

(** [path.sep] of the platform. *)
Variable sep : string.

(** ** Paths and roots *)

(** The longest covering root among [roots], as the specification words it:
    [best] is a known root enclosing the path and no known root enclosing
    the path is longer; or no known root encloses the path. *)
Definition LongestMatch (roots : list string) (fsPath : string)
    (best : option string) : Prop :=
  match best with
  | Some r =>
      r ∈ roots ∧ GitTracker.Encloses sep r fsPath
      ∧ ∀ r', r' ∈ roots → GitTracker.Encloses sep r' fsPath →
              (String.length r' ≤ String.length r)%nat
  | None => ∀ r', r' ∈ roots → ¬ GitTracker.Encloses sep r' fsPath
  end.

(** ** Histories of events *)

(** A call of [handleActivity] with what it reads from outside. *)
Record Call : Type := mkCall {
  call_now : Z;
  call_editor : option Tracker.TextDocument;
  call_git : option GitTracker.t
}.

Definition after (tr : Tracker.t) (c : Call) : Tracker.t :=
  (Tracker.handleActivity sep (call_now c) (call_editor c) (call_git c) tr).1.

(** The tracker after the calls of a history, oldest first. *)
Definition feed (tr : Tracker.t) (past : list Call) : Tracker.t :=
  fold_left after past tr.

(** The timestamps of the events of a history that were accepted, that is,
    not discarded by [handleActivity], oldest first. *)
Fixpoint acceptedTimes (tr : Tracker.t) (past : list Call) : list Z :=
  match past with
  | [] => []
  | c :: rest =>
      (if call_now c - Tracker.lastActivityTime tr <? Tracker.debounceInterval
       then [] else [call_now c])
      ++ acceptedTimes (after tr c) rest
  end%list.

(** The duration the specification gives an accepted event at [now]: 0 for
    the first accepted event ever and for a gap of five minutes or more
    since the last accepted event, else the gap. *)
Definition specDuration (lastAccepted : option Z) (now : Z) : Z :=
  match lastAccepted with
  | None => 0
  | Some t => if 300000 <=? now - t then 0 else now - t
  end.

(** A duration the recorder may give: 0, or a gap from the debounce interval
    up to, not including, the idle threshold. *)
Definition DurationOk (d : Z) : Prop := d = 0 ∨ 2000 ≤ d < 300000.

(** ** Effects *)

(** Every effect a task leaves satisfies [P], whatever the stores. *)
Definition Emits {DB R A : Type} (P : Effect → Prop) (m : Tracker.Task DB R A) : Prop :=
  ∀ st, Forall P (m st).1.2.

(** An effect that carries an [ActivityLog], the push onto the queue or its
    insertion in the store, carries one with such a duration. *)
Definition carries_ok (e : Effect) : Prop :=
  match e with
  | QueuePush log | Store (InsertActivity log) => DurationOk (al_duration log)
  | _ => True
  end.

(** An effect that is neither a push onto the queue, nor the insertion of a
    log in the store, nor a query of the repository correlator. *)
Definition plain (e : Effect) : Prop :=
  match e with
  | QueuePush _ | Store (InsertActivity _) | Resolve _ _ => False
  | _ => True
  end.

(** What the repository correlator does that is seen from outside: it logs
    and it inserts commit rows. *)
Definition git_only (e : Effect) : Prop :=
  match e with
  | LogInfo _ | LogError _ | Store (InsertCommit _) => True
  | _ => False
  end.

(** An effect that is no work of the recorder nor of the sync loop. *)
Definition idle (e : Effect) : Prop :=
  match e with
  | QueuePush _ | Request _ | Resolve _ _ => False
  | Store (InsertCommit _) => True
  | Store _ => False
  | _ => True
  end.

(** An effect that is not a push onto the queue. *)
Definition not_push (e : Effect) : Prop :=
  match e with QueuePush _ => False | _ => True end.

(** An effect that is not the request that carries daily aggregates. *)
Definition not_daily_request (e : Effect) : Prop :=
  match e with Request (SyncDailyStats _) => False | _ => True end.


Definition logs_ok (logs : list ActivityLog) : Prop :=
  Forall (fun log => DurationOk (al_duration log)) logs.

(** ** Worlds *)

(** The logs held by a world, in the queue and in the suspended cycles, all
    have a duration the recorder may give. *)
Definition held_ok (w : Tracker.World (DB:=DB) (R:=R)) : Prop :=
  logs_ok (Tracker.queue (Tracker.tracker w)) ∧ Forall logs_ok (Tracker.inflight w).

(** Every live subscription was made by the [startTracking] that is in
    force, and is held in [disposable]. *)
Definition subs_owned (w : Tracker.World (DB:=DB) (R:=R)) : Prop :=
  ∀ s, s ∈ Tracker.subscriptions (Tracker.host w) →
       Tracker.isTracking (Tracker.tracker w) = true
       ∧ ∃ handles, Tracker.disposable (Tracker.tracker w) = Some handles
                    ∧ s.1 ∈ handles.

(** Only [startTracking] and [stopTracking] change the subscriptions, the
    tracking flag and [disposable]. *)
Definition same_subscriptions (w w' : Tracker.World (DB:=DB) (R:=R)) : Prop :=
  Tracker.subscriptions (Tracker.host w') = Tracker.subscriptions (Tracker.host w)
  ∧ Tracker.isTracking (Tracker.tracker w') = Tracker.isTracking (Tracker.tracker w)
  ∧ Tracker.disposable (Tracker.tracker w') = Tracker.disposable (Tracker.tracker w).

(** The tracker is stopped and the host calls none of its handlers. *)
Definition Stopped (w : Tracker.World (DB:=DB) (R:=R)) : Prop :=
  Tracker.isTracking (Tracker.tracker w) = false
  ∧ Tracker.subscriptions (Tracker.host w) = [].

(** The sync loops still alive: the armed timeouts and the suspended cycles. *)
Definition pending (w : Tracker.World (DB:=DB) (R:=R)) : nat :=
  (length (Tracker.timers (Tracker.host w)) + length (Tracker.inflight w))%nat.

(** ** Commit tracking *)

(** One of the five commands behind [getCommitDetails] fails. *)
Definition DetailsQueryFails (git : GitTracker.Git) (root hash : string) : Prop :=
  GitTracker.logFormat git root GitTracker.Subject hash = Js.Thrown
  ∨ GitTracker.logFormat git root GitTracker.AuthorName hash = Js.Thrown
  ∨ GitTracker.logFormat git root GitTracker.AuthorEmail hash = Js.Thrown
  ∨ GitTracker.logFormat git root GitTracker.AuthorTime hash = Js.Thrown
  ∨ GitTracker.showStat git root hash = Js.Thrown.

(** The call is a no-op: it resolves and leaves the tracker and the store as
    they were, with no effect. *)
Definition NoOp (git : GitTracker.Git) (root : string) (g : GitTracker.t) (db : DB)
  : Prop :=
  GitTracker.trackCommitChange git root g db
  = GitTracker.mkResult g db [] (Js.Returned tt).

(** ** The file-activity phase *)

(** What the request carrying a batch of summaries looks like. *)
Definition fileRequest (batch : list FileActivitySummary) : Mutation :=
  SyncFileActivities (map ApiClient.fileActivityInput batch).



(** ** Days *)

(** The instant at which the local clock showed, [n] calendar days
    before, the time of day it shows at [t]; local time is [LocalTZA] ahead
    of Coordinated Universal Time. This is [n] times 24 hours before [t]
    when the offset is the same at both instants, and not across a change
    of the offset. *)
Definition localDaysBefore (LocalTZA : Z → bool → Z) (n t : Z) : Z :=
  let wallClock := t + LocalTZA t true - n * JsDate.msPerDay in
  wallClock - LocalTZA wallClock false.

(** ** Texts and patterns *)

(** Every code unit of [s] satisfies [P]. *)
Fixpoint all_units (P : ascii → Prop) (s : string) : Prop :=
  match s with
  | EmptyString => True
  | String c s' => P c ∧ all_units P s'
  end.

(** The text [sub] occurs in [s]. *)
Definition Contains (sub s : string) : Prop := ∃ pre post, s = pre ++ sub ++ post.

(** A matcher is sound for a set of texts when each success of it comes from
    a success of its continuation on the input less one of these texts. *)
Definition Sound (m : Regex.Matcher) (L : string → Prop) : Prop :=
  ∀ s caps k res, m s caps k = Some res →
    ∃ w s' caps', s = w ++ s' ∧ L w ∧ k s' caps' = Some res.

(** A text holds a match of a pattern. *)
Definition Holds (r : Regex.re) (s : string) : Prop :=
  ∃ pre w post, s = pre ++ w ++ post ∧ Regex.Lang r w.

(** The combined phrase the pattern looks for: a number, [ insertion], any
    text within the line, a number, [ deletion]. *)
Definition CombinedPhrase (s : string) : Prop :=
  ∃ pre n mid m post,
    s = pre ++ n ++ " insertion" ++ mid ++ m ++ " deletion" ++ post
    ∧ n ≠ "" ∧ all_units (fun c => Js.isDigit c = true) n
    ∧ m ≠ "" ∧ all_units (fun c => Js.isDigit c = true) m
    ∧ all_units (fun c => Regex.dot c = true) mid.

End Vocabulary.

(** * Further notions

    The notions the properties of the rest of the code are stated with. *)

(** ** Repositories of a workspace *)

Section RepositoryVocabulary.

(** [path.join] of the platform, for a directory and a name. *)
Variable join : string → string → string.

(** The children [findGitRootsInWorkspace] pushes of those [readdirSync]
    lists: the directories, up to the first entry whose [statSync]
    throws. *)
Fixpoint listed (children : list (string * GitTracker.Entry))
  : list (string * GitTracker.Entry) :=
  match children with
  | [] => []
  | (name, e) :: rest =>
      match e with
      | GitTracker.Dir _ _ => (name, e) :: listed rest
      | GitTracker.File => listed rest
      | GitTracker.Broken => []
      end
  end.

(** The entry [e'] at the path [r] is reached from the entry [e] at the
    path [p]: it is [e], or it is reached from a directory listed in [e],
    which is a readable directory and no repository. *)
Inductive Reached : string → GitTracker.Entry → string → GitTracker.Entry → Prop :=
  | Reached_here p e : Reached p e p e
  | Reached_below p children name c r e' :
      GitTracker.hasGitDir (GitTracker.Dir true children) = false →
      (name, c) ∈ listed children →
      Reached (join p name) c r e' →
      Reached p (GitTracker.Dir true children) r e'.

(** [r] is the path of a repository of the folder [tree] at [base]: of an
    entry reached from it that holds a directory [.git]. *)
Definition Repository (base : string) (tree : GitTracker.Entry) (r : string) : Prop :=
  ∃ e, Reached base tree r e ∧ GitTracker.hasGitDir e = true.

(** The entries of the trees on a stack. *)
Definition weight (stack : list (string * GitTracker.Entry)) : nat :=
  list_sum (map (fun c => GitTracker.entries c.2) stack).

End RepositoryVocabulary.

(** ** The caches after an initialisation *)

Section InitializationVocabulary.
Context {DB : Type} `{Database DB}.

(** What [initializeAllRoots] leaves cached for a root, from the cache
    [before]: the trimmed output of the command when it gave one that is not
    empty, else what was cached. *)
Definition refreshed (answer : option string) (before : gmap string string)
    (root : string) : option string :=
  if Js.truthy answer then answer else before !! root.

(** The state of the loop of [initializeAllRoots] after the roots [seen],
    started on the tracker [g]. *)
Record Initialized (git : GitTracker.Git) (g : GitTracker.t) (seen : list string)
    (acc : GitTracker.Result (DB:=DB)) : Prop := {
  init_roots :
    GitTracker.gitRoots (GitTracker.tracker acc) = GitTracker.gitRoots g;
  init_others : ∀ r, r ∉ seen →
    GitTracker.currentCommit (GitTracker.tracker acc) !! r
    = GitTracker.currentCommit g !! r
    ∧ GitTracker.currentBranch (GitTracker.tracker acc) !! r
      = GitTracker.currentBranch g !! r;
  init_seen : GitTracker.settled acc = Js.Returned tt → ∀ r, r ∈ seen →
    GitTracker.currentCommit (GitTracker.tracker acc) !! r
    = refreshed (GitTracker.getCurrentCommit git r) (GitTracker.currentCommit g) r
    ∧ GitTracker.currentBranch (GitTracker.tracker acc) !! r
      = if Js.truthy (GitTracker.getCurrentCommit git r)
        then refreshed (GitTracker.getBranch git r) (GitTracker.currentBranch g) r
        else GitTracker.currentBranch g !! r;
  init_rows : ∀ row, Store (InsertCommit row) ∈ GitTracker.effects acc →
    gc_projectPath row ∈ seen
    ∧ GitTracker.getCurrentCommit git (gc_projectPath row) = Some (gc_commitHash row)
}.
End InitializationVocabulary.

(** ** Texts *)

Section TextVocabulary.
(** A text that does not start with a unit of the class [p]. *)
Definition starts_outside (p : ascii → bool) (s : string) : Prop :=
  match s with
  | String c _ => p c = false
  | EmptyString => True
  end.

(** The same at the end. *)
Definition ends_outside (p : ascii → bool) (s : string) : Prop :=
  ∀ q c, s = q ++ String c "" → p c = false.

(** A decimal numeral. *)
Definition Digits (s : string) : Prop :=
  s ≠ "" ∧ all_units (fun c => Js.isDigit c = true) s.

(** The text of [lines], each ended by a line feed. *)
Definition unlines (lines : list string) : string :=
  Regex.flatten (map (fun l => l ++ String "010"%char "") lines).

(** White space only. *)
Definition Blank (s : string) : Prop := all_units (fun c => Js.isSpace c = true) s.

End TextVocabulary.

(** ** Recorded time *)

Section TimeVocabulary.
(** The time recorded by a list of logs. *)
Definition totalDuration (logs : list ActivityLog) : Z :=
  foldr (fun log acc => al_duration log + acc) 0 logs.

(** The stretch of time a log accounts for ends at its timestamp and lasts
    its duration: the stretches of [logs], oldest first, follow one another
    without overlap, each log at least [gap] after the one before, and none
    ends after [bound]. *)
Fixpoint Consecutive (gap bound : Z) (logs : list ActivityLog) : Prop :=
  match logs with
  | [] => True
  | log :: rest =>
      al_timestamp log ≤ bound
      ∧ Forall (fun later => al_timestamp log + gap ≤ al_timestamp later
                             ∧ al_timestamp log ≤ al_timestamp later - al_duration later)
               rest
      ∧ Consecutive gap bound rest
  end.
End TimeVocabulary.

(** ** Requests and calls of a cycle *)

Section SyncVocabulary.
Context {DB R : Type} `{Database DB} `{Remote R}.

(** The requests made to the remote service, and the calls that change the
    store, among the effects of a method, in their order. *)
Definition requests (es : list Effect) : list Mutation :=
  omap (fun e => match e with Request m => Some m | _ => None end) es.

Definition storeCalls (es : list Effect) : list StoreCall :=
  omap (fun e => match e with Store call => Some call | _ => None end) es.

(** The request that carries a batch of daily aggregates, of commits. *)
Definition dailyRequest (batch : list DailyActivitySummary) : Mutation :=
  SyncDailyStats (map ApiClient.dailyStatsInput batch).

Definition commitsRequest (batch : list GitCommit) : Mutation :=
  SyncCommits (map ApiClient.commitInput batch).

(** The remote service in the state [r] returns from the request [m]. *)
Definition Acks (r : R) (m : Mutation) : Prop := (request r m).2 = Js.Returned tt.

(** The remote service cannot be reached: in the state [r] every request
    throws and leaves it in this state. *)
Definition Unreachable (r : R) : Prop := ∀ m, request r m = (r, Js.Thrown).

(** The store after an insertion of each log of [logs], whatever each
    insertion reports. *)
Definition inserted (logs : list ActivityLog) (d : DB) : DB :=
  fold_left (fun d log => (insertActivity d log).1) logs d.

(** At most one request. *)
Definition AtMostOne (P : Mutation → Prop) (ms : list Mutation) : Prop :=
  ms = [] ∨ ∃ m, ms = [m] ∧ P m.
(** A method of the [ApiClient] that sends [rows] in the request
    [mutation rows]: nothing is sent for no row, and else one request,
    whose return is the success reported. *)
Definition Reports {A : Type} (method : list A → R → R * bool * list Effect)
    (mutation : list A → Mutation) : Prop :=
  ∀ rows r,
    match rows with
    | [] => method rows r = (r, true, [])
    | _ =>
        (method rows r).1.1 = (request r (mutation rows)).1
        ∧ ((method rows r).1.2 = true ↔ (request r (mutation rows)).2 = Js.Returned tt)
        ∧ requests (method rows r).2 = [mutation rows]
        ∧ storeCalls (method rows r).2 = []
    end.

End SyncVocabulary.

(** ** Worlds *)

Section WorldVocabulary.
Context {DB R : Type} `{Database DB} `{Remote R}.

(** The logs pushed onto the queue, and the logs handed to the store, among
    the effects of a run, in their order. *)
Definition pushes (es : list Effect) : list ActivityLog :=
  omap (fun e => match e with QueuePush log => Some log | _ => None end) es.

Definition insertions (es : list Effect) : list ActivityLog :=
  omap (fun e => match e with Store (InsertActivity log) => Some log | _ => None end) es.

(** The logs a world holds in memory: those taken by the suspended cycles
    and those in the queue. *)
Definition held (w : Tracker.World (DB:=DB) (R:=R)) : list ActivityLog :=
  (concat (Tracker.inflight w) ++ Tracker.queue (Tracker.tracker w))%list.

(** While the tracker is tracking the host holds its three subscriptions,
    one to each event, under the handles kept in [disposable]; while it is
    not, none. *)
Definition Wired (w : Tracker.World (DB:=DB) (R:=R)) : Prop :=
  if Tracker.isTracking (Tracker.tracker w) then
    ∃ a b c,
      Tracker.subscriptions (Tracker.host w)
      = [(a, Tracker.DidChangeTextDocument);
         (b, Tracker.DidChangeTextEditorSelection);
         (c, Tracker.DidSaveTextDocument)]
      ∧ Tracker.disposable (Tracker.tracker w) = Some [a; b; c]
  else Tracker.subscriptions (Tracker.host w) = [].

(** The armed timeouts have distinct handles, all given out already. *)
Definition Timed (w : Tracker.World (DB:=DB) (R:=R)) : Prop :=
  NoDup (Tracker.timers (Tracker.host w))
  ∧ ∀ id, id ∈ Tracker.timers (Tracker.host w) → (id < Tracker.fresh (Tracker.host w))%nat.
End WorldVocabulary.

(** * Properties *)

(** Membership in a list written out. *)
Ltac mem :=
  repeat (rewrite elem_of_cons || rewrite elem_of_nil); try tauto.

Ltac case_mem H :=
  repeat (apply elem_of_cons in H as [H|H];
          [try discriminate; try (injection H as ->)|]);
  try (by apply elem_of_nil in H).


(** ** Strings *)

Section StringFacts.

Lemma string_app_cons (c : ascii) (a b : string) :
  String c a ++ b = String c (a ++ b).
Proof. reflexivity. Qed.

Lemma string_app_nil_l (a : string) : "" ++ a = a.
Proof. reflexivity. Qed.

Lemma startsWith_append (p rest : string) : Js.startsWith (p ++ rest) p = true.
Proof.
  induction p as [|c p IH]; [done|].
  rewrite string_app_cons. simpl. by rewrite Ascii.eqb_refl, IH.
Qed.

Lemma startsWith_inv (s p : string) :
  Js.startsWith s p = true → ∃ rest, s = p ++ rest.
Proof.
  revert s. induction p as [|c p IH]; intros s Hs; simpl in *.
  - by exists s.
  - destruct s as [|d s]; [done|].
    apply andb_prop in Hs as [Hc Hp]. apply Ascii.eqb_eq in Hc as ->.
    destruct (IH _ Hp) as [rest ->]. exists rest. by rewrite string_app_cons.
Qed.

Lemma startsWith_spec (s p : string) :
  Js.startsWith s p = true ↔ ∃ rest, s = p ++ rest.
Proof.
  split; [apply startsWith_inv|]. intros [rest ->]. apply startsWith_append.
Qed.

Lemma string_app_assoc (a b c : string) : (a ++ b) ++ c = a ++ (b ++ c).
Proof.
  induction a as [|x a IH]; [done|]. by rewrite !string_app_cons, IH.
Qed.

Lemma string_app_length (a b : string) :
  String.length (a ++ b) = (String.length a + String.length b)%nat.
Proof.
  induction a as [|x a IH]; [done|]. rewrite string_app_cons. simpl. by rewrite IH.
Qed.

Lemma string_app_nil_r (a : string) : a ++ "" = a.
Proof. induction a as [|x a IH]; [done|]. by rewrite string_app_cons, IH. Qed.

(** Two prefixes of one string that have the same length are equal. *)
Lemma prefix_same_length (a b x y : string) :
  a ++ x = b ++ y → String.length a = String.length b → a = b.
Proof.
  revert b. induction a as [|c a IH]; intros [|d b] Heq Hlen; simpl in *;
    try done.
  rewrite !string_app_cons in Heq.
  injection Heq as -> Heq. f_equal. apply IH; [done | lia].
Qed.

End StringFacts.

(** ** GitTracker: longest-prefix match *)

Section PathFacts.

Variable sep : string.

Lemma covers_Encloses (fsPath root : string) :
  GitTracker.covers sep fsPath root = true ↔ GitTracker.Encloses sep root fsPath.
Proof.
  unfold GitTracker.covers, GitTracker.Encloses.
  rewrite !orb_true_iff, String.eqb_eq, !startsWith_spec.
  setoid_rewrite string_app_assoc. tauto.
Qed.

(** A root that covers a path is a prefix of it. *)
Lemma covers_prefix (fsPath root : string) :
  GitTracker.covers sep fsPath root = true → ∃ rest, fsPath = root ++ rest.
Proof.
  rewrite covers_Encloses. intros [-> | [[rest ->] | [rest ->]]].
  - exists "". by rewrite string_app_nil_r.
  - by eexists.
  - by eexists.
Qed.

Lemma covers_same_length (fsPath r1 r2 : string) :
  GitTracker.covers sep fsPath r1 = true →
  GitTracker.covers sep fsPath r2 = true →
  String.length r1 = String.length r2 → r1 = r2.
Proof.
  intros [x Hx]%covers_prefix [y Hy]%covers_prefix Hlen.
  apply (prefix_same_length r1 r2 x y); congruence.
Qed.

Lemma visit_fold_spec (fsPath : string) (roots seen : list string)
    (best : option string) :
  LongestMatch sep seen fsPath best →
  LongestMatch sep (seen ++ roots) fsPath
    (fold_left (GitTracker.visit sep fsPath) roots best).
Proof.
  revert seen best. induction roots as [|root roots IH]; intros seen best Hb.
  - simpl. by rewrite app_nil_r.
  - simpl. replace (seen ++ root :: roots)%list with ((seen ++ [root]) ++ roots)%list
      by (by rewrite <- app_assoc).
    apply IH. unfold GitTracker.visit.
    destruct (GitTracker.covers sep fsPath root) eqn:Hc.
    + assert (Henc := proj1 (covers_Encloses _ _) Hc).
      destruct best as [b|]; simpl.
      * destruct Hb as (Hin & Hbenc & Hmax).
        destruct (String.eqb b "") eqn:Hempty; simpl.
        { apply String.eqb_eq in Hempty as ->. split_and!; [set_solver | done |].
          intros r' [Hr'| ->%list_elem_of_singleton]%elem_of_app Hr'enc; [|lia].
          specialize (Hmax _ Hr' Hr'enc). simpl in Hmax. lia. }
        destruct (String.length b <? String.length root)%nat eqn:Hlt.
        { apply Nat.ltb_lt in Hlt. split_and!; [set_solver | done |].
          intros r' [Hr'| ->%list_elem_of_singleton]%elem_of_app Hr'enc; [|lia].
          specialize (Hmax _ Hr' Hr'enc). lia. }
        { apply Nat.ltb_ge in Hlt. split_and!; [set_solver | done |].
          intros r' [Hr'| ->%list_elem_of_singleton]%elem_of_app Hr'enc; [|lia].
          by apply Hmax. }
      * split_and!; [set_solver | done |].
        intros r' [Hr'| ->%list_elem_of_singleton]%elem_of_app Hr'enc; [|lia].
        by destruct (Hb _ Hr').
    + assert (¬ GitTracker.Encloses sep root fsPath) as Hnot.
      { rewrite <- covers_Encloses. congruence. }
      destruct best as [b|]; simpl in *.
      * destruct Hb as (Hin & Hbenc & Hmax). split_and!; [set_solver | done |].
        intros r' [Hr'| ->%list_elem_of_singleton]%elem_of_app Hr'enc; [|done].
        by apply Hmax.
      * intros r' [Hr'| ->%list_elem_of_singleton]%elem_of_app; [|done].
        by apply Hb.
Qed.

Lemma getGitRootForPath_spec (g : GitTracker.t) (fsPath : string) :
  LongestMatch sep (GitTracker.gitRoots g) fsPath (GitTracker.getGitRootForPath sep g fsPath).
Proof.
  unfold GitTracker.getGitRootForPath.
  apply (visit_fold_spec fsPath (GitTracker.gitRoots g) [] None).
  intros r' Hr'. by apply not_elem_of_nil in Hr'.
Qed.

(** The longest match is unique: it is a function of the set of roots. *)
Lemma LongestMatch_unique (roots : list string) (fsPath : string)
    (b1 b2 : option string) :
  LongestMatch sep roots fsPath b1 → LongestMatch sep roots fsPath b2 → b1 = b2.
Proof.
  destruct b1 as [r1|], b2 as [r2|]; simpl.
  - intros (Hin1 & He1 & Hm1) (Hin2 & He2 & Hm2). f_equal.
    apply (covers_same_length fsPath); [by apply covers_Encloses..|].
    specialize (Hm1 _ Hin2 He2). specialize (Hm2 _ Hin1 He1). lia.
  - intros (Hin1 & He1 & _) Hn. by destruct (Hn _ Hin1).
  - intros Hn (Hin2 & He2 & _). by destruct (Hn _ Hin2).
  - done.
Qed.

Lemma LongestMatch_same_elements (roots1 roots2 : list string) (fsPath : string)
    (best : option string) :
  (∀ r, r ∈ roots1 ↔ r ∈ roots2) →
  LongestMatch sep roots1 fsPath best → LongestMatch sep roots2 fsPath best.
Proof.
  intros Hsame. destruct best as [r|]; simpl.
  - intros (Hin & He & Hm). split_and!; [by apply Hsame | done |].
    intros r' Hr'. apply Hm. by apply Hsame.
  - intros Hn r' Hr'. apply Hn. by apply Hsame.
Qed.

End PathFacts.

Section PathTheorems.

Variable sep : string.

Lemma root_of_commit_query (g : GitTracker.t) (fsPath : string) :
  GitTracker.getActiveCommitForPath sep g fsPath
  = match GitTracker.getGitRootForPath sep g fsPath with
    | Some r => if Js.truthy (Some r) then GitTracker.currentCommit g !! r else None
    | None => None
    end.
Proof.
  unfold GitTracker.getActiveCommitForPath, GitTracker.getGitRootForPath.
  by destruct (fold_left _ _ _).
Qed.

Lemma root_of_branch_query (g : GitTracker.t) (fsPath : string) :
  GitTracker.getActiveBranchForPath sep g fsPath
  = match GitTracker.getGitRootForPath sep g fsPath with
    | Some r => if Js.truthy (Some r) then GitTracker.currentBranch g !! r else None
    | None => None
    end.
Proof.
  unfold GitTracker.getActiveBranchForPath, GitTracker.getGitRootForPath.
  by destruct (fold_left _ _ _).
Qed.

Lemma nested_root_example (g : GitTracker.t) :
  (∀ r, r ∈ GitTracker.gitRoots g ↔ r = "/a" ∨ r = "/a/b") →
  GitTracker.getGitRootForPath sep g "/a/b/file.ts" = Some "/a/b".
Proof.
  intros Hroots.
  apply (LongestMatch_unique sep (GitTracker.gitRoots g) "/a/b/file.ts");
    [apply getGitRootForPath_spec|].
  simpl. split_and!.
  - apply Hroots. by right.
  - right; right. by exists "file.ts".
  - intros r' [-> | ->]%Hroots _; simpl; lia.
Qed.

(** C4. For every path and every set of known roots, [getGitRootForPath]
    returns a known root that is the path or is followed in it by a path
    separator, the longest such root among the known ones, and nothing
    when no known root is such; the result depends on the set of roots
    only, not on the order they were registered in; with the roots [/a]
    and [/a/b], the path [/a/b/file.ts] resolves to [/a/b];
    [getActiveCommitForPath] and [getActiveBranchForPath] look up the
    commit and the branch cached for that same root. *)
Theorem getGitRootForPath_longest_prefix (g : GitTracker.t) (fsPath : string) :
  LongestMatch sep (GitTracker.gitRoots g) fsPath
    (GitTracker.getGitRootForPath sep g fsPath)
  ∧ (∀ best, LongestMatch sep (GitTracker.gitRoots g) fsPath best →
             GitTracker.getGitRootForPath sep g fsPath = best)
  ∧ (∀ g', (∀ r, r ∈ GitTracker.gitRoots g' ↔ r ∈ GitTracker.gitRoots g) →
           GitTracker.getGitRootForPath sep g' fsPath
           = GitTracker.getGitRootForPath sep g fsPath)
  ∧ (∀ cc cb,
        GitTracker.getGitRootForPath sep (GitTracker.mk cc cb ["/a"; "/a/b"])
          "/a/b/file.ts" = Some "/a/b"
        ∧ GitTracker.getGitRootForPath sep (GitTracker.mk cc cb ["/a/b"; "/a"])
            "/a/b/file.ts" = Some "/a/b")
  ∧ GitTracker.getActiveCommitForPath sep g fsPath
    = match GitTracker.getGitRootForPath sep g fsPath with
      | Some r => if Js.truthy (Some r) then GitTracker.currentCommit g !! r else None
      | None => None
      end
  ∧ GitTracker.getActiveBranchForPath sep g fsPath
    = match GitTracker.getGitRootForPath sep g fsPath with
      | Some r => if Js.truthy (Some r) then GitTracker.currentBranch g !! r else None
      | None => None
      end.
Proof.
  split_and!.
  - apply getGitRootForPath_spec.
  - intros best Hbest.
    eapply LongestMatch_unique; [apply getGitRootForPath_spec | done].
  - intros g' Hsame.
    eapply LongestMatch_unique; [apply getGitRootForPath_spec|].
    eapply LongestMatch_same_elements; [|apply getGitRootForPath_spec].
    intros r. by rewrite Hsame.
  - intros cc cb. split; apply nested_root_example; simpl; intros r;
      rewrite !elem_of_cons, elem_of_nil; tauto.
  - apply root_of_commit_query.
  - apply root_of_branch_query.
Qed.

End PathTheorems.

(** ** Tracker: debounce and duration *)

Section ActivityFacts.

Variable sep : string.

Lemma handleActivity_debounced now editor git tr :
  now - Tracker.lastActivityTime tr < Tracker.debounceInterval →
  Tracker.handleActivity sep now editor git tr = (tr, []).
Proof.
  intros Hgap. unfold Tracker.handleActivity.
  by rewrite (proj2 (Z.ltb_lt _ _) Hgap).
Qed.

(** What an event that is not debounced does, with and without an editor. *)
Lemma handleActivity_accepted now editor git tr :
  Tracker.debounceInterval ≤ now - Tracker.lastActivityTime tr →
  let result := Tracker.handleActivity sep now editor git tr in
  Tracker.lastActivityTime result.1 = now
  ∧ Tracker.isTracking result.1 = Tracker.isTracking tr
  ∧ Tracker.syncTimer result.1 = Tracker.syncTimer tr
  ∧ Tracker.disposable result.1 = Tracker.disposable tr
  ∧ match editor with
    | None => Tracker.queue result.1 = Tracker.queue tr ∧ result.2 = []
    | Some doc =>
        ∃ log, Tracker.queue result.1 = (Tracker.queue tr ++ [log])%list
               ∧ QueuePush log ∈ result.2
               ∧ (∀ log', QueuePush log' ∈ result.2 → log' = log)
               ∧ al_filePath log = Tracker.fileName doc
               ∧ al_timestamp log = now
               ∧ al_duration log
                 = if negb (Tracker.lastActivityTime tr =? 0)
                      && (now - Tracker.lastActivityTime tr <? Tracker.maxIdleTime)
                   then now - Tracker.lastActivityTime tr else 0
    end.
Proof.
  intros Hgap. unfold Tracker.handleActivity.
  rewrite (proj2 (Z.ltb_ge _ _) Hgap).
  destruct editor as [doc|]; simpl; [|done].
  split_and!; try done. eexists. split_and!; try done.
  - repeat (rewrite elem_of_app || rewrite elem_of_cons). tauto.
  - intros log'.
    destruct git; simpl;
      repeat match goal with |- context [if ?b then _ else _] => destruct b end;
      repeat (rewrite elem_of_app || rewrite elem_of_cons || rewrite elem_of_nil);
      intros Hin;
      repeat match goal with H : _ ∨ _ |- _ => destruct H end;
      try done; congruence.
Qed.

(** C1 as the code has it. An event whose gap [now - lastActivityTime] is
    below 2000 ms is discarded completely, whatever [lastActivityTime] is:
    nothing is enqueued, no effect, the tracker unchanged. An event whose
    gap is at least 2000 ms is never discarded. So with
    [lastActivityTime = 0] the event is discarded exactly when its
    timestamp is below 2000 ms. *)
Theorem debounce_discards now editor git tr :
  let result := Tracker.handleActivity sep now editor git tr in
  (now - Tracker.lastActivityTime tr < 2000 ↔ result = (tr, []))
  ∧ (2000 ≤ now - Tracker.lastActivityTime tr ↔
     Tracker.lastActivityTime result.1 = now ∧ result ≠ (tr, []))
  ∧ (Tracker.lastActivityTime tr = 0 → (result = (tr, []) ↔ now < 2000)).
Proof.
  assert (2000 ≤ now - Tracker.lastActivityTime tr →
          Tracker.lastActivityTime (Tracker.handleActivity sep now editor git tr).1 = now
          ∧ Tracker.handleActivity sep now editor git tr ≠ (tr, [])) as Hacc.
  { intros Hgap.
    destruct (handleActivity_accepted now editor git tr Hgap) as (Hlast & _).
    split; [done|]. intros Heq. rewrite Heq in Hlast. simpl in Hlast.
    unfold Tracker.debounceInterval in *. lia. }
  assert (now - Tracker.lastActivityTime tr < 2000 ↔
          Tracker.handleActivity sep now editor git tr = (tr, [])) as Hdisc.
  { split; [apply handleActivity_debounced|].
    intros Heq. destruct (Z.lt_ge_cases (now - Tracker.lastActivityTime tr) 2000) as [|Hge];
      [done|]. by destruct (Hacc Hge). }
  simpl. split_and!; [done | |].
  - split; [done|]. intros [_ Hne].
    destruct (Z.lt_ge_cases (now - Tracker.lastActivityTime tr) 2000) as [Hlt|]; [|done].
    by apply Hdisc in Hlt.
  - intros H0. rewrite <- Hdisc, H0. lia.
Qed.

End ActivityFacts.

Section HistoryFacts.

Variable sep : string.

(** After a history, [lastActivityTime] is the time of the last accepted
    event, and an accepted time is never the 0 that stands for "no event
    yet". *)
Lemma after_debounced (tr : Tracker.t) (c : Call) :
  call_now c - Tracker.lastActivityTime tr < Tracker.debounceInterval →
  after sep tr c = tr.
Proof. intros Hlt. unfold after. by rewrite handleActivity_debounced. Qed.

Lemma after_accepted (tr : Tracker.t) (c : Call) :
  Tracker.debounceInterval ≤ call_now c - Tracker.lastActivityTime tr →
  Tracker.lastActivityTime (after sep tr c) = call_now c.
Proof.
  intros Hge. unfold after.
  by destruct (handleActivity_accepted sep (call_now c) (call_editor c)
                 (call_git c) tr Hge) as (Hlast & _).
Qed.

Lemma feed_cons (tr : Tracker.t) (c : Call) (past : list Call) :
  feed sep tr (c :: past) = feed sep (after sep tr c) past.
Proof. reflexivity. Qed.

Lemma acceptedTimes_cons (tr : Tracker.t) (c : Call) (past : list Call) :
  acceptedTimes sep tr (c :: past)
  = ((if call_now c - Tracker.lastActivityTime tr <? Tracker.debounceInterval
      then [] else [call_now c])
     ++ acceptedTimes sep (after sep tr c) past)%list.
Proof. reflexivity. Qed.

Lemma feed_lastActivityTime (past : list Call) (tr : Tracker.t) :
  (Tracker.lastActivityTime tr = 0 ∨ 2000 ≤ Tracker.lastActivityTime tr) →
  let times := acceptedTimes sep tr past in
  Tracker.lastActivityTime (feed sep tr past)
  = default (Tracker.lastActivityTime tr) (last times)
  ∧ Forall (fun t => 2000 ≤ t) times.
Proof.
  revert tr. induction past as [|c past IH]; intros tr Htr; [done|].
  cbv zeta. rewrite feed_cons, acceptedTimes_cons.
  destruct (Z.ltb_spec (call_now c - Tracker.lastActivityTime tr)
              Tracker.debounceInterval) as [Hlt|Hge].
  - rewrite after_debounced by done. by apply IH.
  - assert (Hlast := after_accepted tr c Hge).
    assert (2000 ≤ call_now c) as Hnow.
    { unfold Tracker.debounceInterval in Hge. lia. }
    destruct (IH (after sep tr c)) as [IH1 IH2].
    { right. by rewrite Hlast. }
    rewrite Hlast in IH1. split.
    + rewrite IH1, last_app.
      by destruct (last (acceptedTimes sep (after sep tr c) past)).
    + apply Forall_app. split; [by repeat constructor | done].
Qed.

(** C2. For every event accepted after any history of a new tracker, with
    an active editor, exactly one [ActivityLog] is enqueued, and its
    duration is 0 if the event is the first accepted one ever or the gap
    since the last accepted event is at least 300000 ms, and else is that
    gap, which then lies between 2000 ms and 300000 ms. *)
Theorem recorded_duration (past : list Call) (now : Z)
    (doc : Tracker.TextDocument) (git : option GitTracker.t) :
  let tr := feed sep Tracker.new past in
  let lastAccepted := last (acceptedTimes sep Tracker.new past) in
  let result := Tracker.handleActivity sep now (Some doc) git tr in
  result ≠ (tr, []) →
  ∃ log,
    Tracker.queue result.1 = (Tracker.queue tr ++ [log])%list
    ∧ (∀ log', QueuePush log' ∈ result.2 ↔ log' = log)
    ∧ al_duration log = specDuration lastAccepted now
    ∧ match lastAccepted with
      | None => al_duration log = 0
      | Some t =>
          2000 ≤ now - t
          ∧ (300000 ≤ now - t → al_duration log = 0)
          ∧ (now - t < 300000 → al_duration log = now - t)
      end.
Proof.
  intros tr lastAccepted result Hacc.
  assert (2000 ≤ now - Tracker.lastActivityTime tr) as Hgap.
  { destruct (Z.lt_ge_cases (now - Tracker.lastActivityTime tr) 2000) as [Hlt|]; [|done].
    destruct Hacc. by apply handleActivity_debounced. }
  destruct (handleActivity_accepted sep now (Some doc) git tr Hgap)
    as (_ & _ & _ & _ & log & Hq & Hin & Huniq & _ & _ & Hdur).
  destruct (feed_lastActivityTime past Tracker.new) as [Hlast Htimes]; [by left|].
  fold tr lastAccepted in Hlast. simpl in Hlast.
  exists log. split; [done|]. split; [|].
  { intros log'. split; [apply Huniq | by intros ->]. }
  rewrite Hdur. unfold specDuration, Tracker.maxIdleTime.
  destruct lastAccepted as [t|] eqn:Ht; simpl in Hlast; rewrite Hlast.
  - assert (2000 ≤ t) as Hpos.
    { rewrite Forall_forall in Htimes. apply Htimes.
      unfold lastAccepted in Ht. apply last_Some in Ht as [ts ->].
      apply elem_of_app. right. by apply list_elem_of_singleton. }
    rewrite Hlast in Hgap.
    replace (t =? 0) with false by (symmetry; apply Z.eqb_neq; lia). simpl.
    destruct (Z.ltb_spec (now - t) (5 * 60 * 1000)),
             (Z.leb_spec 300000 (now - t)); split_and!; (done || lia).
  - done.
Qed.

(** C9. A non-debounced event that arrives with no active editor enqueues
    nothing and has no effect at all, so it makes none of the project,
    commit and branch queries; yet [lastActivityTime] has been set to
    [now]. *)
Theorem no_editor_only_updates_lastActivityTime (now : Z)
    (git : option GitTracker.t) (tr : Tracker.t) :
  Tracker.debounceInterval ≤ now - Tracker.lastActivityTime tr →
  let result := Tracker.handleActivity sep now None git tr in
  Tracker.queue result.1 = Tracker.queue tr
  ∧ (∀ log, QueuePush log ∉ result.2)
  ∧ (∀ what fsPath, Resolve what fsPath ∉ result.2)
  ∧ result.2 = []
  ∧ Tracker.lastActivityTime result.1 = now
  ∧ Tracker.lastActivityTime result.1 ≠ Tracker.lastActivityTime tr.
Proof.
  intros Hgap.
  destruct (handleActivity_accepted sep now None git tr Hgap)
    as (Hlast & _ & _ & _ & Hq & Hes).
  simpl in *. rewrite Hes. split_and!; try done.
  - intros log. apply not_elem_of_nil.
  - intros what fsPath. apply not_elem_of_nil.
  - rewrite Hlast. unfold Tracker.debounceInterval in Hgap. lia.
Qed.

End HistoryFacts.

(** ** The effects of a sync cycle *)

Section TaskFacts.

Context {DB R : Type}.
Variable P : Effect → Prop.

Lemma Emits_ret {A : Type} (a : A) : Emits P (Tracker.ret (DB:=DB) (R:=R) a).
Proof. intros st. constructor. Qed.

Lemma Emits_bind {A B : Type} (m : Tracker.Task DB R A) (k : A → Tracker.Task DB R B) :
  Emits P m → (∀ a, Emits P (k a)) → Emits P (Tracker.bind m k).
Proof.
  intros Hm Hk st. unfold Tracker.bind. specialize (Hm st).
  destruct (m st) as [[st1 es1] [a|]]; simpl in *; [|done].
  specialize (Hk a st1). destruct (k a st1) as [[st2 es2] out]; simpl in *.
  by apply Forall_app.
Qed.

Lemma Emits_try_catch {A : Type} (m h : Tracker.Task DB R A) :
  Emits P m → Emits P h → Emits P (Tracker.try_catch m h).
Proof.
  intros Hm Hh st. unfold Tracker.try_catch. specialize (Hm st).
  destruct (m st) as [[st1 es1] [a|]]; simpl in *; [done|].
  specialize (Hh st1). destruct (h st1) as [[st2 es2] out]; simpl in *.
  by apply Forall_app.
Qed.

Lemma Emits_emit (e : Effect) : P e → Emits P (Tracker.emit (DB:=DB) (R:=R) e).
Proof. intros He st. by repeat constructor. Qed.

Lemma Emits_query {A : Type} (f : DB → Js.Outcome A) :
  Emits P (Tracker.query (R:=R) f).
Proof. intros st. constructor. Qed.

Lemma Emits_update (call : StoreCall) (f : DB → DB * Js.Outcome unit) :
  P (Store call) → Emits P (Tracker.update (R:=R) call f).
Proof.
  intros Hc st. unfold Tracker.update. destruct (f _); simpl. by repeat constructor.
Qed.

Lemma Emits_api (f : R → R * bool * list Effect) :
  (∀ r, Forall P (f r).2) → Emits P (Tracker.api (DB:=DB) f).
Proof.
  intros Hf st. unfold Tracker.api. specialize (Hf (Tracker.remote st)).
  by destruct (f _) as [[r' ok] es].
Qed.

Lemma Emits_if {A : Type} (b : bool) (m1 m2 : Tracker.Task DB R A) :
  Emits P m1 → Emits P m2 → Emits P (if b then m1 else m2).
Proof. by destruct b. Qed.

End TaskFacts.

(** ** Durations of the pushed logs *)

Section DurationFacts.

Context {DB R : Type} `{Database DB} `{Remote R}.
Variable sep : string.
Variable LocalTZA : Z → bool → Z.

Lemma plain_carries_ok (es : list Effect) : Forall plain es → Forall carries_ok es.
Proof.
  intros Hes. eapply Forall_impl; [exact Hes|].
  by intros []; try done; destruct call.
Qed.

Lemma send_plain (m : Mutation) (ok : list Effect) (failed : string) (r : R) :
  Forall plain ok → Forall plain (ApiClient.send m ok failed r).2.
Proof.
  intros Hok. unfold ApiClient.send. destruct (request r m) as [r' []]; simpl.
  - by constructor.
  - by repeat constructor.
Qed.

Lemma syncDailyStats_plain (l : list DailyActivitySummary) (r : R) :
  Forall plain (ApiClient.syncDailyStats l r).2.
Proof.
  unfold ApiClient.syncDailyStats. destruct l; [constructor|].
  apply send_plain. by repeat constructor.
Qed.

Lemma syncFileActivities_plain (l : list FileActivitySummary) (r : R) :
  Forall plain (ApiClient.syncFileActivities l r).2.
Proof.
  unfold ApiClient.syncFileActivities. destruct l; [constructor|].
  apply send_plain. by repeat constructor.
Qed.

Lemma syncCommits_plain (l : list GitCommit) (r : R) :
  Forall plain (ApiClient.syncCommits l r).2.
Proof.
  unfold ApiClient.syncCommits. destruct l; [constructor|].
  apply send_plain. by repeat constructor.
Qed.

Ltac emits :=
  repeat first
    [ apply Emits_ret | apply Emits_emit | apply Emits_query
    | apply Emits_update | apply Emits_if | apply Emits_try_catch
    | apply Emits_api; intros ?
    | apply Emits_bind; [|intros ?]
    | apply syncDailyStats_plain | apply syncFileActivities_plain
    | apply syncCommits_plain | done ].

Lemma syncDaily_plain now later : Emits plain (Tracker.syncDaily (DB:=DB) (R:=R) LocalTZA now later).
Proof. unfold Tracker.syncDaily. emits. Qed.

Lemma syncFiles_plain : Emits plain (Tracker.syncFiles (DB:=DB) (R:=R)).
Proof. unfold Tracker.syncFiles. emits. Qed.

Lemma syncGitCommits_plain : Emits plain (Tracker.syncGitCommits (DB:=DB) (R:=R)).
Proof. unfold Tracker.syncGitCommits. emits. Qed.

Lemma Emits_impl {A : Type} (P Q : Effect → Prop) (m : Tracker.Task DB R A) :
  (∀ e, P e → Q e) → Emits P m → Emits Q m.
Proof. intros HPQ Hm st. eapply Forall_impl; [apply Hm | done]. Qed.

(** The effects of a cycle: the insertion in the store of each log of its
    snapshot, and effects of the plain kind. *)
Lemma flush_emits (P : Effect → Prop) (logs : list ActivityLog) :
  Forall (fun log => P (Store (InsertActivity log))) logs →
  P (LogError "Failed to save activity to DB") →
  Emits P (Tracker.flush (DB:=DB) (R:=R) logs).
Proof.
  intros Hlogs Herr. induction Hlogs as [|log logs Hlog Hlogs IH]; simpl.
  - apply Emits_ret.
  - apply Emits_bind; [|done].
    apply Emits_try_catch; [by apply Emits_update | by apply Emits_emit].
Qed.

Lemma syncCycle_emits (P : Effect → Prop) (logs : list ActivityLog) now later :
  Forall (fun log => P (Store (InsertActivity log))) logs →
  (∀ e, plain e → P e) →
  Emits P (Tracker.syncCycle (DB:=DB) (R:=R) LocalTZA logs now later).
Proof.
  intros Hlogs Hplain. unfold Tracker.syncCycle.
  apply Emits_bind; [by apply flush_emits; [|apply Hplain]|]. intros _.
  apply (Emits_impl plain); [done|].
  apply Emits_try_catch; [|by apply Emits_emit].
  apply Emits_bind; [apply syncDaily_plain|]. intros _.
  apply Emits_bind; [apply syncFiles_plain|]. intros _.
  apply syncGitCommits_plain.
Qed.

Lemma syncCycle_carries_ok (logs : list ActivityLog) now later :
  Forall (fun log => DurationOk (al_duration log)) logs →
  Emits carries_ok (Tracker.syncCycle (DB:=DB) (R:=R) LocalTZA logs now later).
Proof.
  intros Hlogs. apply syncCycle_emits; [done|].
  by intros []; try done; destruct call.
Qed.

End DurationFacts.

Section WorldFacts.

Context {DB R : Type} `{Database DB} `{Remote R}.
Variable sep : string.
Variable LocalTZA : Z → bool → Z.

Abbreviation World := (Tracker.World (DB:=DB) (R:=R)).
Abbreviation step := (Tracker.step (DB:=DB) (R:=R) sep LocalTZA).
Abbreviation run := (Tracker.run (DB:=DB) (R:=R) sep LocalTZA).

Lemma handleActivity_carries_ok now editor git tr :
  logs_ok (Tracker.queue tr) →
  let result := Tracker.handleActivity sep now editor git tr in
  logs_ok (Tracker.queue result.1) ∧ Forall carries_ok result.2.
Proof.
  intros Hq. unfold Tracker.handleActivity.
  destruct (Z.ltb_spec (now - Tracker.lastActivityTime tr) Tracker.debounceInterval)
    as [Hlt|Hge]; [by split|].
  destruct editor as [doc|]; [|by split].
  set (duration := if _ && _ then _ else _).
  assert (DurationOk duration) as Hd.
  { unfold duration, DurationOk, Tracker.maxIdleTime, Tracker.debounceInterval in *.
    destruct (negb _); simpl; [|by left].
    destruct (Z.ltb_spec (now - Tracker.lastActivityTime tr) (5 * 60 * 1000));
      [right; lia | by left]. }
  unfold logs_ok in *. simpl. split.
  - apply Forall_app. split; [done|]. by apply Forall_singleton.
  - repeat (apply Forall_app; split);
      repeat match goal with
             | |- context [match ?g with Some _ => _ | None => _ end] => destruct g
             | |- context [if ?b then _ else _] => destruct b
             end;
      repeat first [apply Forall_nil_2 | apply Forall_cons_2]; done.
Qed.

Lemma handleActivity_frame now editor git tr :
  let tr' := (Tracker.handleActivity sep now editor git tr).1 in
  Tracker.isTracking tr' = Tracker.isTracking tr
  ∧ Tracker.syncTimer tr' = Tracker.syncTimer tr
  ∧ Tracker.disposable tr' = Tracker.disposable tr.
Proof.
  unfold Tracker.handleActivity.
  destruct (_ <? _); [done|]. by destruct editor.
Qed.

Lemma notify_carries_ok e now editor git subs (acc : Tracker.t * list Effect) :
  logs_ok (Tracker.queue acc.1) → Forall carries_ok acc.2 →
  let result := fold_left (Tracker.notify sep e now editor git) subs acc in
  logs_ok (Tracker.queue result.1) ∧ Forall carries_ok result.2
  ∧ Tracker.isTracking result.1 = Tracker.isTracking acc.1
  ∧ Tracker.syncTimer result.1 = Tracker.syncTimer acc.1
  ∧ Tracker.disposable result.1 = Tracker.disposable acc.1.
Proof.
  revert acc. induction subs as [|s subs IH]; intros [tr es] Hq Hes; simpl in *;
    [done|].
  unfold Tracker.notify at 2 4 6 8 10.
  destruct (bool_decide (s.2 = e)); [|exact (IH (tr, es) Hq Hes)].
  simpl.
  destruct (handleActivity_carries_ok now editor git tr Hq) as [Hq' Hes'].
  destruct (handleActivity_frame now editor git tr) as (Ht & Hs & Hd).
  destruct (Tracker.handleActivity sep now editor git tr) as [tr' es'] eqn:Heq.
  simpl in *. rewrite <- Ht, <- Hs, <- Hd.
  apply (IH (tr', (es ++ es')%list)); [done|]. by apply Forall_app.
Qed.

Lemma deliver_carries_ok e now editor (w : World) :
  logs_ok (Tracker.queue (Tracker.tracker w)) →
  let result := Tracker.deliver sep e now editor w in
  logs_ok (Tracker.queue result.1) ∧ Forall carries_ok result.2
  ∧ Tracker.isTracking result.1 = Tracker.isTracking (Tracker.tracker w)
  ∧ Tracker.syncTimer result.1 = Tracker.syncTimer (Tracker.tracker w)
  ∧ Tracker.disposable result.1 = Tracker.disposable (Tracker.tracker w).
Proof.
  intros Hq. unfold Tracker.deliver.
  by apply (notify_carries_ok e now editor _ _ (Tracker.tracker w, [])).
Qed.

Lemma git_only_plain (es : list Effect) : Forall git_only es → Forall plain es.
Proof.
  intros Hes. eapply Forall_impl; [exact Hes|].
  by intros []; try done; destruct call.
Qed.

Lemma getCommitDetails_git_only git root hash :
  Forall git_only (GitTracker.getCommitDetails git root hash).2.
Proof.
  unfold GitTracker.getCommitDetails.
  repeat match goal with
         | |- context [match ?x with Js.Returned _ => _ | Js.Thrown => _ end] =>
             destruct x
         | |- context [let '(_, _) := ?x in _] => destruct x
         end; simpl; by repeat constructor.
Qed.

Lemma trackCommitChange_git_only git root g (d : DB) :
  Forall git_only (GitTracker.effects (GitTracker.trackCommitChange git root g d)).
Proof.
  unfold GitTracker.trackCommitChange.
  destruct (GitTracker.getCurrentCommit git root) as [c|]; [|constructor].
  destruct (negb _); [constructor|].
  destruct (decide _); [constructor|].
  assert (Hp := getCommitDetails_git_only git root c).
  destruct (GitTracker.getCommitDetails git root c) as [[details|] errs]; simpl in *.
  - destruct (insertCommit _ _) as [db' []]; simpl;
      (constructor; [done|]); apply Forall_app; split; try done;
      by repeat constructor.
  - by constructor.
Qed.

Lemma initializeRoot_git_only git (acc : GitTracker.Result (DB:=DB)) root :
  Forall git_only (GitTracker.effects acc) →
  Forall git_only (GitTracker.effects (GitTracker.initializeRoot git acc root)).
Proof.
  intros Hacc. unfold GitTracker.initializeRoot.
  destruct (GitTracker.settled acc); [|done].
  destruct (GitTracker.getCurrentCommit git root) as [c|]; [|done].
  destruct (negb _); [done|].
  assert (Hp := getCommitDetails_git_only git root c).
  destruct (GitTracker.getCommitDetails git root c) as [[details|] errs]; simpl in *.
  - destruct (insertCommit _ _) as [db' out]; simpl.
    repeat (apply Forall_app; split); try done. by repeat constructor.
  - by apply Forall_app.
Qed.

Lemma fold_initializeRoot_git_only git roots (acc : GitTracker.Result (DB:=DB)) :
  Forall git_only (GitTracker.effects acc) →
  Forall git_only (GitTracker.effects (fold_left (GitTracker.initializeRoot git) roots acc)).
Proof.
  revert acc. induction roots as [|root roots IH]; intros acc Hacc; simpl; [done|].
  apply IH. by apply initializeRoot_git_only.
Qed.

Lemma initializeAllRoots_git_only git roots g (d : DB) :
  Forall git_only (GitTracker.effects (GitTracker.initializeAllRoots git roots g d)).
Proof.
  unfold GitTracker.initializeAllRoots. apply fold_initializeRoot_git_only.
  simpl. by apply Forall_singleton.
Qed.

Lemma syncLoopEnter_held (tr : Tracker.t) (cycles : list (list ActivityLog)) :
  logs_ok (Tracker.queue tr) → Forall logs_ok cycles →
  logs_ok (Tracker.queue (Tracker.syncLoopEnter tr).1)
  ∧ Forall logs_ok (Tracker.suspend (Tracker.syncLoopEnter tr).2 cycles).
Proof.
  intros Hq Hc. unfold Tracker.syncLoopEnter.
  destruct (negb _); [done|].
  destruct (0 <? _)%nat; simpl; (split; [done || constructor|]);
    apply Forall_app; split; try done; by repeat constructor.
Qed.

Lemma step_held (w : World) (ev : Tracker.Event) :
  held_ok w → held_ok (step w ev).1 ∧ Forall carries_ok (step w ev).2.
Proof.
  intros [Hq Hc]. destruct ev as [| |e now editor|id|i now later|git roots|git root];
    simpl.
  - unfold Tracker.startTracking. destruct (Tracker.isTracking _); [by repeat split|].
    simpl.
    match goal with |- context [Tracker.syncLoopEnter ?t] =>
      destruct (syncLoopEnter_held t (Tracker.inflight w) Hq Hc) as [Hq' Hc'];
      destruct (Tracker.syncLoopEnter t) as [tr2 cycle] end.
    simpl in *. split; [by split|]. by repeat constructor.
  - unfold Tracker.stopTracking. destruct (negb _); [by repeat split|].
    simpl. split; [by split|]. by repeat constructor.
  - destruct (deliver_carries_ok e now editor w Hq) as (Hq' & Hes & _).
    destruct (Tracker.deliver sep e now editor w) as [tr es]. by repeat split.
  - destruct (bool_decide _); [|by repeat split].
    destruct (syncLoopEnter_held (Tracker.tracker w) (Tracker.inflight w) Hq Hc)
      as [Hq' Hc'].
    destruct (Tracker.syncLoopEnter (Tracker.tracker w)) as [tr cycle].
    by repeat split.
  - destruct (Tracker.inflight w !! i) as [logs|] eqn:Hi; [|by repeat split].
    assert (logs_ok logs) as Hlogs.
    { rewrite Forall_lookup in Hc. by apply (Hc i). }
    assert (Hes := syncCycle_carries_ok LocalTZA logs now later Hlogs (Tracker.stores w)).
    destruct (Tracker.syncCycle LocalTZA logs now later (Tracker.stores w))
      as [[st es] out]. simpl in *.
    split; [split|]; try done. by apply Forall_delete.
  - destruct (Tracker.gitTracker w) as [g|]; [|by repeat split].
    simpl. split; [by split|].
    apply plain_carries_ok, git_only_plain, initializeAllRoots_git_only.
  - destruct (Tracker.gitTracker w) as [g|]; [|by repeat split].
    destruct (bool_decide _); [|by repeat split].
    simpl. split; [by split|].
    apply plain_carries_ok, git_only_plain, trackCommitChange_git_only.
Qed.

Lemma run_held (evs : list Tracker.Event) (w : World) :
  held_ok w → held_ok (run w evs).1 ∧ Forall carries_ok (run w evs).2.
Proof.
  revert w. induction evs as [|ev evs IH]; intros w Hw; simpl.
  - by split.
  - destruct (step_held w ev Hw) as [Hw1 Hes1].
    destruct (step w ev) as [w1 es1]. simpl in *.
    destruct (IH w1 Hw1) as [Hw2 Hes2].
    destruct (run w1 evs) as [w2 es2]. simpl in *.
    split; [done|]. by apply Forall_app.
Qed.

(** C10. Whatever happens to the extension from its start, every
    [ActivityLog] ever pushed onto the pending queue has a duration that is
    0 or lies in [2000, 300000): this holds of every push made during the
    run, of the logs in the queue, of those taken by a sync cycle, and of
    every log ever handed to the store. *)
Theorem pushed_durations_in_range (evs : list Tracker.Event)
    (g : option GitTracker.t) (st : Tracker.Stores DB R) :
  let w := (run (Tracker.newWorld g st) evs).1 in
  let es := (run (Tracker.newWorld g st) evs).2 in
  (∀ log, QueuePush log ∈ es →
          al_duration log = 0 ∨ 2000 ≤ al_duration log < 300000)
  ∧ (∀ log, log ∈ Tracker.queue (Tracker.tracker w) →
            al_duration log = 0 ∨ 2000 ≤ al_duration log < 300000)
  ∧ (∀ logs log, logs ∈ Tracker.inflight w → log ∈ logs →
                 al_duration log = 0 ∨ 2000 ≤ al_duration log < 300000)
  ∧ (∀ log, Store (InsertActivity log) ∈ es →
            al_duration log = 0 ∨ 2000 ≤ al_duration log < 300000).
Proof.
  destruct (run_held evs (Tracker.newWorld g st)) as [[Hq Hc] Hes].
  { split; constructor. }
  simpl. rewrite Forall_forall in Hes. unfold logs_ok in *.
  rewrite Forall_forall in Hq. split_and!.
  - intros log Hin. apply (Hes _ Hin).
  - done.
  - intros logs log Hlogs Hlog. rewrite Forall_forall in Hc.
    specialize (Hc _ Hlogs). rewrite Forall_forall in Hc. by apply Hc.
  - intros log Hin. apply (Hes _ Hin).
Qed.

End WorldFacts.

(** ** Stopping the tracker *)

Section StopFacts.

Context {DB R : Type} `{Database DB} `{Remote R}.
Variable sep : string.
Variable LocalTZA : Z → bool → Z.

Abbreviation World' := (Tracker.World (DB:=DB) (R:=R)).
Abbreviation step' := (Tracker.step (DB:=DB) (R:=R) sep LocalTZA).
Abbreviation run' := (Tracker.run (DB:=DB) (R:=R) sep LocalTZA).

Lemma git_only_idle (es : list Effect) : Forall git_only es → Forall idle es.
Proof.
  intros Hes. eapply Forall_impl; [exact Hes|].
  by intros []; try done; destruct call.
Qed.

Lemma syncLoopEnter_frame (tr : Tracker.t) :
  Tracker.isTracking (Tracker.syncLoopEnter tr).1 = Tracker.isTracking tr
  ∧ Tracker.disposable (Tracker.syncLoopEnter tr).1 = Tracker.disposable tr
  ∧ Tracker.syncTimer (Tracker.syncLoopEnter tr).1 = Tracker.syncTimer tr
  ∧ Tracker.lastActivityTime (Tracker.syncLoopEnter tr).1 = Tracker.lastActivityTime tr.
Proof.
  unfold Tracker.syncLoopEnter. destruct (negb _); [done|]. by destruct (0 <? _)%nat.
Qed.

Lemma syncLoopEnter_stopped (tr : Tracker.t) :
  Tracker.isTracking tr = false → Tracker.syncLoopEnter tr = (tr, None).
Proof. intros Hs. unfold Tracker.syncLoopEnter. by rewrite Hs. Qed.

Lemma dispose_owned (handles : list nat) (h : Tracker.Host) :
  (∀ s, s ∈ Tracker.subscriptions h → s.1 ∈ handles) →
  Tracker.subscriptions (Tracker.dispose handles h) = [].
Proof.
  intros Hall. unfold Tracker.dispose. simpl.
  induction (Tracker.subscriptions h) as [|s subs IH]; simpl; [done|].
  rewrite bool_decide_eq_true_2 by (apply Hall; by left). simpl.
  apply IH. intros s' Hs'. apply Hall. by right.
Qed.

Lemma notify_frame e now editor git subs (acc : Tracker.t * list Effect) :
  let result := fold_left (Tracker.notify sep e now editor git) subs acc in
  Tracker.isTracking result.1 = Tracker.isTracking acc.1
  ∧ Tracker.syncTimer result.1 = Tracker.syncTimer acc.1
  ∧ Tracker.disposable result.1 = Tracker.disposable acc.1.
Proof.
  revert acc. induction subs as [|s subs IH]; intros [tr es]; simpl in *; [done|].
  unfold Tracker.notify at 2 4 6.
  destruct (bool_decide (s.2 = e)); [|exact (IH (tr, es))].
  simpl. destruct (handleActivity_frame sep now editor git tr) as (Ht & Hs & Hd).
  destruct (Tracker.handleActivity sep now editor git tr) as [tr' es'] eqn:Heq.
  simpl in *. rewrite <- Ht, <- Hs, <- Hd. apply (IH (tr', (es ++ es')%list)).
Qed.

Lemma step_same_subscriptions (w : World') (ev : Tracker.Event) :
  ev ≠ Tracker.Start → ev ≠ Tracker.Stop → same_subscriptions w (step' w ev).1.
Proof.
  intros Hstart Hstop. unfold same_subscriptions.
  destruct ev as [| |e now editor|id|i now later|git roots|git root]; simpl;
    try done.
  - unfold Tracker.deliver.
    destruct (notify_frame e now editor (Tracker.gitTracker w)
                (Tracker.subscriptions (Tracker.host w)) (Tracker.tracker w, []))
      as (Hi & _ & Hd).
    by destruct (fold_left _ _ _).
  - destruct (bool_decide _); [|done].
    destruct (syncLoopEnter_frame (Tracker.tracker w)) as (Hi & Hd & _).
    by destruct (Tracker.syncLoopEnter (Tracker.tracker w)).
  - destruct (Tracker.inflight w !! i); [|done].
    by destruct (Tracker.syncCycle _ _ _ _ _) as [[st es] out].
  - by destruct (Tracker.gitTracker w).
  - destruct (Tracker.gitTracker w); [|done]. by destruct (bool_decide _).
Qed.

Lemma step_keeps_subscriptions (w : World') (ev : Tracker.Event) :
  ev ≠ Tracker.Start → ev ≠ Tracker.Stop →
  subs_owned w → subs_owned (step' w ev).1.
Proof.
  intros Hstart Hstop Hw.
  destruct (step_same_subscriptions w ev Hstart Hstop) as (Hs & Hi & Hd).
  intros s. rewrite Hs, Hi, Hd. apply Hw.
Qed.

Lemma step_subs_owned (w : World') (ev : Tracker.Event) :
  subs_owned w → subs_owned (step' w ev).1.
Proof.
  intros Hw.
  destruct ev as [| |e now editor|id|i now later|git roots|git root]; simpl.
  - unfold Tracker.startTracking.
    destruct (Tracker.isTracking (Tracker.tracker w)) eqn:Htr; [done|].
    assert (Tracker.subscriptions (Tracker.host w) = []) as Hnone.
    { destruct (Tracker.subscriptions (Tracker.host w)) as [|s subs] eqn:Hs; [done|].
      destruct (Hw s) as [Ht _]; [rewrite Hs; by left | congruence]. }
    simpl.
    match goal with |- context [Tracker.syncLoopEnter ?t] =>
      destruct (syncLoopEnter_frame t) as (Hi & Hd & _);
      destruct (Tracker.syncLoopEnter t) as [tr2 cycle] end.
    simpl in *. intros s Hs. simpl in Hs. rewrite Hnone in Hs. simpl in Hs.
    split; [done|]. eexists. split; [done|].
    rewrite !elem_of_cons, elem_of_nil in Hs. rewrite !elem_of_cons.
    destruct Hs as [->| [->| [->|[]]]]; simpl; auto.
  - unfold Tracker.stopTracking.
    destruct (Tracker.isTracking (Tracker.tracker w)) eqn:Htr; [|done].
    simpl. intros s Hs. simpl in Hs. exfalso.
    assert (s ∈ Tracker.subscriptions
                  (match Tracker.disposable (Tracker.tracker w) with
                   | Some handles => Tracker.dispose handles (Tracker.host w)
                   | None => Tracker.host w
                   end)) as Hs'.
    { by destruct (Tracker.syncTimer (Tracker.tracker w)). }
    clear Hs. destruct (Tracker.disposable (Tracker.tracker w)) as [handles|] eqn:Hd.
    + rewrite dispose_owned in Hs'; [by apply elem_of_nil in Hs'|].
      intros s' Hin. destruct (Hw s' Hin) as (_ & hs & Hhs & Hin'). congruence.
    + destruct (Hw s Hs') as (_ & hs & Hhs & _). congruence.
  - by apply (step_keeps_subscriptions w (Tracker.Fire e now editor)).
  - by apply (step_keeps_subscriptions w (Tracker.Timeout id)).
  - by apply (step_keeps_subscriptions w (Tracker.Complete i now later)).
  - by apply (step_keeps_subscriptions w (Tracker.Discover git roots)).
  - by apply (step_keeps_subscriptions w (Tracker.HeadChanged git root)).
Qed.

Lemma run_subs_owned (evs : list Tracker.Event) (w : World') :
  subs_owned w → subs_owned (run' w evs).1.
Proof.
  revert w. induction evs as [|ev evs IH]; intros w Hw; simpl; [done|].
  assert (Hw1 := step_subs_owned w ev Hw).
  destruct (step' w ev) as [w1 es1]. simpl in *.
  specialize (IH w1 Hw1). by destruct (run' w1 evs).
Qed.

Lemma not_tracking_no_subscriptions (w : World') :
  subs_owned w → Tracker.isTracking (Tracker.tracker w) = false →
  Tracker.subscriptions (Tracker.host w) = [].
Proof.
  intros Hw Hoff.
  destruct (Tracker.subscriptions (Tracker.host w)) as [|s subs] eqn:Hs; [done|].
  destruct (Hw s) as [Ht _]; [rewrite Hs; by left | congruence].
Qed.

Lemma stop_stops (w : World') : subs_owned w → Stopped (step' w Tracker.Stop).1.
Proof.
  intros Hw. assert (Hw' := step_subs_owned w Tracker.Stop Hw).
  assert (Tracker.isTracking (Tracker.tracker (step' w Tracker.Stop).1) = false) as Hoff.
  { simpl. unfold Tracker.stopTracking.
    by destruct (Tracker.isTracking (Tracker.tracker w)) eqn:Htr. }
  split; [done|]. by apply not_tracking_no_subscriptions.
Qed.

Lemma clearTimeout_not_armed (id : nat) (h : Tracker.Host) :
  id ∉ Tracker.timers (Tracker.clearTimeout id h).
Proof.
  unfold Tracker.clearTimeout. simpl. intros Hin.
  apply list_elem_of_In, filter_In in Hin as [_ Hne].
  by rewrite Nat.eqb_refl in Hne.
Qed.

Lemma clearTimeout_length (id : nat) (h : Tracker.Host) :
  (length (Tracker.timers (Tracker.clearTimeout id h)) ≤ length (Tracker.timers h))%nat.
Proof. unfold Tracker.clearTimeout. simpl. apply List.filter_length_le. Qed.

Lemma stop_clears_timer (w : World') (id : nat) :
  Tracker.isTracking (Tracker.tracker w) = true →
  Tracker.syncTimer (Tracker.tracker w) = Some id →
  id ∉ Tracker.timers (Tracker.host (step' w Tracker.Stop).1).
Proof.
  intros Hon Hid. simpl. unfold Tracker.stopTracking. rewrite Hon, Hid. simpl.
  apply clearTimeout_not_armed.
Qed.

Lemma filter_out_only (id : nat) (l : list nat) :
  (∀ j, j ∈ l → j = id) → List.filter (fun i => negb (i =? id)%nat) l = [].
Proof.
  induction l as [|i l IH]; intros Hall; simpl; [done|].
  rewrite (Hall i) by (by left). rewrite Nat.eqb_refl. simpl.
  apply IH. intros j Hj. apply Hall. by right.
Qed.

(** When every armed timeout is the one held in [syncTimer], stopping
    leaves none armed. *)
Lemma stop_clears_all (w : World') :
  Tracker.isTracking (Tracker.tracker w) = true →
  (∀ id, id ∈ Tracker.timers (Tracker.host w) →
         Tracker.syncTimer (Tracker.tracker w) = Some id) →
  Tracker.timers (Tracker.host (step' w Tracker.Stop).1) = [].
Proof.
  intros Hon Hall. simpl. unfold Tracker.stopTracking. rewrite Hon. simpl.
  assert (Tracker.timers
            (match Tracker.disposable (Tracker.tracker w) with
             | Some handles => Tracker.dispose handles (Tracker.host w)
             | None => Tracker.host w
             end) = Tracker.timers (Tracker.host w)) as Hsame.
  { by destruct (Tracker.disposable (Tracker.tracker w)). }
  destruct (Tracker.syncTimer (Tracker.tracker w)) as [id|] eqn:Hid.
  - unfold Tracker.clearTimeout. simpl. rewrite Hsame.
    apply filter_out_only. intros j Hj. specialize (Hall j Hj). congruence.
  - rewrite Hsame.
    destruct (Tracker.timers (Tracker.host w)) as [|i l]; [done|].
    specialize (Hall i). by discriminate Hall; left.
Qed.

Lemma idle_not_push (es : list Effect) : Forall idle es → Forall not_push es.
Proof. intros Hes. eapply Forall_impl; [exact Hes|]. by intros []. Qed.

(** What an event other than [startTracking] does to a stopped tracker. *)
Lemma stopped_step (w : World') (ev : Tracker.Event) :
  Stopped w → ev ≠ Tracker.Start →
  let w' := (step' w ev).1 in
  Stopped w'
  ∧ Tracker.queue (Tracker.tracker w') = Tracker.queue (Tracker.tracker w)
  ∧ Tracker.lastActivityTime (Tracker.tracker w')
    = Tracker.lastActivityTime (Tracker.tracker w)
  ∧ Forall not_push (step' w ev).2
  ∧ (length (Tracker.inflight w') ≤ length (Tracker.inflight w))%nat
  ∧ (pending w' ≤ pending w)%nat
  ∧ (Tracker.inflight w = [] →
     Tracker.inflight w' = []
     ∧ (length (Tracker.timers (Tracker.host w'))
        ≤ length (Tracker.timers (Tracker.host w)))%nat
     ∧ Forall idle (step' w ev).2).
Proof.
  intros [Hoff Hsubs] Hstart. unfold pending, Stopped.
  assert (∀ w0 : World', w0 = w →
    (Tracker.isTracking (Tracker.tracker w0) = false
     ∧ Tracker.subscriptions (Tracker.host w0) = [])
    ∧ Tracker.queue (Tracker.tracker w0) = Tracker.queue (Tracker.tracker w)
    ∧ Tracker.lastActivityTime (Tracker.tracker w0)
      = Tracker.lastActivityTime (Tracker.tracker w)
    ∧ Forall not_push []
    ∧ (length (Tracker.inflight w0) ≤ length (Tracker.inflight w))%nat
    ∧ (length (Tracker.timers (Tracker.host w0)) + length (Tracker.inflight w0)
       ≤ length (Tracker.timers (Tracker.host w)) + length (Tracker.inflight w))%nat
    ∧ (Tracker.inflight w = [] →
       Tracker.inflight w0 = []
       ∧ (length (Tracker.timers (Tracker.host w0))
          ≤ length (Tracker.timers (Tracker.host w)))%nat
       ∧ Forall idle [])) as Hsame.
  { intros w0 ->. split_and!; try done; try constructor.
    all: intros Hnil; split_and!; try done; constructor. }
  destruct ev as [| |e now editor|id|i now later|git roots|git root]; simpl;
    try done.
  - unfold Tracker.stopTracking. rewrite Hoff. simpl. by apply Hsame.
  - unfold Tracker.deliver. rewrite Hsubs. simpl. apply Hsame. by destruct w.
  - destruct (bool_decide _); [|by apply Hsame].
    rewrite (syncLoopEnter_stopped _ Hoff). simpl.
    assert (Hlen := clearTimeout_length id (Tracker.host w)).
    unfold Tracker.clearTimeout in Hlen. simpl in Hlen.
    split_and!; try done; try lia; try (by constructor).
    all: intros Hnil; split_and!; try done; constructor.
  - destruct (Tracker.inflight w !! i) as [logs|] eqn:Hi; [|by apply Hsame].
    assert (Hes := syncCycle_emits LocalTZA not_push logs now later).
    specialize (Hes (Forall_true _ _ (fun _ => I)) (fun e _ => ltac:(by destruct e))
                    (Tracker.stores w)).
    destruct (Tracker.syncCycle LocalTZA logs now later (Tracker.stores w))
      as [[st es] out]. simpl in *.
    assert (length (delete i (Tracker.inflight w))
            = (length (Tracker.inflight w) - 1)%nat) as Hdel.
    { apply length_delete. by eexists. }
    assert (0 < length (Tracker.inflight w))%nat as Hpos.
    { apply lookup_lt_Some in Hi. lia. }
    rewrite Hdel, length_app. simpl.
    split_and!; try done; try lia.
    all: intros Hnil; by rewrite Hnil in Hi.
  - destruct (Tracker.gitTracker w) as [g|]; [|by apply Hsame].
    simpl. assert (Hg := initializeAllRoots_git_only git roots g
                           (Tracker.db (Tracker.stores w))).
    split_and!; try done.
    all: try (by apply idle_not_push, git_only_idle).
    all: intros Hnil; split_and!; try done; by apply git_only_idle.
  - destruct (Tracker.gitTracker w) as [g|]; [|by apply Hsame].
    destruct (bool_decide _); [|by apply Hsame].
    simpl. assert (Hg := trackCommitChange_git_only git root g
                           (Tracker.db (Tracker.stores w))).
    split_and!; try done.
    all: try (by apply idle_not_push, git_only_idle).
    all: intros Hnil; split_and!; try done; by apply git_only_idle.
Qed.

Lemma stopped_run (evs : list Tracker.Event) (w : World') :
  Stopped w → Tracker.Start ∉ evs →
  let w' := (run' w evs).1 in
  Stopped w'
  ∧ Tracker.queue (Tracker.tracker w') = Tracker.queue (Tracker.tracker w)
  ∧ Tracker.lastActivityTime (Tracker.tracker w')
    = Tracker.lastActivityTime (Tracker.tracker w)
  ∧ Forall not_push (run' w evs).2
  ∧ (length (Tracker.inflight w') ≤ length (Tracker.inflight w))%nat
  ∧ (pending w' ≤ pending w)%nat
  ∧ (Tracker.inflight w = [] →
     Tracker.inflight w' = []
     ∧ (length (Tracker.timers (Tracker.host w'))
        ≤ length (Tracker.timers (Tracker.host w)))%nat
     ∧ Forall idle (run' w evs).2).
Proof.
  revert w. induction evs as [|ev evs IH]; intros w Hw Hno; simpl.
  - split_and!; try done; try constructor.
    all: intros Hnil; split_and!; try done; constructor.
  - apply not_elem_of_cons in Hno as [Hev Hno].
    destruct (stopped_step w ev Hw) as (Hw1 & Hq1 & Hl1 & Hp1 & Hi1 & Hn1 & Hc1);
      [done|].
    destruct (step' w ev) as [w1 es1]. simpl in *.
    destruct (IH w1 Hw1 Hno) as (Hw2 & Hq2 & Hl2 & Hp2 & Hi2 & Hn2 & Hc2).
    destruct (run' w1 evs) as [w2 es2]. simpl in *.
    split_and!; try done; try congruence; try lia.
    + by apply Forall_app.
    + intros Hnil. destruct (Hc1 Hnil) as (Hnil1 & Ht1 & He1).
      destruct (Hc2 Hnil1) as (Hnil2 & Ht2 & He2).
      split_and!; [done | lia | by apply Forall_app].
Qed.

(** C8 as the code has it. After [stopTracking], and until the next
    [startTracking]: the tracker is off and the host holds none of its
    subscriptions, so no event reaches [handleActivity] (the queue and
    [lastActivityTime] stay as they are and nothing is pushed); the timeout
    held in [syncTimer] is no longer armed; no sync cycle begins any more
    (the suspended cycles only get fewer, and so do the armed timeouts and
    suspended cycles taken together). When no cycle was suspended at the
    moment of stopping, none ever is afterwards, and no work of the sync
    loop is done; if moreover the armed timeouts were just the one held in
    [syncTimer], none is armed afterwards. Nothing is said of the
    timeouts armed by a cycle that was suspended at the moment of stopping. *)
Theorem stop_quiesces (before after : list Tracker.Event)
    (g : option GitTracker.t) (st : Tracker.Stores DB R) :
  let w0 := (run' (Tracker.newWorld g st) before).1 in
  let w1 := (step' w0 Tracker.Stop).1 in
  let w2 := (run' w1 after).1 in
  let es := (run' w1 after).2 in
  Tracker.Start ∉ after →
  (Tracker.isTracking (Tracker.tracker w2) = false
   ∧ Tracker.subscriptions (Tracker.host w2) = [])
  ∧ (Tracker.queue (Tracker.tracker w2) = Tracker.queue (Tracker.tracker w1)
     ∧ Tracker.lastActivityTime (Tracker.tracker w2)
       = Tracker.lastActivityTime (Tracker.tracker w1)
     ∧ ∀ log, QueuePush log ∉ es)
  ∧ (∀ id, Tracker.isTracking (Tracker.tracker w0) = true →
           Tracker.syncTimer (Tracker.tracker w0) = Some id →
           id ∉ Tracker.timers (Tracker.host w1))
  ∧ ((length (Tracker.inflight w2) ≤ length (Tracker.inflight w0))%nat
     ∧ (pending w2 ≤ pending w1)%nat)
  ∧ (Tracker.inflight w0 = [] →
     Tracker.inflight w2 = []
     ∧ (length (Tracker.timers (Tracker.host w2))
        ≤ length (Tracker.timers (Tracker.host w1)))%nat
     ∧ Forall idle es
     ∧ (Tracker.isTracking (Tracker.tracker w0) = true →
        (∀ id, id ∈ Tracker.timers (Tracker.host w0) →
               Tracker.syncTimer (Tracker.tracker w0) = Some id) →
        Tracker.timers (Tracker.host w2) = [])).
Proof.
  intros w0 w1 w2 es Hno.
  assert (subs_owned w0) as Hw0.
  { apply run_subs_owned. intros s Hs. by apply elem_of_nil in Hs. }
  assert (Stopped w1) as Hw1 by (by apply stop_stops).
  assert (Tracker.inflight w1 = Tracker.inflight w0) as Hsame.
  { unfold w1. simpl. by destruct (Tracker.stopTracking _ _) as [[tr h] es']. }
  destruct (stopped_run after w1 Hw1 Hno) as (Hw2 & Hq & Hl & Hp & Hi & Hn & Hc).
  fold w2 es in Hw2, Hq, Hl, Hp, Hi, Hn, Hc. destruct Hw2 as [Hoff2 Hsubs2].
  split_and!; try done.
  - intros log Hin. rewrite Forall_forall in Hp. apply (Hp _ Hin).
  - intros id Hon Hid. by apply stop_clears_timer.
  - by rewrite <- Hsame.
  - intros Hnil. rewrite <- Hsame in Hnil. destruct (Hc Hnil) as (Hnil2 & Ht & He).
    split_and!; try done. intros Hon Hall.
    assert (Tracker.timers (Tracker.host w1) = []) as Hnone
      by (by apply stop_clears_all).
    rewrite Hnone in Ht. simpl in Ht.
    destruct (Tracker.timers (Tracker.host w2)); [done | simpl in Ht; lia].
Qed.

End StopFacts.

(** ** GitTracker: failures of the version-control commands *)

Section CommitFacts.

Context {DB : Type} `{Database DB}.

Lemma getCommitDetails_null (git : GitTracker.Git) (root hash : string) :
  DetailsQueryFails git root hash ↔
  GitTracker.getCommitDetails git root hash
  = (None, [LogError "Failed reading commit details"]).
Proof.
  unfold DetailsQueryFails, GitTracker.getCommitDetails.
  destruct (GitTracker.logFormat git root GitTracker.Subject hash) as [msg|],
           (GitTracker.logFormat git root GitTracker.AuthorName hash) as [name|],
           (GitTracker.logFormat git root GitTracker.AuthorEmail hash) as [email|],
           (GitTracker.logFormat git root GitTracker.AuthorTime hash) as [time|],
           (GitTracker.showStat git root hash) as [diffStats|];
    try destruct (GitTracker.parseDiffStats _);
    (split; [intros Hf; repeat destruct Hf as [Hf|Hf]; done | intros Hn; try done; tauto]).
Qed.

Lemma trackCommitChange_head_fails git root g (db : DB) :
  GitTracker.revParseHead git root = Js.Thrown → NoOp git root g db.
Proof.
  intros Hf. unfold NoOp, GitTracker.trackCommitChange, GitTracker.getCurrentCommit.
  by rewrite Hf.
Qed.

Lemma trackCommitChange_same_head git root g (db : DB) newCommit :
  GitTracker.getCurrentCommit git root = Some newCommit →
  GitTracker.currentCommit g !! root = Some newCommit →
  NoOp git root g db.
Proof.
  intros Hc Hold. unfold NoOp, GitTracker.trackCommitChange. rewrite Hc.
  destruct (negb _); [done|]. by rewrite decide_True.
Qed.

(** C3 as the code has it. A failure of the [HEAD] query is swallowed: no
    row is persisted and the cached commit and branch of the root are
    unchanged, so the next trigger tries again. A failure of a
    commit-details query on a changed [HEAD] is swallowed too and no row is
    persisted, but the cached commit of the root is advanced to the new
    [HEAD] all the same (and the branch cached, when the branch query gave
    one), so that the next trigger on this [HEAD] is a no-op. A failure of
    the branch query alone is swallowed as well: the row is persisted,
    without a branch, the cached branch is unchanged and the cached commit
    advanced. *)
Theorem trackCommitChange_failures (git : GitTracker.Git) (root : string)
    (g : GitTracker.t) (db : DB) :
  let res := GitTracker.trackCommitChange git root g db in
  (GitTracker.revParseHead git root = Js.Thrown →
   res = GitTracker.mkResult g db [] (Js.Returned tt))
  ∧ (∀ newCommit,
       GitTracker.getCurrentCommit git root = Some newCommit →
       newCommit ≠ "" →
       GitTracker.currentCommit g !! root ≠ Some newCommit →
       DetailsQueryFails git root newCommit →
       GitTracker.settled res = Js.Returned tt
       ∧ GitTracker.store res = db
       ∧ (∀ call, Store call ∉ GitTracker.effects res)
       ∧ GitTracker.currentCommit (GitTracker.tracker res)
         = <[root := newCommit]> (GitTracker.currentCommit g)
       ∧ GitTracker.currentCommit (GitTracker.tracker res) !! root = Some newCommit
       ∧ GitTracker.currentBranch (GitTracker.tracker res)
         = match GitTracker.getBranch git root with
           | Some b => if Js.truthy (Some b)
                       then <[root := b]> (GitTracker.currentBranch g)
                       else GitTracker.currentBranch g
           | None => GitTracker.currentBranch g
           end
       ∧ NoOp git root (GitTracker.tracker res) (GitTracker.store res))
  ∧ (∀ newCommit details errs,
       GitTracker.getCurrentCommit git root = Some newCommit →
       newCommit ≠ "" →
       GitTracker.currentCommit g !! root ≠ Some newCommit →
       GitTracker.getCommitDetails git root newCommit = (Some details, errs) →
       GitTracker.branchShowCurrent git root = Js.Thrown →
       let row := GitTracker.commitRow root newCommit details None in
       gc_branch row = None
       ∧ Store (InsertCommit row) ∈ GitTracker.effects res
       ∧ GitTracker.store res = (insertCommit db row).1
       ∧ GitTracker.currentBranch (GitTracker.tracker res) = GitTracker.currentBranch g
       ∧ (GitTracker.settled res = Js.Returned tt →
          GitTracker.currentCommit (GitTracker.tracker res) !! root = Some newCommit)).
Proof.
  split_and!.
  - apply trackCommitChange_head_fails.
  - intros newCommit Hc Hne Hold Hfail.
    assert (Js.truthy (Some newCommit) = true) as Htruthy.
    { simpl. apply negb_true_iff, String.eqb_neq. done. }
    assert (GitTracker.trackCommitChange git root g db
            = GitTracker.mkResult
                (GitTracker.cacheBranch root (GitTracker.getBranch git root)
                   (GitTracker.setCommit root newCommit g))
                db [LogInfo "Commit changed";
                    LogError "Failed reading commit details"] (Js.Returned tt)) as ->.
    { unfold GitTracker.trackCommitChange. rewrite Hc, Htruthy. simpl negb.
      cbv iota zeta. rewrite decide_False by exact Hold.
      apply getCommitDetails_null in Hfail. by rewrite Hfail. }
    simpl.
    assert (GitTracker.currentCommit
              (GitTracker.cacheBranch root (GitTracker.getBranch git root)
                 (GitTracker.setCommit root newCommit g))
            = <[root := newCommit]> (GitTracker.currentCommit g)) as Hcc.
    { unfold GitTracker.cacheBranch.
      destruct (GitTracker.getBranch git root) as [b|]; [|reflexivity].
      destruct (Js.truthy (Some b)); reflexivity. }
    split_and!; try done.
    + intros call Hin.
      repeat (apply elem_of_cons in Hin as [Hin|Hin]; [discriminate|]).
      by apply elem_of_nil in Hin.
    + rewrite Hcc. apply lookup_insert_eq.
    + unfold GitTracker.cacheBranch, Js.truthy.
      destruct (GitTracker.getBranch git root) as [b|]; [|reflexivity].
      destruct (negb _); reflexivity.
    + eapply trackCommitChange_same_head; [done|]. rewrite Hcc. apply lookup_insert_eq.
  - intros newCommit details errs Hc Hne Hold Hd Hb.
    assert (Js.truthy (Some newCommit) = true) as Htruthy.
    { simpl. apply negb_true_iff, String.eqb_neq. done. }
    cbv zeta. unfold GitTracker.trackCommitChange.
    rewrite Hc, Htruthy. simpl negb. cbv iota zeta.
    rewrite decide_False by exact Hold. rewrite Hd.
    unfold GitTracker.getBranch. rewrite Hb.
    destruct (insertCommit db _) as [db' [[]|]]; simpl.
    + split_and!; try done.
      * apply elem_of_cons. right. apply elem_of_app. right. by apply elem_of_cons; left.
      * intros _. apply lookup_insert_eq.
    + split_and!; try done.
      apply elem_of_cons. right. apply elem_of_app. right. by apply elem_of_cons; left.
Qed.

End CommitFacts.

(** ** The sync loop: the phases of a cycle *)

Section CycleFacts.

Context {DB R : Type} `{Database DB} `{Remote R}.
Variable LocalTZA : Z → bool → Z.

(** The flush of the queue never throws: a failed insertion is logged. *)
Lemma flush_returns (logs : list ActivityLog) (st : Tracker.Stores DB R) :
  (Tracker.flush logs st).2 = Js.Returned tt.
Proof.
  revert st. induction logs as [|log logs IH]; intros st; [done|].
  simpl. unfold Tracker.bind, Tracker.try_catch, Tracker.update, Tracker.emit.
  destruct (insertActivity (Tracker.db st) log) as [db' [[]|]]; simpl.
  - specialize (IH (Tracker.mkStores db' (Tracker.remote st))).
    by destruct (Tracker.flush logs _) as [[st2 es2] out].
  - specialize (IH (Tracker.mkStores db' (Tracker.remote st))).
    by destruct (Tracker.flush logs _) as [[st2 es2] out].
Qed.

(** A cycle, phase by phase: the flush, then the daily phase on the stores
    the flush left, then, unless the daily phase threw, the file-activity
    phase on the stores the daily phase left, then, unless that one threw,
    the commit phase; a phase that throws ends the cycle with the error
    logged. *)
Lemma syncCycle_phases (logs : list ActivityLog) (now later : Z)
    (st : Tracker.Stores DB R) :
  let flushed := Tracker.flush logs st in
  let daily := Tracker.syncDaily LocalTZA now later flushed.1.1 in
  let files := Tracker.syncFiles daily.1.1 in
  let commits := Tracker.syncGitCommits files.1.1 in
  let failed := [LogError "Sync loop error"] in
  (Tracker.syncCycle LocalTZA logs now later st).1.2
  = (flushed.1.2
     ++ match daily.2 with
        | Js.Thrown => daily.1.2 ++ failed
        | Js.Returned _ =>
            daily.1.2
            ++ match files.2 with
               | Js.Thrown => files.1.2 ++ failed
               | Js.Returned _ =>
                   files.1.2
                   ++ match commits.2 with
                      | Js.Thrown => commits.1.2 ++ failed
                      | Js.Returned _ => commits.1.2
                      end
               end
        end)%list.
Proof.
  cbv zeta. unfold Tracker.syncCycle, Tracker.bind, Tracker.try_catch, Tracker.emit.
  assert (Hf := flush_returns logs st).
  destruct (Tracker.flush logs st) as [[st1 es1] out1]. simpl in *. subst out1.
  destruct (Tracker.syncDaily LocalTZA now later st1) as [[st2 es2] [[]|]]; simpl;
    [|done].
  destruct (Tracker.syncFiles st2) as [[st3 es3] [[]|]]; simpl;
    [|by rewrite <- !app_assoc].
  destruct (Tracker.syncGitCommits st3) as [[st4 es4] [[]|]]; simpl;
    by rewrite <- ?app_assoc.
Qed.

(** The stores and the outcome of a cycle, phase by phase. *)
Lemma syncCycle_stores (logs : list ActivityLog) (now later : Z)
    (st : Tracker.Stores DB R) :
  let flushed := Tracker.flush logs st in
  let daily := Tracker.syncDaily LocalTZA now later flushed.1.1 in
  let files := Tracker.syncFiles daily.1.1 in
  let commits := Tracker.syncGitCommits files.1.1 in
  (Tracker.syncCycle LocalTZA logs now later st).2 = Js.Returned tt
  ∧ (Tracker.syncCycle LocalTZA logs now later st).1.1
    = match daily.2 with
      | Js.Thrown => daily.1.1
      | Js.Returned _ =>
          match files.2 with
          | Js.Thrown => files.1.1
          | Js.Returned _ => commits.1.1
          end
      end.
Proof.
  cbv zeta. unfold Tracker.syncCycle, Tracker.bind, Tracker.try_catch, Tracker.emit.
  assert (Hf := flush_returns logs st).
  destruct (Tracker.flush logs st) as [[st1 es1] out1]. simpl in *. subst out1.
  destruct (Tracker.syncDaily LocalTZA now later st1) as [[st2 es2] [[]|]]; simpl;
    [|done].
  destruct (Tracker.syncFiles st2) as [[st3 es3] [[]|]]; simpl; [|done].
  by destruct (Tracker.syncGitCommits st3) as [[st4 es4] [[]|]].
Qed.





Lemma syncFiles_not_daily_request :
  Emits not_daily_request (Tracker.syncFiles (DB:=DB) (R:=R)).
Proof.
  unfold Tracker.syncFiles.
  repeat first
    [ apply Emits_ret | apply Emits_emit | apply Emits_query
    | apply Emits_update | apply Emits_if
    | apply Emits_bind; [|intros ?] | done ].
  apply Emits_api. intros r. unfold ApiClient.syncFileActivities, ApiClient.send.
  match goal with |- context [match ?l with [] => _ | _ :: _ => _ end] => destruct l end;
    [constructor|].
  destruct (request r _) as [r' [[]|]]; simpl; by repeat constructor.
Qed.

Lemma syncGitCommits_not_daily_request :
  Emits not_daily_request (Tracker.syncGitCommits (DB:=DB) (R:=R)).
Proof.
  unfold Tracker.syncGitCommits.
  repeat first
    [ apply Emits_ret | apply Emits_emit | apply Emits_query
    | apply Emits_update | apply Emits_if
    | apply Emits_bind; [|intros ?] | done ].
  apply Emits_api. intros r. unfold ApiClient.syncCommits, ApiClient.send.
  match goal with |- context [match ?l with [] => _ | _ :: _ => _ end] => destruct l end;
    [constructor|].
  destruct (request r _) as [r' [[]|]]; simpl; by repeat constructor.
Qed.

(** In a cycle, the requests with daily aggregates are those of the daily
    phase, run on the stores the flush left. *)
Lemma syncCycle_daily_requests (logs : list ActivityLog) (now later : Z)
    (st : Tracker.Stores DB R) (input : list DailyStatsInput) :
  Request (SyncDailyStats input) ∈ (Tracker.syncCycle LocalTZA logs now later st).1.2
  ↔ Request (SyncDailyStats input)
      ∈ (Tracker.syncDaily LocalTZA now later (Tracker.flush logs st).1.1).1.2.
Proof.
  rewrite syncCycle_phases.
  assert (∀ es, Forall not_daily_request es → Request (SyncDailyStats input) ∉ es)
    as Hnot.
  { intros es Hes Hin. rewrite Forall_forall in Hes. apply (Hes _ Hin). }
  assert (Hf := Hnot _ (flush_emits not_daily_request logs
                          (Forall_true _ _ (fun _ => I)) I st)).
  set (daily := Tracker.syncDaily LocalTZA now later (Tracker.flush logs st).1.1).
  assert (Hfiles := Hnot _ (syncFiles_not_daily_request daily.1.1)).
  assert (Hc := Hnot _ (syncGitCommits_not_daily_request
                          (Tracker.syncFiles daily.1.1).1.1)).
  assert (Request (SyncDailyStats input) ∉ [LogError "Sync loop error"]) as Herr.
  { apply Hnot. by repeat constructor. }
  destruct daily.2; [destruct (Tracker.syncFiles daily.1.1).2;
                     [destruct (Tracker.syncGitCommits _).2|]|];
    rewrite !elem_of_app; tauto.
Qed.

End CycleFacts.

(** ** The sync loop: file activities *)

Section FileSyncFacts.

Context {DB R : Type} `{Database DB} `{Remote R}.

(** The file-activity phase on a batch that is not empty, case by case. *)
Lemma syncFiles_unfold (st : Tracker.Stores DB R) (batch : list FileActivitySummary) :
  getAggregatedActivities (Tracker.db st) 50 = Js.Returned batch →
  batch ≠ [] →
  Tracker.syncFiles st
  = match request (Tracker.remote st) (fileRequest batch) with
    | (r', Js.Returned _) =>
        match deleteAggregatedActivities (Tracker.db st) batch with
        | (db', Js.Returned _) =>
            (Tracker.mkStores db' r',
             [LogDebug "Syncing aggregated file activities";
              Request (fileRequest batch);
              LogInfo "Synced file activity";
              LogInfo "Synced file activity summaries";
              Store (DeleteAggregatedActivities batch);
              LogInfo "Synced file activities";
              UpdateStatus "CodeChrono: Synced"],
             Js.Returned tt)
        | (db', Js.Thrown) =>
            (Tracker.mkStores db' r',
             [LogDebug "Syncing aggregated file activities";
              Request (fileRequest batch);
              LogInfo "Synced file activity";
              LogInfo "Synced file activity summaries";
              Store (DeleteAggregatedActivities batch)],
             Js.Thrown)
        end
    | (r', Js.Thrown) =>
        (Tracker.mkStores (Tracker.db st) r',
         [LogDebug "Syncing aggregated file activities";
          Request (fileRequest batch);
          LogError "Failed to sync file activities";
          UpdateStatus "CodeChrono: Offline"],
         Js.Returned tt)
    end.
Proof.
  intros Hq Hne. destruct batch as [|s batch]; [done|].
  unfold Tracker.syncFiles, Tracker.bind, Tracker.query, Tracker.emit, Tracker.api,
    Tracker.update, ApiClient.syncFileActivities, ApiClient.send, fileRequest.
  rewrite Hq. simpl.
  destruct (request _ _) as [r' [[]|]]; simpl; [|done].
  by destruct (deleteAggregatedActivities _ _) as [db' [[]|]].
Qed.











End FileSyncFacts.

(** ** Dates *)

Section DateFacts.

(** The fields of a day number, and the day number back from them. *)
Lemma civil_fields (day : Z) :
  let '(y, m, d) := JsDate.civil_from_days day in
  1 ≤ m ≤ 12 ∧ 1 ≤ d ≤ 31 ∧ JsDate.days_from_civil y m 1 + d - 1 = day.
Proof.
  unfold JsDate.civil_from_days, JsDate.days_from_civil.
  set (z := day + 719468).
  set (era := z / 146097).
  set (doe := z - era * 146097).
  assert (0 ≤ doe < 146097) as Hdoe.
  { unfold doe, era. Z.div_mod_to_equations. lia. }
  set (yoe := (doe - doe / 1460 + doe / 36524 - doe / 146096) / 365).
  set (doy := doe - (365 * yoe + yoe / 4 - yoe / 100)).
  assert (0 ≤ yoe ≤ 399 ∧ 0 ≤ doy ≤ 365) as [Hyoe Hdoy].
  { unfold doy, yoe. Z.div_mod_to_equations. lia. }
  set (mp := (5 * doy + 2) / 153).
  assert (0 ≤ mp ≤ 11) as Hmp.
  { unfold mp. Z.div_mod_to_equations. lia. }
  assert (z = era * 146097 + doe) as Hz by (unfold doe; lia).
  clearbody doe era yoe.
  destruct (Z.ltb_spec mp 10) as [Hlt|Hge].
  - destruct (Z.leb_spec (mp + 3) 2) as [|_]; [lia|].
    destruct (Z.ltb_spec 2 (mp + 3)) as [_|]; [|lia].
    replace (mp + 3 - 3) with mp by lia.
    replace ((yoe + era * 400 + 0 - 0) / 400) with era
      by (Z.div_mod_to_equations; lia).
    split; [lia|]. split.
    + unfold mp. Z.div_mod_to_equations. lia.
    + replace (yoe + era * 400 + 0 - 0 - era * 400) with yoe by lia.
      unfold doy in *. unfold z in Hz. lia.
  - destruct (Z.leb_spec (mp - 9) 2) as [_|]; [|lia].
    destruct (Z.ltb_spec 2 (mp - 9)) as [|_]; [lia|].
    replace (mp - 9 + 9) with mp by lia.
    replace ((yoe + era * 400 + 1 - 1) / 400) with era
      by (Z.div_mod_to_equations; lia).
    split; [lia|]. split.
    + unfold mp. Z.div_mod_to_equations. lia.
    + replace (yoe + era * 400 + 1 - 1 - era * 400) with yoe by lia.
      unfold doy in *. unfold z in Hz. lia.
Qed.

(** [MakeDay] on the fields of a day, the date moved back by [n], is the
    day [n] days before. *)
Lemma MakeDay_back (t n : Z) :
  JsDate.MakeDay (JsDate.YearFromTime t) (JsDate.MonthFromTime t)
                 (JsDate.DateFromTime t - n)
  = JsDate.Day t - n.
Proof.
  unfold JsDate.MakeDay, JsDate.YearFromTime, JsDate.MonthFromTime,
    JsDate.DateFromTime.
  assert (Hf := civil_fields (JsDate.Day t)).
  destruct (JsDate.civil_from_days (JsDate.Day t)) as [[y m] d]. simpl.
  destruct Hf as (Hm & Hd & Hday).
  replace ((m - 1) / 12) with 0 by (Z.div_mod_to_equations; lia).
  replace ((m - 1) mod 12 + 1) with m by (Z.div_mod_to_equations; lia).
  replace (y + 0) with y by lia. lia.
Qed.

(** In a time zone whose offset does not change, [setDate(getDate() - n)]
    moves a date back by [n] days of 24 hours. *)
Lemma setDate_back (LocalTZA : Z → bool → Z) (offset now n : Z) :
  (∀ t isUTC, LocalTZA t isUTC = offset) →
  JsDate.setDate LocalTZA now (JsDate.getDate LocalTZA now - n)
  = now - n * JsDate.msPerDay.
Proof.
  intros Htz. unfold JsDate.setDate, JsDate.getDate, JsDate.LocalTime, JsDate.UTC.
  rewrite !Htz, MakeDay_back.
  unfold JsDate.MakeDate, JsDate.Day, JsDate.TimeWithinDay, JsDate.msPerDay.
  Z.div_mod_to_equations. lia.
Qed.

(** In any time zone, [setDate(getDate() - n)] moves a date to the instant
    at which the local clock showed the same time of day [n] calendar days
    before. *)
Lemma setDate_localDaysBefore (LocalTZA : Z → bool → Z) (now n : Z) :
  JsDate.setDate LocalTZA now (JsDate.getDate LocalTZA now - n)
  = localDaysBefore LocalTZA n now.
Proof.
  unfold JsDate.setDate, JsDate.getDate, JsDate.LocalTime, JsDate.UTC,
    localDaysBefore.
  rewrite MakeDay_back. cbv zeta.
  replace (JsDate.MakeDate (JsDate.Day (now + LocalTZA now true) - n)
             (JsDate.TimeWithinDay (now + LocalTZA now true)))
    with (now + LocalTZA now true - n * JsDate.msPerDay); [done|].
  unfold JsDate.MakeDate, JsDate.Day, JsDate.TimeWithinDay, JsDate.msPerDay.
  Z.div_mod_to_equations. lia.
Qed.

Lemma localDaysBefore_same_offset (LocalTZA : Z → bool → Z) (now n : Z) :
  LocalTZA now true = LocalTZA (now + LocalTZA now true - n * JsDate.msPerDay) false →
  localDaysBefore LocalTZA n now = now - n * JsDate.msPerDay.
Proof. unfold localDaysBefore. cbv zeta. intros <-. lia. Qed.

Lemma all_units_app (P : ascii → Prop) (a b : string) :
  all_units P (a ++ b) ↔ all_units P a ∧ all_units P b.
Proof.
  induction a as [|c a IH]; [simpl; tauto|].
  rewrite string_app_cons. simpl. tauto.
Qed.

Lemma splitHead_app (c : ascii) (a b : string) :
  all_units (fun d => d ≠ c) a → JsDate.splitHead c (a ++ String c b) = a.
Proof.
  induction a as [|d a IH]; intros Ha.
  - rewrite string_app_nil_l. simpl. by rewrite Ascii.eqb_refl.
  - rewrite string_app_cons. destruct Ha as [Hd Ha]. simpl.
    rewrite (proj2 (Ascii.eqb_neq c d)) by done. by rewrite IH.
Qed.

Lemma digitChar_code (n : Z) :
  nat_of_ascii (JsDate.digitChar n) = (48 + Z.to_nat (n mod 10))%nat.
Proof.
  unfold JsDate.digitChar. apply nat_ascii_embedding.
  assert (0 ≤ n mod 10 < 10) by (apply Z.mod_pos_bound; lia). lia.
Qed.

Lemma padded_no_T (w : nat) (n : Z) :
  all_units (fun d => d ≠ "T"%char) (JsDate.padded w n).
Proof.
  revert n. induction w as [|w IH]; intros n; simpl; [done|].
  apply all_units_app. split; [apply IH|]. simpl. split; [|done].
  intros Heq. assert (Hc := digitChar_code n). rewrite Heq in Hc.
  change (nat_of_ascii "T") with 84%nat in Hc.
  assert (0 ≤ n mod 10 < 10) by (apply Z.mod_pos_bound; lia). lia.
Qed.

Lemma isoDate_no_T (t : Z) : all_units (fun d => d ≠ "T"%char) (JsDate.isoDate t).
Proof.
  unfold JsDate.isoDate. destruct (JsDate.civil_from_days _) as [[y m] d].
  unfold JsDate.isoOf. rewrite !all_units_app. split_and!; try apply padded_no_T; try (by simpl).
  unfold JsDate.isoYear. destruct (_ && _); [apply padded_no_T|].
  apply all_units_app. split; [by destruct (y <? 0) | apply padded_no_T].
Qed.

(** [toISOString().split("T")[0]] is the date of the time value. *)
Lemma toISOString_date (t : Z) :
  JsDate.splitHead "T" (JsDate.toISOString t) = JsDate.isoDate t.
Proof. unfold JsDate.toISOString. apply splitHead_app, isoDate_no_T. Qed.

(** The date [n] days back that the sync loop computes is the date, in
    Coordinated Universal Time, of the instant [n] times 24 hours before
    [now], when the offset of the time zone does not change. *)
Lemma daysAgoStr_utc (LocalTZA : Z → bool → Z) (offset n now : Z) :
  (∀ t isUTC, LocalTZA t isUTC = offset) →
  Tracker.daysAgoStr LocalTZA n now = JsDate.isoDate (now - n * JsDate.msPerDay).
Proof.
  intros Htz. unfold Tracker.daysAgoStr.
  by rewrite toISOString_date, (setDate_back LocalTZA offset).
Qed.

(** In any time zone, the date [n] days back that the sync loop computes
    is the date, in Coordinated Universal Time, of the instant at which the
    local clock showed the same time of day [n] calendar days before. *)
Lemma daysAgoStr_date (LocalTZA : Z → bool → Z) (n now : Z) :
  Tracker.daysAgoStr LocalTZA n now
  = JsDate.isoDate (localDaysBefore LocalTZA n now).
Proof.
  unfold Tracker.daysAgoStr. by rewrite toISOString_date, setDate_localDaysBefore.
Qed.

(** Zero-padded numbers of one width compare as texts the way they compare
    as numbers. *)
Lemma string_lt_padded (w : nat) (a b : Z) (s t : string) :
  0 ≤ a < 10 ^ Z.of_nat w → 0 ≤ b < 10 ^ Z.of_nat w →
  Js.string_lt (JsDate.padded w a ++ s) (JsDate.padded w b ++ t)
  = if a <? b then true else if b <? a then false else Js.string_lt s t.
Proof.
  revert a b s t. induction w as [|w IH]; intros a b s t Ha Hb.
  - simpl in Ha, Hb. assert (a = 0) as -> by lia. assert (b = 0) as -> by lia.
    reflexivity.
  - rewrite Nat2Z.inj_succ, Z.pow_succ_r in Ha, Hb by lia.
    cbn [JsDate.padded]. rewrite !string_app_assoc. rewrite !string_app_cons.  rewrite !string_app_nil_l.
    assert (0 ≤ a / 10 < 10 ^ Z.of_nat w) as Ha'.
    { split; [apply Z.div_pos; lia | apply Z.div_lt_upper_bound; lia]. }
    assert (0 ≤ b / 10 < 10 ^ Z.of_nat w) as Hb'.
    { split; [apply Z.div_pos; lia | apply Z.div_lt_upper_bound; lia]. }
    rewrite IH by done.
    cbn [Js.string_lt]. rewrite !digitChar_code.
    assert (0 ≤ a mod 10 < 10) by (apply Z.mod_pos_bound; lia).
    assert (0 ≤ b mod 10 < 10) by (apply Z.mod_pos_bound; lia).
    assert (a = 10 * (a / 10) + a mod 10) by (apply Z.div_mod; lia).
    assert (b = 10 * (b / 10) + b mod 10) by (apply Z.div_mod; lia).
    (destruct (Z.ltb_spec (a / 10) (b / 10)), (Z.ltb_spec (b / 10) (a / 10)),
      (Z.ltb_spec a b), (Z.ltb_spec b a),
      (Nat.ltb_spec (48 + Z.to_nat (a mod 10)) (48 + Z.to_nat (b mod 10))),
      (Nat.ltb_spec (48 + Z.to_nat (b mod 10)) (48 + Z.to_nat (a mod 10)));
      try reflexivity; lia).
Qed.

Lemma string_lt_cons_same (c : ascii) (a b : string) :
  Js.string_lt (String c a) (String c b) = Js.string_lt a b.
Proof. simpl. by rewrite Nat.ltb_irrefl. Qed.

(** Dates written [YYYY-MM-DD], with a year of four digits, compare as texts
    the way they compare in the calendar. *)
Lemma string_lt_isoOf (y m d y' m' d' : Z) :
  0 ≤ y ≤ 9999 → 0 ≤ m < 100 → 0 ≤ d < 100 →
  0 ≤ y' ≤ 9999 → 0 ≤ m' < 100 → 0 ≤ d' < 100 →
  Js.string_lt (JsDate.isoOf y m d) (JsDate.isoOf y' m' d') = true
  ↔ y < y' ∨ (y = y' ∧ (m < m' ∨ (m = m' ∧ d < d'))).
Proof.
  intros Hy Hm Hd Hy' Hm' Hd'. unfold JsDate.isoOf, JsDate.isoYear.
  rewrite (proj2 (andb_true_iff _ _)) by (split; apply Z.leb_le; lia).
  rewrite (proj2 (andb_true_iff (0 <=? y') _)) by (split; apply Z.leb_le; lia).
  rewrite (string_lt_padded 4) by (change (10 ^ Z.of_nat 4) with 10000; lia).
  rewrite <- (string_app_nil_r (JsDate.padded 2 d)),
          <- (string_app_nil_r (JsDate.padded 2 d')).
  rewrite !(string_app_cons "-" ""), !string_app_nil_l.
  destruct (Z.ltb_spec y y'); [split; [lia | done]|].
  destruct (Z.ltb_spec y' y); [split; [done | lia]|].
  rewrite string_lt_cons_same.
  rewrite (string_lt_padded 2) by (change (10 ^ Z.of_nat 2) with 100; lia).
  destruct (Z.ltb_spec m m'); [split; [lia | done]|].
  destruct (Z.ltb_spec m' m); [split; [done | lia]|].
  rewrite string_lt_cons_same.
  rewrite (string_lt_padded 2) by (change (10 ^ Z.of_nat 2) with 100; lia).
  destruct (Z.ltb_spec d d'); [split; [lia | done]|].
  destruct (Z.ltb_spec d' d); [split; [done | lia]|].
  cbn [Js.string_lt]. split; [done | lia].
Qed.

End DateFacts.

(** ** The sync loop: daily aggregates *)

Section DailySyncFacts.

Context {DB R : Type} `{Database DB} `{Remote R}.
Variable LocalTZA : Z → bool → Z.

(** The requests of the daily phase: one, with the completed days, when there
    is any. *)
Lemma syncDaily_requests (now later : Z) (st : Tracker.Stores DB R)
    (dailyStats : list DailyActivitySummary) :
  getDailyAggregatedActivities (Tracker.db st) 30 = Js.Returned dailyStats →
  let completed := Tracker.completedDayStats LocalTZA now dailyStats in
  ∀ m, Request m ∈ (Tracker.syncDaily LocalTZA now later st).1.2
       ↔ completed ≠ [] ∧ m = SyncDailyStats (map ApiClient.dailyStatsInput completed).
Proof.
  intros Hq completed m.
  unfold Tracker.syncDaily, Tracker.bind, Tracker.query, Tracker.emit, Tracker.api,
    Tracker.update, Tracker.ret, ApiClient.syncDailyStats, ApiClient.send.
  rewrite Hq. fold completed. destruct completed as [|stat rest]; simpl.
  - split; [intros Hin; by apply elem_of_nil in Hin | by intros [Hne _]].
  - destruct (request _ _) as [r' [[]|]]; simpl;
      [destruct (deleteActivitiesBeforeDate _ _) as [db' [[]|]]; simpl|];
      (split; [intros Hin; case_mem Hin; done | intros [_ ->]; mem]).
Qed.

(** C6 as the code has it. In a sync cycle run at [now], what is sent to
    the remote service as daily aggregates is exactly the fetched
    aggregates whose date is, as a text, strictly below [yesterdayStr], in
    the order they were fetched. In any time zone [yesterdayStr] is the
    date, in Coordinated Universal Time, of the instant at which the local
    clock showed the same time of day one calendar day before. Where the
    offset of the zone is the same at both instants, this is the date of
    the instant 24 hours before [now]; then, when [now] is any instant of
    2025-06-10 in Coordinated Universal Time, it is 2025-06-09, an
    aggregate dated 2025-06-08 is eligible and one dated 2025-06-09 is
    not. *)
Theorem completed_days_only (logs : list ActivityLog) (now later : Z)
    (st0 : Tracker.Stores DB R) (dailyStats : list DailyActivitySummary) :
  let st := (Tracker.flush logs st0).1.1 in
  getDailyAggregatedActivities (Tracker.db st) 30 = Js.Returned dailyStats →
  let es := (Tracker.syncCycle LocalTZA logs now later st0).1.2 in
  let yesterday := JsDate.isoDate (localDaysBefore LocalTZA 1 now) in
  let eligible := fun stat => Js.string_lt (ds_date stat) yesterday in
  Tracker.yesterdayStr LocalTZA now = yesterday
  ∧ (∀ input, Request (SyncDailyStats input) ∈ es →
              input = map ApiClient.dailyStatsInput (List.filter eligible dailyStats))
  ∧ (∀ input day, Request (SyncDailyStats input) ∈ es → day ∈ input →
                  Js.string_lt (di_date day) yesterday = true)
  ∧ (∀ stat, stat ∈ dailyStats → eligible stat = true →
             ∃ input, Request (SyncDailyStats input) ∈ es
                      ∧ ApiClient.dailyStatsInput stat ∈ input)
  ∧ (LocalTZA now true = LocalTZA (now + LocalTZA now true - JsDate.msPerDay) false →
       yesterday = JsDate.isoDate (now - JsDate.msPerDay)
       ∧ (1749513600000 ≤ now < 1749600000000 →
          JsDate.isoDate now = "2025-06-10"
          ∧ yesterday = "2025-06-09"
          ∧ Js.string_lt "2025-06-08" yesterday = true
          ∧ Js.string_lt "2025-06-09" yesterday = false)).
Proof.
  intros st Hq es yesterday eligible.
  assert (Tracker.yesterdayStr LocalTZA now = yesterday) as Hyes.
  { unfold Tracker.yesterdayStr. apply daysAgoStr_date. }
  assert (∀ input, Request (SyncDailyStats input) ∈ es
                   ↔ List.filter eligible dailyStats ≠ []
                     ∧ input = map ApiClient.dailyStatsInput
                                 (List.filter eligible dailyStats)) as Hreq.
  { intros input. unfold es. rewrite syncCycle_daily_requests. fold st.
    rewrite (syncDaily_requests now later st dailyStats Hq).
    unfold Tracker.completedDayStats. rewrite Hyes. fold eligible.
    split; [by intros [Hne [= ->]] | by intros [Hne ->]]. }
  split_and!.
  - exact Hyes.
  - intros input Hin. by apply Hreq in Hin as [_ ->].
  - intros input day Hin Hday. apply Hreq in Hin as [_ ->].
    apply list_elem_of_fmap in Hday as (stat & -> & Hstat).
    apply list_elem_of_In, filter_In in Hstat as [_ Hel]. exact Hel.
  - intros stat Hstat Hel.
    assert (stat ∈ List.filter eligible dailyStats) as Hin.
    { apply list_elem_of_In, filter_In. split; [by apply list_elem_of_In | done]. }
    eexists. split.
    + apply Hreq. split; [|reflexivity].
      intros Hnil. rewrite Hnil in Hin. by apply elem_of_nil in Hin.
    + apply list_elem_of_fmap. by exists stat.
  - intros Htz.
    assert (yesterday = JsDate.isoDate (now - JsDate.msPerDay)) as Hy.
    { unfold yesterday. rewrite localDaysBefore_same_offset; [f_equal; lia|].
      rewrite Z.mul_1_l. exact Htz. }
    split; [done|]. intros Hnow.
    assert (JsDate.Day now = 20249) as Htoday.
    { unfold JsDate.Day, JsDate.msPerDay. Z.div_mod_to_equations. lia. }
    assert (JsDate.Day (now - JsDate.msPerDay) = 20248) as Hyesterday.
    { unfold JsDate.Day, JsDate.msPerDay. Z.div_mod_to_equations. lia. }
    rewrite Hy. unfold JsDate.isoDate. rewrite Htoday, Hyesterday.
    by vm_compute.
Qed.

End DailySyncFacts.

(** ** Regular expressions: what a match implies *)

Section RegexFacts.

Lemma drop_append (l rest : string) : Js.drop (String.length l) (l ++ rest) = rest.
Proof. induction l as [|c l IH]; [by destruct rest|]. by rewrite string_app_cons. Qed.

Lemma plus_loop_sound (m1 : Regex.Matcher) (L : string → Prop) (k : Regex.Continuation)
    (fuel : nat) :
  Sound m1 L →
  ∀ s caps res, Regex.plus_loop m1 k fuel s caps = Some res →
    ∃ ws s' caps', ws ≠ [] ∧ s = Regex.flatten ws ++ s' ∧ Forall L ws
                   ∧ k s' caps' = Some res.
Proof.
  intros Hm. induction fuel as [|fuel IH]; intros s caps res Hrun; simpl in Hrun;
    apply Hm in Hrun as (w & s1 & caps1 & -> & Hw & Hk).
  - exists [w], s1, caps1. simpl. rewrite string_app_nil_r.
    split_and!; [done | done | by constructor | done].
  - destruct (String.length s1 <? String.length (w ++ s1))%nat.
    + destruct (Regex.plus_loop m1 k fuel s1 caps1) as [res'|] eqn:Hmore.
      * injection Hk as ->.
        destruct (IH _ _ _ Hmore) as (ws & s2 & caps2 & _ & -> & Hws & Hk2).
        exists (w :: ws), s2, caps2. simpl. rewrite string_app_assoc.
        split_and!; [done | done | by constructor | done].
      * exists [w], s1, caps1. simpl. rewrite string_app_nil_r.
        split_and!; [done | done | by constructor | done].
    + exists [w], s1, caps1. simpl. rewrite string_app_nil_r.
      split_and!; [done | done | by constructor | done].
Qed.

Lemma lazy_loop_sound (m1 : Regex.Matcher) (L : string → Prop) (k : Regex.Continuation)
    (fuel : nat) :
  Sound m1 L →
  ∀ s caps res, Regex.lazy_loop m1 k fuel s caps = Some res →
    ∃ ws s' caps', s = Regex.flatten ws ++ s' ∧ Forall L ws ∧ k s' caps' = Some res.
Proof.
  intros Hm. induction fuel as [|fuel IH]; intros s caps res Hrun; simpl in Hrun.
  - destruct (k s caps) as [res'|] eqn:Hk; [|done]. injection Hrun as ->.
    exists [], s, caps. by split_and!.
  - destruct (k s caps) as [res'|] eqn:Hk.
    + injection Hrun as ->. exists [], s, caps. by split_and!.
    + apply Hm in Hrun as (w & s1 & caps1 & -> & Hw & Hrun).
      destruct (String.length s1 <? String.length (w ++ s1))%nat; [|done].
      destruct (IH _ _ _ Hrun) as (ws & s2 & caps2 & -> & Hws & Hk2).
      exists (w :: ws), s2, caps2. simpl. rewrite string_app_assoc.
      split_and!; [done | by constructor | done].
Qed.

Lemma run_sound (r : Regex.re) : Sound (Regex.run r) (Regex.Lang r).
Proof.
  induction r as [p|l|r1 IH1 r2 IH2|r1 IH1|r1 IH1|r1 IH1];
    intros s caps k res Hrun; simpl in Hrun.
  - destruct s as [|c s']; [done|]. destruct (p c) eqn:Hp; [|done].
    exists (String c ""), s', caps. simpl. split_and!; [done | by exists c | done].
  - destruct (Js.startsWith s l) eqn:Hl; [|done].
    apply startsWith_inv in Hl as [rest ->]. rewrite drop_append in Hrun.
    exists l, rest, caps. simpl. by split_and!.
  - apply IH1 in Hrun as (w1 & s1 & caps1 & -> & Hw1 & Hrun).
    apply IH2 in Hrun as (w2 & s2 & caps2 & -> & Hw2 & Hk).
    exists (w1 ++ w2), s2, caps2. rewrite string_app_assoc. simpl.
    split_and!; [done | by exists w1, w2 | done].
  - apply (plus_loop_sound _ _ _ _ IH1) in Hrun
      as (ws & s' & caps' & Hne & -> & Hws & Hk).
    exists (Regex.flatten ws), s', caps'. simpl.
    split_and!; [done | by exists ws | done].
  - apply (lazy_loop_sound _ _ _ _ IH1) in Hrun as (ws & s' & caps' & -> & Hws & Hk).
    exists (Regex.flatten ws), s', caps'. simpl.
    split_and!; [done | by exists ws | done].
  - apply IH1 in Hrun as (w & s' & caps' & -> & Hw & Hk).
    exists w, s'. eexists. simpl. split_and!; [done | done | exact Hk].
Qed.

Lemma search_sound (r : Regex.re) (s : string) (caps : Regex.Captures) :
  Regex.search r s = Some caps → Holds r s.
Proof.
  induction s as [|c s IH]; simpl; unfold Regex.match_here.
  - destruct (Regex.run r "" [] _) as [caps'|] eqn:Hrun; [|done]. intros _.
    apply run_sound in Hrun as (w & post & _ & Heq & Hw & _).
    by exists "", w, post.
  - destruct (Regex.run r (String c s) [] _) as [caps'|] eqn:Hrun.
    + intros _. apply run_sound in Hrun as (w & post & _ & Heq & Hw & _).
      by exists "", w, post.
    + intros (pre & w & post & -> & Hw)%IH.
      by exists (String c pre), w, post.
Qed.

End RegexFacts.

(** ** GitTracker: the diff statistics *)

Section DiffStatFacts.

Lemma includes_Contains (s sub : string) : Js.includes s sub = true ↔ Contains sub s.
Proof.
  induction s as [|c s IH]; simpl.
  - rewrite orb_false_r, startsWith_spec. split.
    + intros [rest Heq]. by exists "", rest.
    + intros (pre & post & Heq). destruct pre; [by exists post|done].
  - rewrite orb_true_iff, IH, startsWith_spec. split.
    + intros [[rest Heq] | (pre & post & ->)].
      * by exists "", rest.
      * by exists (String c pre), post.
    + intros (pre & post & Heq). destruct pre as [|d pre].
      * left. by exists post.
      * right. rewrite string_app_cons in Heq. injection Heq as -> ->.
        by exists pre, post.
Qed.

Lemma flatten_units (p : ascii → bool) (ws : list string) :
  Forall (Regex.Lang (Regex.Class p)) ws →
  all_units (fun c => p c = true) (Regex.flatten ws)
  ∧ (ws ≠ [] → Regex.flatten ws ≠ "").
Proof.
  induction 1 as [|w ws (c & -> & Hc) Hws [IH _]]; simpl; [done|].
  rewrite string_app_cons, string_app_nil_l. simpl. by split_and!.
Qed.

Lemma diffStatRegex_phrase (s : string) :
  Holds GitTracker.diffStatRegex s → CombinedPhrase s.
Proof.
  intros (pre & w & post & -> & Hw). simpl in Hw.
  destruct Hw as (n & w1 & -> & (ns & Hne & -> & Hns)
                  & ins & w2 & -> & -> & mid & w3 & ->
                  & (mids & -> & Hmids) & m & del & -> & (ms & Hme & -> & Hms) & ->).
  destruct (flatten_units _ _ Hns) as [Hn1 Hn2].
  destruct (flatten_units _ _ Hms) as [Hm1 Hm2].
  destruct (flatten_units _ _ Hmids) as [Hmid _].
  exists pre, (Regex.flatten ns), (Regex.flatten mids), (Regex.flatten ms), post.
  split_and!; auto. by rewrite !string_app_assoc.
Qed.

Lemma CombinedPhrase_Contains (s : string) :
  CombinedPhrase s → Contains " insertion" s ∧ Contains " deletion" s.
Proof.
  intros (pre & n & mid & m & post & -> & _). split.
  - exists (pre ++ n), (mid ++ m ++ " deletion" ++ post).
    by rewrite !string_app_assoc.
  - exists (pre ++ n ++ " insertion" ++ mid ++ m), post.
    by rewrite !string_app_assoc.
Qed.

Lemma parseDiffStats_no_phrase (diffStats : string) :
  ¬ CombinedPhrase diffStats →
  GitTracker.parseDiffStats diffStats = (Js.Finite 0, Js.Finite 0).
Proof.
  intros Hno. unfold GitTracker.parseDiffStats.
  destruct (Regex.search GitTracker.diffStatRegex diffStats) as [stats|] eqn:Hs;
    [|done].
  destruct Hno. eapply diffStatRegex_phrase, search_sound, Hs.
Qed.

(** C7. When the diff-stat output of a commit holds only an insertions
    phrase (the text [ deletion] does not occur in it) or only a deletions
    phrase (the text [ insertion] does not occur in it), or in any way
    holds no combined phrase, [getCommitDetails] gives [linesAdded = 0] and
    [linesDeleted = 0] (unless a command fails, and then it gives [null]);
    so does the output [3 insertions(+)]. *)
Theorem single_phrase_counts_zero (git : GitTracker.Git) (root hash : string)
    (diffStats : string) :
  GitTracker.showStat git root hash = Js.Returned diffStats →
  ¬ Contains " deletion" diffStats ∨ ¬ Contains " insertion" diffStats
  ∨ ¬ CombinedPhrase diffStats →
  GitTracker.parseDiffStats diffStats = (Js.Finite 0, Js.Finite 0)
  ∧ match (GitTracker.getCommitDetails git root hash).1 with
    | Some details =>
        GitTracker.linesAdded details = 0 ∧ GitTracker.linesDeleted details = 0
    | None => DetailsQueryFails git root hash
    end
  ∧ GitTracker.parseDiffStats "3 insertions(+)" = (Js.Finite 0, Js.Finite 0).
Proof.
  intros Hshow Hno.
  assert (¬ CombinedPhrase diffStats) as Hno'.
  { intros Hp. destruct (CombinedPhrase_Contains _ Hp) as [Hi Hd]. tauto. }
  assert (Hz := parseDiffStats_no_phrase diffStats Hno').
  split_and!; [done | | by vm_compute].
  destruct (GitTracker.getCommitDetails git root hash) as [[details|] errs] eqn:Hd;
    simpl.
  - unfold GitTracker.getCommitDetails in Hd. rewrite Hshow, Hz in Hd.
    destruct (GitTracker.logFormat git root GitTracker.Subject hash); [|done].
    destruct (GitTracker.logFormat git root GitTracker.AuthorName hash); [|done].
    destruct (GitTracker.logFormat git root GitTracker.AuthorEmail hash); [|done].
    destruct (GitTracker.logFormat git root GitTracker.AuthorTime hash); [|done].
    by injection Hd as <- _.
  - unfold GitTracker.getCommitDetails in Hd. rewrite Hshow, Hz in Hd.
    unfold DetailsQueryFails.
    destruct (GitTracker.logFormat git root GitTracker.Subject hash); [|by auto 10].
    destruct (GitTracker.logFormat git root GitTracker.AuthorName hash); [|by auto 10].
    destruct (GitTracker.logFormat git root GitTracker.AuthorEmail hash); [|by auto 10].
    destruct (GitTracker.logFormat git root GitTracker.AuthorTime hash); [|by auto 10].
    done.
Qed.

End DiffStatFacts.

(** * Further properties of the code *)

(** ** The repositories of the workspace *)

Section DiscoveryFacts.
Variable join : string → string → string.

Lemma pushDirectories_listed current children stack :
  GitTracker.pushDirectories join current children stack
  = (rev (map (fun c => (join current c.1, c.2)) (listed children)) ++ stack)%list.
Proof.
  revert stack. induction children as [|[name e] rest IH]; intros stack; [done|].
  destruct e; simpl; [apply IH| |done].
  rewrite IH. by rewrite <- app_assoc.
Qed.

Lemma elem_of_rev {A : Type} (x : A) (l : list A) : x ∈ rev l ↔ x ∈ l.
Proof. rewrite !list_elem_of_In. symmetry. apply in_rev. Qed.

Lemma weight_listed children :
  (weight (listed children) ≤ weight children)%nat.
Proof.
  induction children as [|[name e] rest IH]; [done|].
  unfold weight in *. destruct e; simpl in *; lia.
Qed.

Lemma weight_app a b : weight (a ++ b) = (weight a + weight b)%nat.
Proof. unfold weight. by rewrite map_app, list_sum_app. Qed.

Lemma weight_rev a : weight (rev a) = weight a.
Proof.
  induction a as [|x a IH]; [done|]. simpl. rewrite weight_app, IH.
  unfold weight. simpl. lia.
Qed.

Lemma weight_paths (f : string → string) l :
  weight (map (fun c => (f c.1, c.2)) l) = weight l.
Proof. unfold weight. rewrite map_map. done. Qed.

Lemma entries_pos e : (1 ≤ GitTracker.entries e)%nat.
Proof. destruct e; simpl; lia. Qed.

Lemma add_elem_of x s r : r ∈ GitTracker.add x s ↔ r = x ∨ r ∈ s.
Proof.
  unfold GitTracker.add. case_bool_decide.
  - split; [tauto|]. intros [->|]; done.
  - rewrite elem_of_app, list_elem_of_singleton. tauto.
Qed.

Lemma add_NoDup x s : NoDup s → NoDup (GitTracker.add x s).
Proof.
  intros Hs. unfold GitTracker.add. case_bool_decide; [done|].
  apply NoDup_app. split_and!; [done| |apply NoDup_singleton].
  intros y Hy Hy'. apply list_elem_of_singleton in Hy' as ->. done.
Qed.

Lemma Repository_root p e r :
  GitTracker.hasGitDir e = true → Repository join p e r ↔ r = p.
Proof.
  intros Hgit. split.
  - intros (e' & Hr & _). inversion Hr; subst; [done|congruence].
  - intros ->. exists e. split; [constructor|done].
Qed.

Lemma Repository_below p children r :
  GitTracker.hasGitDir (GitTracker.Dir true children) = false →
  Repository join p (GitTracker.Dir true children) r
  ↔ ∃ name c, (name, c) ∈ listed children ∧ Repository join (join p name) c r.
Proof.
  intros Hgit. split.
  - intros (e' & Hr & Hg). inversion Hr; subst; [congruence|].
    eexists _, _. split; [eassumption|]. by exists e'.
  - intros (name & c & Hin & e' & Hr & Hg). exists e'. split; [|done].
    by eapply Reached_below.
Qed.

Lemma Repository_leaf p e r :
  GitTracker.hasGitDir e = false → GitTracker.readdirSync e = Js.Thrown →
  ¬ Repository join p e r.
Proof.
  intros Hgit Hread (e' & Hr & Hg). inversion Hr; subst; [congruence|done].
Qed.

Lemma scan_spec fuel : ∀ stack roots r,
  (weight stack ≤ fuel)%nat →
  r ∈ GitTracker.scan join fuel stack roots
  ↔ r ∈ roots ∨ ∃ p e, (p, e) ∈ stack ∧ Repository join p e r.
Proof.
  induction fuel as [|fuel IH]; intros stack roots r Hw.
  - destruct stack as [|[p e] stack].
    + simpl. split; [tauto|]. intros [?|(p & e & Hin & _)]; [done|].
      by apply elem_of_nil in Hin.
    + pose proof (entries_pos e). unfold weight in Hw. simpl in Hw. lia.
  - destruct stack as [|[p e] stack].
    + simpl. split; [tauto|]. intros [?|(p & e & Hin & _)]; [done|].
      by apply elem_of_nil in Hin.
    + pose proof (entries_pos e) as Hpos.
      assert (weight stack + GitTracker.entries e ≤ S fuel)%nat as Hw'.
      { unfold weight in *. simpl in Hw. lia. }
      simpl. destruct (GitTracker.hasGitDir e) eqn:Hgit.
      * rewrite IH by lia. rewrite add_elem_of. split.
        -- intros [[->|?]|(p' & e' & Hin & Hrep)]; [|tauto|].
           ++ right. exists p, e. split; [left|]. by apply Repository_root.
           ++ right. exists p', e'. split; [by right|done].
        -- intros [?|(p' & e' & Hin & Hrep)]; [tauto|].
           apply elem_of_cons in Hin as [Heq|Hin].
           ++ injection Heq as -> ->. apply Repository_root in Hrep; tauto.
           ++ right. by exists p', e'.
      * destruct (GitTracker.readdirSync e) as [children|] eqn:Hread.
        -- assert (e = GitTracker.Dir true children) as ->.
           { destruct e as [|[] ?|]; simpl in Hread; congruence. }
           rewrite IH.
           2:{ rewrite pushDirectories_listed, weight_app, weight_rev, weight_paths.
               pose proof (weight_listed children). unfold weight in *.
               simpl in Hw'. lia. }
           rewrite pushDirectories_listed. split.
           ++ intros [?|(p' & e' & Hin & Hrep)]; [tauto|]. right.
              apply elem_of_app in Hin as [Hin|Hin].
              ** apply elem_of_rev, list_elem_of_fmap in Hin as ([name c] & Heq & Hin).
                 injection Heq as -> ->. exists p, (GitTracker.Dir true children).
                 split; [left|]. apply Repository_below; [done|]. by exists name, c.
              ** exists p', e'. split; [by right|done].
           ++ intros [?|(p' & e' & Hin & Hrep)]; [tauto|]. right.
              apply elem_of_cons in Hin as [Heq|Hin].
              ** injection Heq as -> ->.
                 apply Repository_below in Hrep as (name & c & Hin & Hrep); [|done].
                 exists (join p name), c. split; [|done].
                 apply elem_of_app. left. apply elem_of_rev, list_elem_of_fmap.
                 by exists (name, c).
              ** exists p', e'. split; [|done]. apply elem_of_app. by right.
        -- rewrite IH by lia. split.
           ++ intros [?|(p' & e' & Hin & Hrep)]; [tauto|]. right.
              exists p', e'. split; [by right|done].
           ++ intros [?|(p' & e' & Hin & Hrep)]; [tauto|].
              apply elem_of_cons in Hin as [Heq|Hin].
              ** injection Heq as -> ->. by apply Repository_leaf in Hrep.
              ** right. by exists p', e'.
Qed.

Lemma scan_NoDup fuel : ∀ stack roots,
  NoDup roots → NoDup (GitTracker.scan join fuel stack roots).
Proof.
  induction fuel as [|fuel IH]; intros stack roots Hnd; [by destruct stack|].
  destruct stack as [|[p e] stack]; [done|]. simpl.
  destruct (GitTracker.hasGitDir e); [by apply IH, add_NoDup|].
  destruct (GitTracker.readdirSync e); by apply IH.
Qed.

Lemma findGitRootsInWorkspace_elem_of
    (folders : option (list (string * GitTracker.Entry))) (r : string) :
  r ∈ GitTracker.findGitRootsInWorkspace join folders
  ↔ ∃ fs base tree, folders = Some fs ∧ (base, tree) ∈ fs
                    ∧ Repository join base tree r.
Proof.
  destruct folders as [fs|]; simpl.
  2:{ split; [intros Hin; by apply elem_of_nil in Hin|].
      by intros (fs & base & tree & ? & _). }
  assert (∀ roots,
            r ∈ fold_left (fun roots folder =>
                   GitTracker.scan join (GitTracker.entries folder.2) [folder] roots)
                 fs roots
            ↔ r ∈ roots ∨ ∃ base tree, (base, tree) ∈ fs ∧ Repository join base tree r)
    as Hfold.
  { induction fs as [|[base tree] fs IH]; intros roots; simpl.
    - split; [tauto|]. intros [?|(base & tree & Hin & _)]; [done|].
      by apply elem_of_nil in Hin.
    - rewrite IH, scan_spec.
      2:{ unfold weight. simpl. lia. }
      split.
      + intros [[?|(p & e & Hin & Hrep)]|(b & t & Hin & Hrep)]; [tauto| |].
        * apply list_elem_of_singleton in Hin. injection Hin as -> ->.
          right. exists base, tree. split; [left|done].
        * right. exists b, t. split; [by right|done].
      + intros [?|(b & t & Hin & Hrep)]; [tauto|].
        apply elem_of_cons in Hin as [Heq|Hin].
        * injection Heq as -> ->. left. right. exists base, tree.
          split; [by apply list_elem_of_singleton|done].
        * right. by exists b, t. }
  rewrite Hfold. split.
  - intros [Hin|(base & tree & Hin & Hrep)]; [by apply elem_of_nil in Hin|].
    by exists fs, base, tree.
  - intros (fs' & base & tree & Heq & Hin & Hrep). injection Heq as <-.
    right. by exists base, tree.
Qed.

Lemma findGitRootsInWorkspace_NoDup
    (folders : option (list (string * GitTracker.Entry))) :
  NoDup (GitTracker.findGitRootsInWorkspace join folders).
Proof.
  destruct folders as [fs|]; simpl; [|constructor].
  assert (∀ roots, NoDup roots →
            NoDup (fold_left (fun roots folder =>
                     GitTracker.scan join (GitTracker.entries folder.2) [folder] roots)
                   fs roots)) as Hfold.
  { induction fs as [|folder fs IH]; intros roots Hnd; [done|].
    simpl. by apply IH, scan_NoDup. }
  apply Hfold. constructor.
Qed.

(** X1. [findGitRootsInWorkspace] returns exactly the repositories of the
    workspace folders: the directories reached from a folder through
    readable directories outside any repository, in the order [readdirSync]
    lists them up to the first entry whose [statSync] throws, that hold a
    directory [.git]. So what lies inside a repository is not scanned, a
    directory that cannot be read is skipped, and with no workspace
    folders there is no root. No root is returned twice. A folder that is
    a repository itself gives this folder alone. *)
Theorem findGitRootsInWorkspace_repositories
    (folders : option (list (string * GitTracker.Entry))) :
  let roots := GitTracker.findGitRootsInWorkspace join folders in
  (∀ r, r ∈ roots
        ↔ ∃ fs base tree, folders = Some fs ∧ (base, tree) ∈ fs
                          ∧ Repository join base tree r)
  ∧ NoDup roots
  ∧ (∀ base tree, GitTracker.hasGitDir tree = true →
       GitTracker.findGitRootsInWorkspace join (Some [(base, tree)]) = [base]).
Proof.
  split_and!.
  - apply findGitRootsInWorkspace_elem_of.
  - apply findGitRootsInWorkspace_NoDup.
  - intros base tree Hgit. simpl.
    pose proof (entries_pos tree) as Hpos.
    destruct (GitTracker.entries tree) as [|fuel]; [lia|]. simpl. rewrite Hgit.
    by destruct fuel.
Qed.

End DiscoveryFacts.

(** ** A change of HEAD *)

Section CommitChangeFacts.
Context {DB : Type} `{Database DB}.

Lemma truthy_Some (s : string) : Js.truthy (Some s) = true ↔ s ≠ "".
Proof. simpl. rewrite negb_true_iff. apply String.eqb_neq. Qed.

Lemma trimStart_blank (s : string) :
  all_units (fun c => Js.isSpace c = true) s → Js.trimStart s = "".
Proof.
  induction s as [|c s IH]; [done|]. intros [Hc Hs]. simpl. rewrite Hc. by apply IH.
Qed.

Lemma trim_blank (s : string) :
  all_units (fun c => Js.isSpace c = true) s → Js.trim s = "".
Proof. intros Hs. unfold Js.trim. by rewrite (trimStart_blank s Hs). Qed.

Lemma trackCommitChange_changed git root g (db : DB) c :
  GitTracker.getCurrentCommit git root = Some c → c ≠ "" →
  GitTracker.currentCommit g !! root ≠ Some c →
  GitTracker.trackCommitChange git root g db
  = let '(details, errs) := GitTracker.getCommitDetails git root c in
    let branch := GitTracker.getBranch git root in
    let advanced := GitTracker.cacheBranch root branch (GitTracker.setCommit root c g) in
    match details with
    | Some d =>
        let row := GitTracker.commitRow root c d branch in
        match insertCommit db row with
        | (db', Js.Returned _) =>
            GitTracker.mkResult advanced db'
              (LogInfo "Commit changed" :: errs ++ [Store (InsertCommit row)])%list
              (Js.Returned tt)
        | (db', Js.Thrown) =>
            GitTracker.mkResult g db'
              (LogInfo "Commit changed" :: errs ++ [Store (InsertCommit row)])%list
              Js.Thrown
        end
    | None =>
        GitTracker.mkResult advanced db (LogInfo "Commit changed" :: errs)%list
          (Js.Returned tt)
    end.
Proof.
  intros Hc Hne Hold. unfold GitTracker.trackCommitChange. rewrite Hc.
  apply truthy_Some in Hne. rewrite Hne. simpl negb. cbv iota.
  rewrite decide_False by exact Hold.
  destruct (GitTracker.getCommitDetails git root c) as [[d|] errs]; [|done].
  cbv zeta. destruct (insertCommit db _) as [db' [[]|]]; done.
Qed.

Lemma cacheBranch_commits root branch g :
  GitTracker.currentCommit (GitTracker.cacheBranch root branch g)
  = GitTracker.currentCommit g.
Proof.
  unfold GitTracker.cacheBranch. destruct branch as [b|]; [|done].
  by destruct (Js.truthy _).
Qed.

Lemma cacheBranch_roots root branch g :
  GitTracker.gitRoots (GitTracker.cacheBranch root branch g) = GitTracker.gitRoots g.
Proof.
  unfold GitTracker.cacheBranch. destruct branch as [b|]; [|done].
  by destruct (Js.truthy _).
Qed.

(** X5. [trackCommitChange] does nothing at all (no effect, the tracker
    and the store unchanged, the promise fulfilled) exactly when
    [getCurrentCommit] gives null, the empty string or the commit cached
    for the root. It gives null exactly when [git rev-parse HEAD] fails,
    and the empty string when the command prints white space only. *)
Theorem trackCommitChange_noop_iff (git : GitTracker.Git) (root : string)
    (g : GitTracker.t) (db : DB) :
  (NoOp git root g db
   ↔ match GitTracker.getCurrentCommit git root with
     | None => True
     | Some c => c = "" ∨ GitTracker.currentCommit g !! root = Some c
     end)
  ∧ (GitTracker.getCurrentCommit git root = None
     ↔ GitTracker.revParseHead git root = Js.Thrown)
  ∧ (∀ stdout, GitTracker.revParseHead git root = Js.Returned stdout →
               all_units (fun c => Js.isSpace c = true) stdout →
               GitTracker.getCurrentCommit git root = Some "").
Proof.
  split_and!.
  - destruct (GitTracker.getCurrentCommit git root) as [c|] eqn:Hc.
    + split.
      * intros Hnoop. destruct (decide (c = "")) as [|Hne]; [by left|].
        destruct (decide (GitTracker.currentCommit g !! root = Some c)) as [|Hold];
          [by right|].
        exfalso. unfold NoOp in Hnoop.
        rewrite (trackCommitChange_changed _ _ _ _ c Hc Hne Hold) in Hnoop.
        destruct (GitTracker.getCommitDetails git root c) as [[d|] errs];
          cbv zeta in Hnoop; [destruct (insertCommit db _) as [db' [[]|]]|];
          discriminate.
      * intros [->|Hold].
        -- unfold NoOp, GitTracker.trackCommitChange. by rewrite Hc.
        -- by eapply trackCommitChange_same_head.
    + split; [done|]. intros _. unfold NoOp, GitTracker.trackCommitChange.
      by rewrite Hc.
  - unfold GitTracker.getCurrentCommit.
    destruct (GitTracker.revParseHead git root); split; done.
  - intros stdout Hout Hblank. unfold GitTracker.getCurrentCommit.
    by rewrite Hout, trim_blank.
Qed.

(** A call that is not suspended in between is its two parts, one after
    the other. *)
Lemma trackCommitChange_parts (git : GitTracker.Git) (root : string)
    (g : GitTracker.t) (db : DB) :
  GitTracker.trackCommitChange git root g db
  = match GitTracker.detectChange git root g with
    | Some c =>
        let rest := GitTracker.recordChange git root c g db in
        GitTracker.mkResult (GitTracker.tracker rest) (GitTracker.store rest)
          (LogInfo "Commit changed" :: GitTracker.effects rest)
          (GitTracker.settled rest)
    | None => GitTracker.mkResult g db [] (Js.Returned tt)
    end.
Proof.
  unfold GitTracker.trackCommitChange, GitTracker.detectChange,
    GitTracker.recordChange.
  destruct (GitTracker.getCurrentCommit git root) as [c|]; [|done].
  destruct (negb _); [done|]. cbv zeta.
  destruct (decide _); [done|].
  destruct (GitTracker.getCommitDetails git root c) as [[d|] errs]; [|done].
  cbv zeta. by destruct (insertCommit db _) as [db' [[]|]].
Qed.

(** X6. When HEAD has changed to a commit [c], its details are read and
    the store takes the row, a call of [trackCommitChange] logs the change
    and inserts one row, for this root and this commit and without an id,
    caches [c] for the root and leaves the set of roots. A call that starts
    after this one has settled, on the same HEAD, does nothing. A call
    that overlaps it, having tested the cache before this one wrote it,
    goes on to insert the same row again. *)
Theorem trackCommitChange_records_change (git : GitTracker.Git) (root c : string)
    (g : GitTracker.t) (db db' : DB) (d : GitTracker.CommitDetails) :
  GitTracker.getCurrentCommit git root = Some c →
  c ≠ "" →
  GitTracker.currentCommit g !! root ≠ Some c →
  (GitTracker.getCommitDetails git root c).1 = Some d →
  let row := GitTracker.commitRow root c d (GitTracker.getBranch git root) in
  insertCommit db row = (db', Js.Returned tt) →
  let res := GitTracker.trackCommitChange git root g db in
  GitTracker.effects res = [LogInfo "Commit changed"; Store (InsertCommit row)]
  ∧ (gc_projectPath row = root ∧ gc_commitHash row = c ∧ gc_id row = None)
  ∧ GitTracker.store res = db'
  ∧ GitTracker.settled res = Js.Returned tt
  ∧ GitTracker.currentCommit (GitTracker.tracker res)
    = <[root := c]> (GitTracker.currentCommit g)
  ∧ GitTracker.gitRoots (GitTracker.tracker res) = GitTracker.gitRoots g
  ∧ (∀ db'', NoOp git root (GitTracker.tracker res) db'')
  ∧ GitTracker.detectChange git root (GitTracker.tracker res) = None
  ∧ GitTracker.detectChange git root g = Some c
  ∧ GitTracker.effects
      (GitTracker.recordChange git root c (GitTracker.tracker res)
         (GitTracker.store res))
    = [Store (InsertCommit row)].
Proof.
  intros Hc Hne Hold Hd' row Hins res.
  assert (GitTracker.getCommitDetails git root c = (Some d, [])) as Hd.
  { unfold GitTracker.getCommitDetails in *.
    repeat match type of Hd' with
           | context [match ?x with _ => _ end] => destruct x; try discriminate
           end.
    simpl in Hd'. by rewrite Hd'. }
  clear Hd'.
  assert (GitTracker.detectChange git root g = Some c) as Hdetect.
  { unfold GitTracker.detectChange. rewrite Hc.
    apply truthy_Some in Hne. rewrite Hne. simpl negb. cbv iota zeta.
    by rewrite decide_False. }
  assert (∀ g1 db1, GitTracker.effects (GitTracker.recordChange git root c g1 db1)
                    = [Store (InsertCommit row)]) as Hagain.
  { intros g1 db1. unfold GitTracker.recordChange. rewrite Hd. cbv zeta. fold row.
    by destruct (insertCommit db1 row) as [db1' [[]|]]. }
  subst res. rewrite (trackCommitChange_changed _ _ _ _ c Hc Hne Hold), Hd.
  cbv zeta. fold row. rewrite Hins. simpl.
  split_and!; try done.
  - by rewrite cacheBranch_commits.
  - by rewrite cacheBranch_roots.
  - intros db''. eapply trackCommitChange_same_head; [done|].
    rewrite cacheBranch_commits. apply lookup_insert_eq.
  - unfold GitTracker.detectChange. rewrite Hc.
    apply truthy_Some in Hne. rewrite Hne. simpl negb. cbv iota zeta.
    rewrite decide_True; [done|].
    rewrite cacheBranch_commits. apply lookup_insert_eq.
Qed.

(** X7. When HEAD has changed, its details are read and [insertCommit]
    throws, [trackCommitChange] rejects and the tracker is left as it was,
    the commit not cached (the insertion comes before the cache is
    written): the next trigger on the same HEAD is no no-op and hands the
    same row to the store again. *)
Theorem trackCommitChange_store_failure (git : GitTracker.Git) (root c : string)
    (g : GitTracker.t) (db db' : DB) (d : GitTracker.CommitDetails) :
  GitTracker.getCurrentCommit git root = Some c →
  c ≠ "" →
  GitTracker.currentCommit g !! root ≠ Some c →
  (GitTracker.getCommitDetails git root c).1 = Some d →
  let row := GitTracker.commitRow root c d (GitTracker.getBranch git root) in
  insertCommit db row = (db', Js.Thrown) →
  let res := GitTracker.trackCommitChange git root g db in
  GitTracker.settled res = Js.Thrown
  ∧ GitTracker.tracker res = g
  ∧ GitTracker.store res = db'
  ∧ Store (InsertCommit row) ∈ GitTracker.effects res
  ∧ ¬ NoOp git root (GitTracker.tracker res) (GitTracker.store res)
  ∧ Store (InsertCommit row)
      ∈ GitTracker.effects
          (GitTracker.trackCommitChange git root (GitTracker.tracker res)
             (GitTracker.store res)).
Proof.
  intros Hc Hne Hold Hd' row Hins res.
  destruct (GitTracker.getCommitDetails git root c) as [d' errs] eqn:Hd.
  simpl in Hd'. subst d'.
  subst res. rewrite (trackCommitChange_changed _ _ _ _ c Hc Hne Hold), Hd.
  cbv zeta. fold row. rewrite Hins. simpl.
  assert (Store (InsertCommit row)
            ∈ GitTracker.effects (GitTracker.trackCommitChange git root g db')) as Hagain.
  { rewrite (trackCommitChange_changed _ _ _ _ c Hc Hne Hold), Hd.
    cbv zeta. fold row.
    destruct (insertCommit db' row) as [db'' [[]|]]; simpl;
      apply elem_of_cons; right; apply elem_of_app; right; by apply elem_of_cons; left. }
  split_and!; try done.
  - apply elem_of_cons; right; apply elem_of_app; right; by apply elem_of_cons; left.
  - intros Hnoop. unfold NoOp in Hnoop. rewrite Hnoop in Hagain.
    by apply elem_of_nil in Hagain.
Qed.

End CommitChangeFacts.

(** ** Initialisation and watchers *)

Section InitializationFacts.
Context {DB : Type} `{Database DB}.

Lemma getCommitDetails_no_store git root hash call :
  Store call ∉ (GitTracker.getCommitDetails git root hash).2.
Proof.
  unfold GitTracker.getCommitDetails.
  repeat match goal with
         | |- context [match ?x with _ => _ end] => destruct x
         end; simpl; intros Hin;
  repeat match goal with
         | H : _ ∈ _ :: _ |- _ => apply elem_of_cons in H as [H|H]; [discriminate|]
         | H : _ ∈ [] |- _ => by apply elem_of_nil in H
         end.
Qed.

Lemma refreshed_blank before root :
  refreshed None before root = before !! root
  ∧ refreshed (Some "") before root = before !! root.
Proof. done. Qed.

Lemma initializeRoot_step git g seen (acc : GitTracker.Result (DB:=DB)) root :
  Initialized git g seen acc →
  Initialized git g (seen ++ [root]) (GitTracker.initializeRoot git acc root).
Proof.
  intros [Hroots Hothers Hseen Hrows].
  assert (∀ r, r ∉ (seen ++ [root])%list → (r ∉ seen) ∧ r ≠ root) as Hnot.
  { intros r Hr. split; [intros ?|intros ->]; apply Hr, elem_of_app; [by left|].
    right. by apply list_elem_of_singleton. }
  assert (∀ row, Store (InsertCommit row) ∈ GitTracker.effects acc →
            gc_projectPath row ∈ (seen ++ [root])%list
            ∧ GitTracker.getCurrentCommit git (gc_projectPath row)
              = Some (gc_commitHash row)) as Hrows'.
  { intros row Hin. destruct (Hrows row Hin). split; [|done].
    apply elem_of_app. by left. }
  (* the root is skipped, the state as it was *)
  assert (Js.truthy (GitTracker.getCurrentCommit git root) = false →
          Initialized git g (seen ++ [root]) acc) as Hskip.
  { intros Hfalsy. split; [done| |  |done].
    - intros r Hr. apply Hothers. by apply Hnot.
    - intros Hset r Hr. apply elem_of_app in Hr as [Hr|Hr]; [by apply Hseen|].
      apply list_elem_of_singleton in Hr as ->.
      unfold refreshed. rewrite Hfalsy.
      destruct (decide (root ∈ seen)) as [Hin|Hout].
      + destruct (Hseen Hset root Hin) as [Hc Hb].
        unfold refreshed in Hc. by rewrite Hfalsy in Hc, Hb.
      + by apply Hothers. }
  unfold GitTracker.initializeRoot.
  destruct (GitTracker.settled acc) as [[]|] eqn:Hset.
  2:{ split; [done| | |done].
      - intros r Hr. apply Hothers. by apply Hnot.
      - by rewrite Hset. }
  destruct (GitTracker.getCurrentCommit git root) as [c|] eqn:Hc; [|by apply Hskip].
  destruct (Js.truthy (Some c)) eqn:Htruthy; [|by apply Hskip].
  simpl negb. cbv iota.
  pose proof (getCommitDetails_no_store git root c) as Hnostore.
  destruct (GitTracker.getCommitDetails git root c) as [details errs].
  cbv zeta.
  set (g2 := GitTracker.cacheBranch root (GitTracker.getBranch git root)
               (GitTracker.setCommit root c (GitTracker.tracker acc))).
  assert (GitTracker.gitRoots g2 = GitTracker.gitRoots g) as Hroots2.
  { subst g2. by rewrite cacheBranch_roots. }
  assert (GitTracker.currentCommit g2
          = <[root := c]> (GitTracker.currentCommit (GitTracker.tracker acc))) as Hcc.
  { subst g2. by rewrite cacheBranch_commits. }
  assert (GitTracker.currentBranch g2 !! root
          = refreshed (GitTracker.getBranch git root)
              (GitTracker.currentBranch (GitTracker.tracker acc)) root) as Hcb.
  { subst g2. unfold GitTracker.cacheBranch, refreshed.
    destruct (GitTracker.getBranch git root) as [b|]; [|done].
    destruct (Js.truthy (Some b)); [|done]. simpl. apply lookup_insert_eq. }
  assert (∀ r, r ≠ root →
            GitTracker.currentBranch g2 !! r
            = GitTracker.currentBranch (GitTracker.tracker acc) !! r) as Hcb'.
  { intros r Hr. subst g2. unfold GitTracker.cacheBranch.
    destruct (GitTracker.getBranch git root) as [b|]; [|done].
    destruct (Js.truthy (Some b)); [|done]. simpl. by apply lookup_insert_ne. }
  assert (GitTracker.currentBranch (GitTracker.tracker acc) !! root
          = GitTracker.currentBranch g !! root
          ∨ Js.truthy (GitTracker.getBranch git root) = true) as Hstale.
  { destruct (Js.truthy (GitTracker.getBranch git root)) eqn:Hb; [by right|left].
    destruct (decide (root ∈ seen)) as [Hin|Hout]; [|by apply Hothers].
    destruct (Hseen eq_refl root Hin) as [_ Hb'].
    rewrite Hc, Htruthy in Hb'. unfold refreshed in Hb'. by rewrite Hb in Hb'. }
  assert (∀ out (db' : DB) es,
            (∀ row, Store (InsertCommit row) ∈ es →
               gc_projectPath row ∈ (seen ++ [root])%list
               ∧ GitTracker.getCurrentCommit git (gc_projectPath row)
                 = Some (gc_commitHash row)) →
            Initialized git g (seen ++ [root]) (GitTracker.mkResult g2 db' es out))
    as Hdone.
  { intros out db' es Hes. split; simpl; [done| | |done].
    - intros r Hr. apply Hnot in Hr as [Hr Hne]. rewrite Hcc, Hcb' by done.
      rewrite lookup_insert_ne by done. by apply Hothers.
    - intros _ r Hr. apply elem_of_app in Hr as [Hr|Hr].
      + destruct (decide (r = root)) as [->|Hne].
        * rewrite Hcc, lookup_insert_eq, Hcb, Hc, Htruthy. unfold refreshed.
          rewrite Htruthy. split; [done|].
          destruct Hstale as [Hst|Hb]; [|by rewrite Hb].
          by destruct (Js.truthy (GitTracker.getBranch git root)).
        * rewrite Hcc, Hcb' by done. rewrite lookup_insert_ne by done.
          by apply (Hseen eq_refl).
      + apply list_elem_of_singleton in Hr as ->.
        rewrite Hcc, lookup_insert_eq, Hcb, Hc, Htruthy. unfold refreshed.
        rewrite Htruthy. split; [done|].
        destruct Hstale as [Hst|Hb]; [|by rewrite Hb].
        by destruct (Js.truthy (GitTracker.getBranch git root)). }
  destruct details as [d|].
  - destruct (insertCommit (GitTracker.store acc) _) as [db' out].
    apply Hdone. intros row Hin.
    apply elem_of_app in Hin as [Hin|Hin]; [by apply Hrows'|].
    apply elem_of_app in Hin as [Hin|Hin]; [by apply Hnostore in Hin|].
    apply list_elem_of_singleton in Hin. injection Hin as ->. simpl.
    split; [|done]. apply elem_of_app. right. by apply list_elem_of_singleton.
  - apply Hdone. intros row Hin.
    apply elem_of_app in Hin as [Hin|Hin]; [by apply Hrows'|].
    by apply Hnostore in Hin.
Qed.

Lemma fold_initializeRoot git g roots : ∀ seen (acc : GitTracker.Result (DB:=DB)),
  Initialized git g seen acc →
  Initialized git g (seen ++ roots) (fold_left (GitTracker.initializeRoot git) roots acc).
Proof.
  induction roots as [|root roots IH]; intros seen acc Hacc.
  - by rewrite app_nil_r.
  - simpl. replace (seen ++ root :: roots)%list with ((seen ++ [root]) ++ roots)%list
      by (by rewrite <- app_assoc).
    by apply IH, initializeRoot_step.
Qed.

Lemma initializeAllRoots_Initialized git roots g (db : DB) :
  Initialized git (GitTracker.mk (GitTracker.currentCommit g)
                     (GitTracker.currentBranch g) roots)
    roots (GitTracker.initializeAllRoots git roots g db).
Proof.
  unfold GitTracker.initializeAllRoots.
  apply (fold_initializeRoot git _ roots []).
  split; simpl; try done.
  - intros _ r Hr. by apply elem_of_nil in Hr.
  - intros row Hin. apply list_elem_of_singleton in Hin. discriminate.
Qed.

Lemma initializeRoot_returns git (acc : GitTracker.Result (DB:=DB)) root :
  (∀ d row, (insertCommit d row).2 = Js.Returned tt) →
  GitTracker.settled acc = Js.Returned tt →
  GitTracker.settled (GitTracker.initializeRoot git acc root) = Js.Returned tt.
Proof.
  intros Hins Hset. unfold GitTracker.initializeRoot. rewrite Hset.
  destruct (GitTracker.getCurrentCommit git root) as [c|]; [|done].
  destruct (negb _); [done|].
  destruct (GitTracker.getCommitDetails git root c) as [[d|] errs]; [|done].
  cbv zeta. specialize (Hins (GitTracker.store acc)
    (GitTracker.commitRow root c d (GitTracker.getBranch git root))).
  destruct (insertCommit _ _) as [db' out]. by simpl in *.
Qed.

Lemma fold_initializeRoot_returns git roots : ∀ (acc : GitTracker.Result (DB:=DB)),
  (∀ d row, (insertCommit d row).2 = Js.Returned tt) →
  GitTracker.settled acc = Js.Returned tt →
  GitTracker.settled (fold_left (GitTracker.initializeRoot git) roots acc)
  = Js.Returned tt.
Proof.
  induction roots as [|root roots IH]; intros acc Hins Hset; [done|].
  simpl. apply IH; [done|]. by apply initializeRoot_returns.
Qed.

Section InitializedQueries.
Variable sep : string.

(** X8. [initializeAllRoots] replaces the set of roots by the roots
    found, leaves the caches of every other root, and inserts rows only
    for roots found, each with the HEAD of its root. When it returns,
    every root found whose HEAD is read has this HEAD cached, so a trigger
    on it does nothing until HEAD moves; a root whose HEAD is not read
    keeps what was cached; and [getActiveCommitForPath] and
    [getActiveBranchForPath] answer, for a path in a root found, with its
    HEAD and its branch. *)
Theorem initializeAllRoots_caches_heads (git : GitTracker.Git) (roots : list string)
    (g : GitTracker.t) (db : DB) :
  let res := GitTracker.initializeAllRoots git roots g db in
  let g' := GitTracker.tracker res in
  GitTracker.gitRoots g' = roots
  ∧ (∀ r, r ∉ roots →
       GitTracker.currentCommit g' !! r = GitTracker.currentCommit g !! r
       ∧ GitTracker.currentBranch g' !! r = GitTracker.currentBranch g !! r)
  ∧ (∀ row, Store (InsertCommit row) ∈ GitTracker.effects res →
       gc_projectPath row ∈ roots
       ∧ GitTracker.getCurrentCommit git (gc_projectPath row)
         = Some (gc_commitHash row))
  ∧ (GitTracker.settled res = Js.Returned tt →
     (∀ r c, r ∈ roots → GitTracker.getCurrentCommit git r = Some c → c ≠ "" →
        GitTracker.currentCommit g' !! r = Some c
        ∧ (∀ db', NoOp git r g' db'))
     ∧ (∀ r, r ∈ roots → Js.truthy (GitTracker.getCurrentCommit git r) = false →
          GitTracker.currentCommit g' !! r = GitTracker.currentCommit g !! r
          ∧ GitTracker.currentBranch g' !! r = GitTracker.currentBranch g !! r)
     ∧ (∀ fsPath r c,
          GitTracker.getGitRootForPath sep g' fsPath = Some r → r ≠ "" →
          GitTracker.getCurrentCommit git r = Some c → c ≠ "" →
          GitTracker.getActiveCommitForPath sep g' fsPath = Some c
          ∧ (∀ b, GitTracker.getBranch git r = Some b → b ≠ "" →
               GitTracker.getActiveBranchForPath sep g' fsPath = Some b))).
Proof.
  intros res g'.
  destruct (initializeAllRoots_Initialized git roots g db)
    as [Hroots Hothers Hseen Hrows].
  fold res in Hroots, Hothers, Hseen, Hrows. fold g' in Hroots, Hothers, Hseen.
  simpl in Hroots, Hothers, Hseen.
  assert (GitTracker.settled res = Js.Returned tt →
          ∀ r c, r ∈ roots → GitTracker.getCurrentCommit git r = Some c → c ≠ "" →
            GitTracker.currentCommit g' !! r = Some c) as Hhead.
  { intros Hset r c Hr Hc Hne. destruct (Hseen Hset r Hr) as [Hcc _].
    rewrite Hc in Hcc. unfold refreshed in Hcc.
    apply truthy_Some in Hne. by rewrite Hne in Hcc. }
  split_and!; try done.
  intros Hset. split_and!.
  - intros r c Hr Hc Hne. split; [by apply Hhead|].
    intros db'. eapply trackCommitChange_same_head; [done|]. by apply Hhead.
  - intros r Hr Hfalsy. destruct (Hseen Hset r Hr) as [Hcc Hcb].
    unfold refreshed in Hcc. by rewrite Hfalsy in Hcc, Hcb.
  - intros fsPath r c Hroot Hr Hc Hne.
    assert (r ∈ roots) as Hin.
    { pose proof (getGitRootForPath_spec sep g' fsPath) as Hspec.
      rewrite Hroot, Hroots in Hspec. by destruct Hspec. }
    apply truthy_Some in Hr.
    rewrite root_of_commit_query, root_of_branch_query, Hroot, Hr.
    split; [by apply Hhead|].
    intros b Hb Hbne. destruct (Hseen Hset r Hin) as [_ Hcb].
    apply truthy_Some in Hne, Hbne. rewrite Hc, Hne, Hb in Hcb.
    unfold refreshed in Hcb. by rewrite Hbne in Hcb.
Qed.

End InitializedQueries.

Section WatchFacts.
Variable join : string → string → string.

(** X9. [watchGitChanges] sets the roots of the tracker to the
    repositories found in the workspace and creates watchers for roots of
    the tracker only, each a repository of a workspace folder; when the
    initialisation rejects it creates none; and when no insertion throws
    it creates one for each repository of the workspace. *)
Theorem watchGitChanges_watches_repositories (git : GitTracker.Git)
    (folders : option (list (string * GitTracker.Entry)))
    (g : GitTracker.t) (db : DB) :
  let res := (GitTracker.watchGitChanges join git folders g db).1 in
  let watched := (GitTracker.watchGitChanges join git folders g db).2 in
  GitTracker.gitRoots (GitTracker.tracker res)
  = GitTracker.findGitRootsInWorkspace join folders
  ∧ (∀ r, r ∈ watched →
       r ∈ GitTracker.gitRoots (GitTracker.tracker res)
       ∧ ∃ fs base tree, folders = Some fs ∧ (base, tree) ∈ fs
                         ∧ Repository join base tree r)
  ∧ (GitTracker.settled res = Js.Thrown → watched = [])
  ∧ ((∀ d row, (insertCommit d row).2 = Js.Returned tt) →
     ∀ r, r ∈ watched
          ↔ ∃ fs base tree, folders = Some fs ∧ (base, tree) ∈ fs
                            ∧ Repository join base tree r).
Proof.
  intros res watched.
  pose proof (findGitRootsInWorkspace_elem_of join folders) as Hfind.
  set (roots := GitTracker.findGitRootsInWorkspace join folders) in *.
  destruct (initializeAllRoots_Initialized git roots g db) as [Hroots _ _ _].
  simpl in Hroots.
  assert (res = GitTracker.initializeAllRoots git roots g db) as Hres.
  { subst res. unfold GitTracker.watchGitChanges. fold roots.
    by destruct (GitTracker.settled _). }
  assert (watched = match GitTracker.settled res with
                    | Js.Returned _ => roots
                    | Js.Thrown => []
                    end) as Hwatched.
  { subst watched. rewrite Hres. unfold GitTracker.watchGitChanges. fold roots.
    destruct (GitTracker.settled _); simpl; [|done]. by rewrite Hroots. }
  rewrite <- Hres in Hroots.
  split_and!.
  - done.
  - intros r Hr. rewrite Hwatched in Hr.
    destruct (GitTracker.settled res); [|by apply elem_of_nil in Hr].
    rewrite Hroots. split; [done|]. by apply Hfind.
  - intros Hset. by rewrite Hwatched, Hset.
  - intros Hins r. rewrite Hwatched, Hres.
    unfold GitTracker.initializeAllRoots.
    rewrite fold_initializeRoot_returns by done. apply Hfind.
Qed.

End WatchFacts.

End InitializationFacts.

(** ** Numbers *)

Section NumberFacts.

(** An integer up to [2^53] in magnitude is the Number it is read as. *)
Lemma toNumber_exact (n : Z) : Z.abs n ≤ 2 ^ 53 → Js.toNumber n = n.
Proof.
  intros Hn. unfold Js.toNumber.
  destruct (Z.ltb_spec (Z.abs n) (2 ^ 53)) as [|Hge]; [done|].
  assert (Z.abs n = 2 ^ 53) as Habs by lia.
  destruct (Z.abs_spec n) as [[_ Heq]|[_ Heq]]; rewrite Habs in Heq.
  - subst n. by vm_compute.
  - assert (n = - 2 ^ 53) as -> by lia. by vm_compute.
Qed.

(** Beyond, it is read as an integer that differs from it by no more than
    its part in [2^53], or as an infinity. *)
Lemma toNumber_nearest (n v : Z) :
  Js.toNumber n = Js.Finite v → 2 ^ 53 * Z.abs (v - n) ≤ Z.abs n.
Proof.
  unfold Js.toNumber.
  destruct (Z.ltb_spec (Z.abs n) (2 ^ 53)) as [|Hge].
  { intros [= <-]. rewrite Z.sub_diag. simpl Z.abs. lia. }
  set (m := Z.abs n) in *.
  assert (0 < m) as Hm by lia.
  assert (53 ≤ Z.log2 m) as Hlog.
  { apply Z.log2_le_pow2; lia. }
  destruct (Z.log2_spec m Hm) as [Hlow _].
  set (e := Z.log2 m - 52) in *.
  assert (1 ≤ e) as He by (unfold e; lia).
  rewrite Z.shiftr_div_pow2, Z.land_ones by lia.
  assert (2 ^ e = 2 * 2 ^ (e - 1)) as HP.
  { replace e with (Z.succ (e - 1)) at 1 by lia. apply Z.pow_succ_r. lia. }
  assert (2 ^ Z.log2 m = 2 ^ 53 * 2 ^ (e - 1)) as HL.
  { rewrite <- Z.pow_add_r by lia. f_equal. unfold e. lia. }
  assert (0 < 2 ^ (e - 1)) as Hhalf by (apply Z.pow_pos_nonneg; lia).
  set (half := 2 ^ (e - 1)) in *.
  set (P := 2 ^ e) in *.
  pose proof (Z.div_mod m P ltac:(lia)) as Hdm.
  pose proof (Z.mod_pos_bound m P ltac:(lia)) as Hr.
  set (q := m / P) in *. set (r := m mod P) in *.
  assert (Z.abs (Z.sgn n * (q * P) - n) = r
          ∧ Z.abs (Z.sgn n * ((q + 1) * P) - n) = P - r) as [Hdown Hup].
  { destruct (Z.abs_spec n) as [[Hs Heq]|[Hs Heq]]; fold m in Heq.
    - rewrite Z.sgn_pos by lia. split; lia.
    - rewrite Z.sgn_neg by lia. split; lia. }
  change (2 ^ 53) with 9007199254740992 in *.
  destruct ((half <? r) || ((r =? half) && Z.odd q)) eqn:Hround.
  - destruct (2 ^ 1024 <=? (q + 1) * P); [done|]. intros [= <-].
    rewrite Hup.
    assert (half ≤ r); [|lia].
    apply orb_true_iff in Hround as [Hlt|[Heq _]%andb_true_iff]; lia.
  - destruct (2 ^ 1024 <=? q * P); [done|]. intros [= <-].
    rewrite Hdown.
    apply orb_false_iff in Hround as [Hlt _]. lia.
Qed.

Lemma toNumber_truthy_or_zero (n : Z) : Js.num_or_zero (Js.toNumber n) = Js.toNumber n.
Proof.
  unfold Js.toNumber. destruct (Z.abs n <? 2 ^ 53); [by destruct n|].
  cbv zeta. destruct (2 ^ 1024 <=? _); [done|]. simpl.
  by destruct (Z.sgn n * _).
Qed.

(** The product of two Numbers that are integers, neither negative. *)
Lemma mul_Finite (a b : Z) :
  0 ≤ a → 0 ≤ b → Js.mul (Js.Finite a) (Js.Finite b) = Js.toNumber (a * b).
Proof.
  intros Ha Hb. unfold Js.mul, Js.negative.
  destruct (Z.ltb_spec a 0); [lia|]. destruct (Z.ltb_spec b 0); [lia|].
  simpl xorb. cbv iota zeta.
  destruct (Z.eqb_spec (a * b) 0) as [Hz|Hz].
  - rewrite Hz. by destruct a, b.
  - destruct a; [lia| |lia]. by destruct b; [lia| |lia].
Qed.

Lemma mul_exact (a b : Z) :
  0 ≤ a → 0 < b → a * b ≤ 2 ^ 53 →
  Js.mul (Js.toNumber a) b = Js.Finite (a * b).
Proof.
  intros Ha Hb Hab.
  assert (0 ≤ a * b) by (apply Z.mul_nonneg_nonneg; lia).
  assert (a ≤ a * b) by nia.
  rewrite toNumber_exact by lia. rewrite mul_Finite by lia.
  apply toNumber_exact. lia.
Qed.

(** The product by a positive factor of the Number read for [n] differs
    from the product of [n] by no more than its part in [2^51], when it is
    finite. *)
Lemma mul_toNumber_near (n k v : Z) :
  0 ≤ n → 0 < k →
  Js.mul (Js.toNumber n) k = Js.Finite v →
  2 ^ 51 * Z.abs (v - n * k) ≤ n * k.
Proof.
  intros Hn Hk. destruct (Js.toNumber n) as [a| | |] eqn:Ha.
  - assert (0 ≤ a ∨ a < 0) as [Hpos|Hneg] by lia.
    + rewrite mul_Finite by lia. intros Hv.
      apply toNumber_nearest in Ha, Hv.
      change (2 ^ 53) with (4 * 2 ^ 51) in *. set (c := 2 ^ 51) in *.
      assert (0 < c) as Hc by (by vm_compute).
      rewrite (Z.abs_eq n) in Ha by lia.
      assert (Z.abs (a * k - n * k) = Z.abs (a - n) * k) as Hd.
      { rewrite <- Z.mul_sub_distr_r, Z.abs_mul. f_equal. lia. }
      assert (0 ≤ n * k) as Hnk by (apply Z.mul_nonneg_nonneg; lia).
      assert (4 * c * (Z.abs (a - n) * k) ≤ n * k) as H1.
      { rewrite Z.mul_assoc. apply Z.mul_le_mono_nonneg_r; lia. }
      assert (Z.abs (a * k) ≤ n * k + Z.abs (a * k - n * k)) as Htri by lia.
      assert (Z.abs (v - n * k) ≤ Z.abs (v - a * k) + Z.abs (a * k - n * k))
        as Htri2 by lia.
      rewrite Hd in *.
      pose proof (Z.abs_nonneg (v - a * k)). pose proof (Z.abs_nonneg (a * k)).
      assert (0 ≤ Z.abs (a - n) * k) by (apply Z.mul_nonneg_nonneg; lia).
      generalize dependent (Z.abs (v - a * k)). intros x ? ? ?.
      generalize dependent (Z.abs (a - n) * k). intros y ? ? ? ? ?.
      generalize dependent (Z.abs (a * k)). intros z ? ? ?.
      generalize dependent (Z.abs (v - n * k)). intros u ?.
      generalize dependent (n * k). intros w ? ? ?. lia.
    + apply toNumber_nearest in Ha.
      change (2 ^ 53) with 9007199254740992 in Ha. lia.
  - unfold Js.toNumber in Ha. destruct (_ <? _); [done|]. cbv zeta in Ha.
    by destruct (_ <=? _).
  - unfold Js.mul. destruct k; [lia| |lia]. done.
  - done.
Qed.

End NumberFacts.

(** ** The combined phrase of the statistics *)

Section MatchFacts.

Lemma plus_loop_eq m1 k fuel s caps :
  Regex.plus_loop m1 k fuel s caps
  = m1 s caps (fun s' caps' =>
      match fuel with
      | O => k s' caps'
      | S fuel' =>
          if (String.length s' <? String.length s)%nat
          then match Regex.plus_loop m1 k fuel' s' caps' with
               | Some res => Some res
               | None => k s' caps'
               end
          else k s' caps'
      end).
Proof. by destruct fuel. Qed.

Lemma lazy_loop_eq m1 k fuel s caps :
  Regex.lazy_loop m1 k fuel s caps
  = match k s caps with
    | Some res => Some res
    | None =>
        match fuel with
        | O => None
        | S fuel' =>
            m1 s caps (fun s' caps' =>
              if (String.length s' <? String.length s)%nat
              then Regex.lazy_loop m1 k fuel' s' caps'
              else None)
        end
    end.
Proof. by destruct fuel. Qed.

Lemma run_Class p c s caps k :
  Regex.run (Regex.Class p) (String c s) caps k = if p c then k s caps else None.
Proof. done. Qed.

Lemma run_Cat r1 r2 s caps k :
  Regex.run (Regex.Cat r1 r2) s caps k
  = Regex.run r1 s caps (fun s' caps' => Regex.run r2 s' caps' k).
Proof. done. Qed.

Lemma run_Group r s caps k :
  Regex.run (Regex.Group r) s caps k
  = Regex.run r s caps (fun s' caps' =>
      k s' (caps' ++ [Js.take (String.length s - String.length s') s])%list).
Proof. done. Qed.

Lemma run_Plus r s caps k :
  Regex.run (Regex.Plus r) s caps k
  = Regex.plus_loop (Regex.run r) k (String.length s) s caps.
Proof. done. Qed.

Lemma run_LazyStar r s caps k :
  Regex.run (Regex.LazyStar r) s caps k
  = Regex.lazy_loop (Regex.run r) k (String.length s) s caps.
Proof. done. Qed.

Lemma run_Lit l rest caps k :
  Regex.run (Regex.Lit l) (l ++ rest) caps k = k rest caps.
Proof. simpl. by rewrite startsWith_append, drop_append. Qed.

Lemma ltb_tail c s : (String.length s <? String.length (String c s))%nat = true.
Proof. apply Nat.ltb_lt. simpl. lia. Qed.

Lemma digit_run_fails rest caps k fuel :
  starts_outside Js.isDigit rest →
  Regex.plus_loop (Regex.run (Regex.Class Regex.digit)) k fuel rest caps = None.
Proof.
  intros Hrest. rewrite plus_loop_eq. destruct rest as [|c rest]; [done|].
  rewrite run_Class. unfold Regex.digit. simpl in Hrest. by rewrite Hrest.
Qed.

Lemma plus_digits_greedy n : ∀ fuel rest caps k res,
  Digits n → starts_outside Js.isDigit rest → (String.length n ≤ S fuel)%nat →
  k rest caps = Some res →
  Regex.plus_loop (Regex.run (Regex.Class Regex.digit)) k fuel (n ++ rest) caps
  = Some res.
Proof.
  induction n as [|c n IH]; intros fuel rest caps k res [Hne Hn] Hrest Hlen Hk;
    [done|].
  destruct Hn as [Hc Hn].
  rewrite plus_loop_eq, string_app_cons, run_Class. unfold Regex.digit at 1.
  rewrite Hc, ltb_tail. destruct n as [|d n'].
  - rewrite string_app_nil_l. destruct fuel as [|fuel]; [done|].
    by rewrite digit_run_fails.
  - destruct fuel as [|fuel]; [simpl in Hlen; lia|].
    rewrite (IH fuel rest caps k res); [done| |done| |done].
    + split; [done|exact Hn].
    + simpl in *. lia.
Qed.

Lemma lazy_skip mid : ∀ fuel rest caps k res,
  all_units (fun c => Regex.dot c = true) mid →
  (∀ a b, mid = a ++ b → b ≠ "" → k (b ++ rest) caps = None) →
  (String.length mid ≤ fuel)%nat →
  k rest caps = Some res →
  Regex.lazy_loop (Regex.run (Regex.Class Regex.dot)) k fuel (mid ++ rest) caps
  = Some res.
Proof.
  induction mid as [|c mid IH]; intros fuel rest caps k res Hmid Hfail Hlen Hk.
  - rewrite string_app_nil_l, lazy_loop_eq. by rewrite Hk.
  - destruct Hmid as [Hc Hmid]. rewrite lazy_loop_eq.
    rewrite (Hfail "" (String c mid)) by done.
    destruct fuel as [|fuel]; [simpl in Hlen; lia|].
    rewrite string_app_cons, run_Class, Hc, ltb_tail.
    apply IH; [done| |simpl in Hlen; lia|done].
    intros a b -> Hb. apply (Hfail (String c a) b); [|done].
    by rewrite string_app_cons.
Qed.

Lemma take_prefix (n rest : string) :
  Js.take (String.length (n ++ rest) - String.length rest) (n ++ rest) = n.
Proof.
  rewrite string_app_length.
  replace (String.length n + String.length rest - String.length rest)%nat
    with (String.length n) by lia.
  induction n as [|c n IH]; [by destruct rest|].
  rewrite string_app_cons. simpl. by rewrite IH.
Qed.

Lemma starts_outside_literal (c : ascii) (l rest : string) :
  Js.isDigit c = false → starts_outside Js.isDigit (String c l ++ rest).
Proof. intros Hc. by rewrite string_app_cons. Qed.

(** The pattern at the head of a combined phrase. *)
Lemma match_here_phrase (n mid m post : string) :
  Digits n → Digits m →
  all_units (fun c => Regex.dot c = true ∧ Js.isDigit c = false) mid →
  Regex.match_here GitTracker.diffStatRegex
    (n ++ " insertion" ++ mid ++ m ++ " deletion" ++ post)
  = Some [n; m].
Proof.
  intros Hn Hm Hmid. unfold Regex.match_here, GitTracker.diffStatRegex.
  rewrite run_Cat, run_Group, run_Plus.
  apply plus_digits_greedy; [done|by apply starts_outside_literal| |].
  { rewrite string_app_length. lia. }
  rewrite take_prefix, run_Cat, run_Lit, run_Cat, run_LazyStar.
  apply lazy_skip.
  - clear -Hmid. induction mid as [|c mid IH]; [done|].
    destruct Hmid as [[Hc _] Hmid]. split; [done|by apply IH].
  - intros a b -> Hb. destruct b as [|c b]; [done|].
    apply all_units_app in Hmid as [_ [[_ Hc] _]].
    rewrite string_app_cons, run_Cat, run_Group, run_Plus.
    apply digit_run_fails. exact Hc.
  - rewrite string_app_length. lia.
  - rewrite run_Cat, run_Group, run_Plus.
    apply plus_digits_greedy; [done|by apply starts_outside_literal| |].
    { rewrite string_app_length. lia. }
    by rewrite take_prefix, run_Lit.
Qed.

(** A text that ends before a digit starts with a literal without digits
    when the two, continued, agree. *)
Lemma literal_prefix (l : string) : ∀ a d rest tail,
  all_units (fun c => Js.isDigit c = false) l → Js.isDigit d = true →
  a ++ String d rest = l ++ tail → ∃ a', a = l ++ a'.
Proof.
  induction l as [|e l IH]; intros a d rest tail Hl Hd Heq.
  - exists a. by rewrite string_app_nil_l.
  - destruct Hl as [He Hl]. rewrite string_app_cons in Heq.
    destruct a as [|f a].
    + rewrite string_app_nil_l in Heq. injection Heq as -> _. congruence.
    + rewrite string_app_cons in Heq. injection Heq as -> Heq.
      destruct (IH _ _ _ _ Hl Hd Heq) as [a' ->]. exists a'.
      by rewrite string_app_cons.
Qed.

Lemma match_before_number (a : string) : ∀ n' d rest tail,
  a ≠ "" → Digits n' → Js.isDigit d = true →
  a ++ String d rest = n' ++ " insertion" ++ tail →
  Contains " insertion" a ∨ all_units (fun c => Js.isDigit c = true) a.
Proof.
  induction a as [|c a IH]; intros n' d rest tail Ha [Hne Hn'] Hd Heq; [done|].
  destruct n' as [|c' n']; [done|]. destruct Hn' as [Hc' Hn'].
  rewrite (string_app_cons c a), (string_app_cons c' n') in Heq.
  injection Heq as -> Heq.
  destruct a as [|c2 a]; [by right|].
  destruct n' as [|c3 n'].
  - rewrite string_app_nil_l in Heq.
    apply literal_prefix in Heq as [a' Heq]; [|by vm_compute|done].
    left. exists (String c' ""), a'. rewrite Heq.
    by rewrite (string_app_cons c' ""), string_app_nil_l.
  - destruct (IH (String c3 n') d rest tail) as [(p & q & Hc)|Hall]; try done.
    + left. exists (String c' p), q. rewrite Hc. by rewrite (string_app_cons c' p).
    + by right.
Qed.

Lemma last_unit (s : string) : s ≠ "" → ∃ p c, s = p ++ String c "".
Proof.
  induction s as [|c s IH]; [done|]. intros _. destruct s as [|d s].
  - by exists "", c.
  - destruct IH as (p & e & Heq); [done|]. exists (String c p), e.
    by rewrite string_app_cons, <- Heq.
Qed.

Lemma search_skip (r : Regex.re) (pre rest : string) :
  (∀ a b, pre = a ++ b → b ≠ "" → Regex.match_here r (b ++ rest) = None) →
  Regex.search r (pre ++ rest) = Regex.search r rest.
Proof.
  induction pre as [|c pre IH]; intros Hfail; [by rewrite string_app_nil_l|].
  rewrite string_app_cons. simpl.
  rewrite <- string_app_cons, (Hfail "" (String c pre)) by done.
  apply IH. intros a b -> Hb.
  apply (Hfail (String c a) b); [|done]. by rewrite string_app_cons.
Qed.

Lemma search_head (r : Regex.re) (s : string) (caps : Regex.Captures) :
  Regex.match_here r s = Some caps → Regex.search r s = Some caps.
Proof. intros Hm. destruct s; simpl; by rewrite Hm. Qed.

(** The leftmost match of the pattern in a text that holds a combined
    phrase with no earlier [ insertion]. *)
Lemma search_phrase (pre n mid m post : string) :
  ¬ Contains " insertion" pre → ends_outside Js.isDigit pre →
  Digits n → Digits m →
  all_units (fun c => Regex.dot c = true ∧ Js.isDigit c = false) mid →
  Regex.search GitTracker.diffStatRegex
    (pre ++ n ++ " insertion" ++ mid ++ m ++ " deletion" ++ post)
  = Some [n; m].
Proof.
  intros Hpre Hend Hn Hm Hmid. rewrite search_skip.
  { by apply search_head, match_here_phrase. }
  intros a b -> Hb.
  destruct (Regex.match_here GitTracker.diffStatRegex _) as [caps|] eqn:Hmatch;
    [exfalso|done].
  unfold Regex.match_here in Hmatch.
  apply run_sound in Hmatch as (w & tail & _ & Heq & Hw & _).
  simpl in Hw.
  destruct Hw as (n' & w1 & -> & (ns & Hne & -> & Hns) & ins & w2 & -> & -> & _).
  destruct (flatten_units _ _ Hns) as [Hn1 Hn2].
  destruct Hn as [Hnne Hn]. destruct n as [|d n]; [done|]. destruct Hn as [Hd _].
  rewrite string_app_cons, !string_app_assoc in Heq.
  apply match_before_number in Heq as [(p & q & ->)|Hall];
    [| |done|by split; auto|done].
  - apply Hpre. exists (a ++ p), q. by rewrite !string_app_assoc.
  - destruct (last_unit b Hb) as (p & c & ->).
    apply all_units_app in Hall as [_ [Hc _]].
    specialize (Hend (a ++ p) c). rewrite string_app_assoc in Hend.
    rewrite Hend in Hc; done.
Qed.

Lemma digit_not_sign (c : ascii) :
  Js.isDigit c = true →
  Js.isSpace c = false ∧ c ≠ "-"%char ∧ c ≠ "+"%char
  ∧ 0 ≤ Z.of_nat (nat_of_ascii c) - 48 ≤ 9.
Proof.
  unfold Js.isDigit, Js.isSpace. intros [H1 H2]%andb_true_iff.
  apply Nat.leb_le in H1, H2. split_and!.
  - repeat (apply orb_false_iff; split);
      [apply andb_false_iff; right; apply Nat.leb_gt; lia
      |apply Nat.eqb_neq; lia|apply Nat.eqb_neq; lia].
  - intros ->. vm_compute in H1. lia.
  - intros ->. vm_compute in H1. lia.
  - lia.
  - lia.
Qed.

Lemma parseInt_digits (n : string) :
  Digits n →
  Js.parseInt n = match Js.leadingDigits n None with
                  | Some v => Js.toNumber v
                  | None => Js.NaN
                  end.
Proof.
  intros [Hne Hn]. destruct n as [|c n]; [done|]. destruct Hn as [Hc _].
  destruct (digit_not_sign c Hc) as (Hsp & Hm & Hp & _).
  unfold Js.parseInt. simpl Js.trimStart. rewrite Hsp.
  destruct (Ascii.eqb_spec c "-"%char) as [|_]; [done|].
  destruct (Ascii.eqb_spec c "+"%char) as [|_]; [done|].
  destruct c as [[] [] [] [] [] [] [] []]; done.
Qed.

Lemma pretty_N_char_digit (k : N) :
  (k < 10)%N →
  Js.isDigit (pretty_N_char k) = true
  ∧ Z.of_nat (nat_of_ascii (pretty_N_char k)) - 48 = Z.of_N k.
Proof.
  intros Hk. destruct k as [|p]; [by vm_compute|].
  do 4 (try destruct p as [p|p|]); try lia; by vm_compute.
Qed.

Lemma leadingDigits_pretty_go (x : N) : ∀ s,
  Js.leadingDigits (pretty_N_go x s) None
  = Js.leadingDigits s (if decide (x = 0%N) then None else Some (Z.of_N x)).
Proof.
  induction (N.lt_wf_0 x) as [x _ IH]. intros s.
  destruct (decide (x = 0%N)) as [->|Hx]; [by rewrite pretty_N_go_0|].
  rewrite pretty_N_go_step by lia.
  rewrite IH by (apply N.div_lt; lia).
  destruct (pretty_N_char_digit (x `mod` 10)%N) as [Hd Hv].
  { apply N.mod_lt. lia. }
  simpl Js.leadingDigits. rewrite Hd, Hv. f_equal. f_equal.
  pose proof (N.div_mod x 10) as Hdm.
  destruct (decide ((x `div` 10)%N = 0%N)) as [H0|H0]; simpl; lia.
Qed.

Lemma pretty_go_digits (x : N) : ∀ s,
  all_units (fun c => Js.isDigit c = true) s →
  all_units (fun c => Js.isDigit c = true) (pretty_N_go x s).
Proof.
  induction (N.lt_wf_0 x) as [x _ IH]. intros s Hs.
  destruct (decide (x = 0%N)) as [->|Hx]; [by rewrite pretty_N_go_0|].
  rewrite pretty_N_go_step by lia. apply IH; [apply N.div_lt; lia|].
  split; [|done]. apply pretty_N_char_digit, N.mod_lt. lia.
Qed.

Lemma pretty_go_nonempty (x : N) : ∀ s, s ≠ "" → pretty_N_go x s ≠ "".
Proof.
  induction (N.lt_wf_0 x) as [x _ IH]. intros s Hs.
  destruct (decide (x = 0%N)) as [->|Hx]; [by rewrite pretty_N_go_0|].
  rewrite pretty_N_go_step by lia. apply IH; [apply N.div_lt; lia|done].
Qed.

Lemma pretty_Digits (a : N) : Digits (pretty a).
Proof.
  unfold pretty, pretty_N. destruct (decide (a = 0%N)) as [->|Ha].
  - split; [done|]. by vm_compute.
  - split.
    + rewrite pretty_N_go_step by lia. by apply pretty_go_nonempty.
    + by apply pretty_go_digits.
Qed.

Lemma parseInt_pretty (a : N) : Js.parseInt (pretty a) = Js.toNumber (Z.of_N a).
Proof.
  rewrite parseInt_digits by apply pretty_Digits.
  unfold pretty, pretty_N. destruct (decide (a = 0%N)) as [->|Ha]; [done|].
  rewrite leadingDigits_pretty_go. by rewrite decide_False.
Qed.

Lemma ends_outside_last (cls : ascii → bool) (p : string) (c : ascii) :
  cls c = false → ends_outside cls (p ++ String c "").
Proof.
  intros Hc q d Heq.
  assert (∀ x y : string, ∀ e f, x ++ String e "" = y ++ String f "" → e = f) as Hlast.
  { induction x as [|g x IH]; intros [|h y] e f Hxy.
    - rewrite !string_app_nil_l in Hxy. by injection Hxy.
    - rewrite string_app_nil_l, string_app_cons in Hxy. injection Hxy as _ Hxy.
      destruct y; [rewrite string_app_nil_l in Hxy|rewrite string_app_cons in Hxy];
        discriminate.
    - rewrite string_app_nil_l, string_app_cons in Hxy. injection Hxy as _ Hxy.
      destruct x; [rewrite string_app_nil_l in Hxy|rewrite string_app_cons in Hxy];
        discriminate.
    - rewrite !string_app_cons in Hxy. injection Hxy as _ Hxy. by eapply IH. }
  by rewrite <- (Hlast _ _ _ _ Heq).
Qed.

(** X4. On statistics that hold the combined phrase, a number followed
    by [ insertion], then units that are neither digits nor line ends, then
    a number followed by [ deletion], with no [ insertion] before and the
    text before not ending with a digit, [parseDiffStats] reads the two
    numbers, and [getCommitDetails] gives them as [linesAdded] and
    [linesDeleted]: as the Numbers that [parseInt] makes of them, which
    are the numbers themselves up to [2^53] and beyond are rounded, to
    values that differ from them by no more than their part in [2^53], or
    are infinite. *)
Theorem parseDiffStats_combined (pre mid post : string) (a b : N) :
  ¬ Contains " insertion" pre → ends_outside Js.isDigit pre →
  all_units (fun c => Regex.dot c = true ∧ Js.isDigit c = false) mid →
  let diffStats :=
    pre ++ pretty a ++ " insertion" ++ mid ++ pretty b ++ " deletion" ++ post in
  GitTracker.parseDiffStats diffStats
  = (Js.toNumber (Z.of_N a), Js.toNumber (Z.of_N b))
  ∧ (∀ git root hash details,
       GitTracker.showStat git root hash = Js.Returned diffStats →
       (GitTracker.getCommitDetails git root hash).1 = Some details →
       GitTracker.linesAdded details = Js.toNumber (Z.of_N a)
       ∧ GitTracker.linesDeleted details = Js.toNumber (Z.of_N b))
  ∧ (∀ n : N, Z.of_N n ≤ 2 ^ 53 → Js.toNumber (Z.of_N n) = Z.of_N n)
  ∧ (∀ (n : N) (v : Z), Js.toNumber (Z.of_N n) = Js.Finite v →
       2 ^ 53 * Z.abs (v - Z.of_N n) ≤ Z.of_N n).
Proof.
  intros Hpre Hend Hmid diffStats.
  assert (GitTracker.parseDiffStats diffStats
          = (Js.toNumber (Z.of_N a), Js.toNumber (Z.of_N b))) as Hparse.
  { unfold GitTracker.parseDiffStats. subst diffStats.
    rewrite search_phrase by (done || apply pretty_Digits).
    simpl. by rewrite !parseInt_pretty, !toNumber_truthy_or_zero. }
  split; [done|]. split_and!.
  - intros git root hash details Hshow Hd.
    unfold GitTracker.getCommitDetails in Hd. rewrite Hshow, Hparse in Hd.
    destruct (GitTracker.logFormat git root GitTracker.Subject hash); [|done].
    destruct (GitTracker.logFormat git root GitTracker.AuthorName hash); [|done].
    destruct (GitTracker.logFormat git root GitTracker.AuthorEmail hash); [|done].
    destruct (GitTracker.logFormat git root GitTracker.AuthorTime hash); [|done].
    simpl in Hd. by injection Hd as <-.
  - intros n Hn. apply toNumber_exact. lia.
  - intros n v Hv. apply toNumber_nearest in Hv. lia.
Qed.

End MatchFacts.

(** ** The output of the commands *)

Section OutputFacts.

Lemma rev_string_acc (s : string) : ∀ acc,
  Js.rev_string s acc = Js.rev_string s "" ++ acc.
Proof.
  induction s as [|c s IH]; intros acc; simpl; [by rewrite string_app_nil_l|].
  rewrite IH, (IH (String c "")), string_app_assoc.
  by rewrite (string_app_cons c ""), string_app_nil_l.
Qed.

Lemma rev_string_app (a b : string) :
  Js.rev_string (a ++ b) "" = Js.rev_string b "" ++ Js.rev_string a "".
Proof.
  induction a as [|c a IH].
  - by rewrite string_app_nil_l, string_app_nil_r.
  - rewrite string_app_cons. simpl.
    rewrite (rev_string_acc (a ++ b) (String c "")), IH,
      (rev_string_acc a (String c "")).
    by rewrite string_app_assoc.
Qed.

Lemma rev_string_involutive (s : string) : Js.rev_string (Js.rev_string s "") "" = s.
Proof.
  induction s as [|c s IH]; [done|]. simpl.
  rewrite (rev_string_acc s (String c "")), rev_string_app, IH. simpl.
  by rewrite (string_app_cons c ""), string_app_nil_l.
Qed.

Lemma trimStart_Blank (ws s : string) : Blank ws → Js.trimStart (ws ++ s) = Js.trimStart s.
Proof.
  induction ws as [|c ws IH]; intros Hws; [by rewrite string_app_nil_l|].
  destruct Hws as [Hc Hws]. rewrite string_app_cons. simpl. rewrite Hc. by apply IH.
Qed.

Lemma trimStart_outside (s : string) : starts_outside Js.isSpace s → Js.trimStart s = s.
Proof. destruct s as [|c s]; [done|]. simpl. by intros ->. Qed.

Lemma Blank_rev (ws : string) : Blank ws → Blank (Js.rev_string ws "").
Proof.
  induction ws as [|c ws IH]; [done|]. intros [Hc Hws]. simpl.
  rewrite (rev_string_acc ws (String c "")). apply all_units_app. split; [by apply IH|done].
Qed.

Lemma starts_outside_rev (cls : ascii → bool) (s : string) :
  ends_outside cls s → starts_outside cls (Js.rev_string s "").
Proof.
  intros Hend. destruct (decide (s = "")) as [->|Hne]; [done|].
  destruct (last_unit s Hne) as (q & c & ->).
  rewrite rev_string_app. simpl. by apply (Hend q c).
Qed.

Lemma starts_outside_app (cls : ascii → bool) (a b : string) :
  a ≠ "" → starts_outside cls a → starts_outside cls (a ++ b).
Proof. destruct a as [|c a]; [done|]. intros _ Hc. by rewrite string_app_cons. Qed.

(** [trim] takes the white space off both ends. *)
Lemma trim_core (pre core post : string) :
  Blank pre → Blank post →
  starts_outside Js.isSpace core → ends_outside Js.isSpace core →
  Js.trim (pre ++ core ++ post) = core.
Proof.
  intros Hpre Hpost Hstart Hend. unfold Js.trim.
  rewrite trimStart_Blank by done.
  destruct (decide (core = "")) as [->|Hne].
  - rewrite string_app_nil_l, <- (string_app_nil_r post), trimStart_Blank by done.
    done.
  - rewrite (trimStart_outside (core ++ post)) by (by apply starts_outside_app).
    rewrite rev_string_app, trimStart_Blank by (by apply Blank_rev).
    rewrite trimStart_outside by (by apply starts_outside_rev).
    apply rev_string_involutive.
Qed.

Lemma count_char_app (c : ascii) (a b : string) :
  Js.count_char c (a ++ b) = Js.count_char c a + Js.count_char c b.
Proof.
  induction a as [|d a IH]; [by rewrite string_app_nil_l|].
  rewrite string_app_cons. simpl. lia.
Qed.

Lemma count_unlines (lines : list string) :
  Forall (fun l => Js.count_char "010"%char l = 0) lines →
  Js.count_char "010"%char (unlines lines) = Z.of_nat (length lines).
Proof.
  unfold unlines. induction 1 as [|l lines Hl Hlines IH]; [done|].
  simpl Regex.flatten. simpl length. rewrite !count_char_app, IH, Hl. simpl. lia.
Qed.

Lemma Digits_dense (n : string) :
  Digits n → starts_outside Js.isSpace n ∧ ends_outside Js.isSpace n.
Proof.
  intros [Hne Hn]. split.
  - destruct n as [|c n]; [done|]. destruct Hn as [Hc _].
    by destruct (digit_not_sign c Hc) as (Hsp & _).
  - intros q c ->. apply all_units_app in Hn as [_ [Hc _]].
    by destruct (digit_not_sign c Hc) as (Hsp & _).
Qed.

(** X3. When [getCommitDetails] gives details, with the author time
    printed as a decimal number of seconds, followed by white space only,
    the timestamp is the product by 1000 of the Number that [parseInt]
    makes of it: this number times 1000, in milliseconds, when that is at
    most [2^53]; beyond, the number and the product are rounded as doubles
    are, to a value that differs from it by no more than its part in
    [2^51], or is infinite. With the statistics printed as lines that each end with
    a line feed, [filesChanged] is the number of these lines, the summary
    line counted. *)
Theorem getCommitDetails_reads_output (git : GitTracker.Git) (root hash : string)
    (seconds : N) (post : string) (lines : list string)
    (details : GitTracker.CommitDetails) :
  GitTracker.logFormat git root GitTracker.AuthorTime hash
  = Js.Returned (pretty seconds ++ post) →
  Blank post →
  GitTracker.showStat git root hash = Js.Returned (unlines lines) →
  Forall (fun l => Js.count_char "010"%char l = 0) lines →
  (GitTracker.getCommitDetails git root hash).1 = Some details →
  GitTracker.timestamp details = Js.mul (Js.toNumber (Z.of_N seconds)) 1000
  ∧ (Z.of_N seconds * 1000 ≤ 2 ^ 53 →
     GitTracker.timestamp details = Js.Finite (Z.of_N seconds * 1000))
  ∧ (∀ v, GitTracker.timestamp details = Js.Finite v →
          2 ^ 51 * Z.abs (v - Z.of_N seconds * 1000) ≤ Z.of_N seconds * 1000)
  ∧ GitTracker.filesChanged details = Z.of_nat (length lines).
Proof.
  intros Htime Hpost Hstat Hlines Hd.
  unfold GitTracker.getCommitDetails in Hd. rewrite Htime, Hstat in Hd.
  destruct (GitTracker.logFormat git root GitTracker.Subject hash); [|done].
  destruct (GitTracker.logFormat git root GitTracker.AuthorName hash); [|done].
  destruct (GitTracker.logFormat git root GitTracker.AuthorEmail hash); [|done].
  destruct (GitTracker.parseDiffStats _) as [added deleted].
  simpl in Hd. injection Hd as <-. simpl.
  destruct (Digits_dense _ (pretty_Digits seconds)) as [Hs He].
  rewrite <- (string_app_nil_l (pretty seconds ++ _)), trim_core; try done.
  rewrite parseInt_pretty, count_unlines by done.
  split_and!; [done| | |done].
  - intros Hsafe. apply mul_exact; lia.
  - intros v Hv. apply mul_toNumber_near; [lia|lia|done].
Qed.

(** X2. [getCurrentCommit] and [getBranch] return the output of their
    command without the white space around it: for an output
    [pre ++ core ++ post] with [pre] and [post] white space and [core]
    neither starting nor ending with white space, the result is [core]. *)
Theorem head_and_branch_trimmed (git : GitTracker.Git) (root : string)
    (pre core post : string) :
  Blank pre → Blank post →
  starts_outside Js.isSpace core → ends_outside Js.isSpace core →
  (GitTracker.revParseHead git root = Js.Returned (pre ++ core ++ post) →
   GitTracker.getCurrentCommit git root = Some core)
  ∧ (GitTracker.branchShowCurrent git root = Js.Returned (pre ++ core ++ post) →
     GitTracker.getBranch git root = Some core).
Proof.
  intros Hpre Hpost Hs He.
  unfold GitTracker.getCurrentCommit, GitTracker.getBranch.
  split; intros ->; by rewrite trim_core.
Qed.

End OutputFacts.

(** ** The logs of accepted events *)

Section ResolutionFacts.
Variable sep : string.

(** X10. An accepted event in a document enqueues one log at the end of the
    queue, with the file and the language of the document, the editor
    [vscode] and the time of the event. When the file lies in a known root
    the log carries the longest such root as project, with the commit and
    the branch cached for this root; when there is no git tracker, or no
    known root but the empty string encloses the file, it carries the workspace folder of the
    document (the empty string without one) and neither commit nor
    branch. *)
(** X10. An accepted event in a document enqueues one log at the end of the
    queue, with the file and the language of the document, the editor
    [vscode] and the time of the event. When the file lies in a known root
    the log carries the longest such root as project, with the commit and
    the branch cached for this root; when there is no git tracker, or no
    known root but the empty string encloses the file, it carries the workspace folder of the
    document (the empty string without one) and neither commit nor
    branch. *)
Theorem recorded_log_resolution (now : Z) (doc : Tracker.TextDocument)
    (git : option GitTracker.t) (tr : Tracker.t) :
  Tracker.debounceInterval ≤ now - Tracker.lastActivityTime tr →
  let result := Tracker.handleActivity sep now (Some doc) git tr in
  let file := Tracker.fileName doc in
  ∃ log,
    Tracker.queue result.1 = (Tracker.queue tr ++ [log])%list
    ∧ (al_filePath log = file ∧ al_language log = Tracker.languageId doc
       ∧ al_editor log = "vscode" ∧ al_timestamp log = now)
    ∧ (∀ g r, git = Some g → GitTracker.getGitRootForPath sep g file = Some r →
         r ≠ "" →
         al_projectPath log = r
         ∧ LongestMatch sep (GitTracker.gitRoots g) file (Some r)
         ∧ al_commitHash log = GitTracker.currentCommit g !! r
         ∧ al_branch log = GitTracker.currentBranch g !! r)
    ∧ (git = None
       ∨ (∃ g, git = Some g
               ∧ (GitTracker.getGitRootForPath sep g file = None
                  ∨ GitTracker.getGitRootForPath sep g file = Some "")) →
       al_projectPath log = Js.or_else (Tracker.workspaceFolder doc) ""
       ∧ al_commitHash log = None ∧ al_branch log = None).
Proof.
  intros Hgap result file. subst result. unfold Tracker.handleActivity.
  rewrite (proj2 (Z.ltb_ge _ _) Hgap). cbv zeta. fold file.
  eexists. split; [reflexivity|]. simpl. split; [done|]. split.
  - intros g r -> Hroot Hr. simpl.
    rewrite root_of_commit_query, root_of_branch_query, Hroot.
    assert (Js.truthy (Some r) = true) as ->.
    { simpl. by apply negb_true_iff, String.eqb_neq. }
    pose proof (getGitRootForPath_spec sep g file) as Hbest.
    rewrite Hroot in Hbest. split; [done|]. split; [exact Hbest|done].
  - intros [->|(g & -> & [Hroot|Hroot])]; simpl; [done| |].
    + by rewrite root_of_commit_query, root_of_branch_query, Hroot.
    + by rewrite root_of_commit_query, root_of_branch_query, Hroot.
Qed.

End ResolutionFacts.

Section TimeFacts.
Variable sep : string.

Lemma totalDuration_app a b : totalDuration (a ++ b) = totalDuration a + totalDuration b.
Proof. induction a as [|x a IH]; simpl; lia. Qed.

Lemma Consecutive_bound gap b b' logs :
  b ≤ b' → Consecutive gap b logs → Consecutive gap b' logs.
Proof.
  intros Hb. induction logs as [|x logs IH]; [done|].
  intros (Hx & Hall & Hrest). split_and!; [lia|done|by apply IH].
Qed.

Lemma Consecutive_snoc gap b logs log :
  0 ≤ gap → Consecutive gap b logs →
  b + gap ≤ al_timestamp log → b ≤ al_timestamp log - al_duration log →
  Consecutive gap (al_timestamp log) (logs ++ [log]).
Proof.
  intros Hpos Hlogs Hgap Hdur. induction logs as [|x logs IH]; simpl.
  - split_and!; [lia|constructor|done].
  - destruct Hlogs as (Hx & Hall & Hrest). split_and!.
    + lia.
    + apply Forall_app. split; [done|]. apply Forall_singleton. lia.
    + by apply IH.
Qed.

(** One call: the queue grows by at most the log of the event, whose
    stretch lies between the last accepted event and this one. *)
Lemma after_time (tr : Tracker.t) (c : Call) :
  let tr' := after sep tr c in
  Tracker.lastActivityTime tr ≤ Tracker.lastActivityTime tr'
  ∧ totalDuration (Tracker.queue tr) ≤ totalDuration (Tracker.queue tr')
  ∧ totalDuration (Tracker.queue tr') - totalDuration (Tracker.queue tr)
    ≤ Tracker.lastActivityTime tr' - Tracker.lastActivityTime tr
  ∧ (Tracker.lastActivityTime tr = 0 →
     totalDuration (Tracker.queue tr') = totalDuration (Tracker.queue tr))
  ∧ (Consecutive 2000 (Tracker.lastActivityTime tr) (Tracker.queue tr) →
     Consecutive 2000 (Tracker.lastActivityTime tr') (Tracker.queue tr')).
Proof.
  cbv zeta.
  destruct (Z.ltb_spec (call_now c - Tracker.lastActivityTime tr)
              Tracker.debounceInterval) as [Hlt|Hge].
  - rewrite after_debounced by done. split_and!; try done; lia.
  - unfold after.
    destruct (handleActivity_accepted sep (call_now c) (call_editor c)
                (call_git c) tr Hge) as (Hlast & _ & _ & _ & Hq).
    rewrite Hlast. unfold Tracker.debounceInterval in Hge.
    destruct (call_editor c) as [doc|].
    + destruct Hq as (log & -> & _ & _ & _ & Hts & Hd).
      rewrite totalDuration_app. simpl.
      assert (0 ≤ al_duration log
              ≤ call_now c - Tracker.lastActivityTime tr) as Hdur.
      { rewrite Hd. destruct (_ && _); lia. }
      split_and!; try lia.
      * intros H0. rewrite Hd, H0. simpl. lia.
      * intros Hcons. rewrite <- Hts.
        apply (Consecutive_snoc _ (Tracker.lastActivityTime tr)); [lia|done|lia|lia].
    + destruct Hq as [-> _]. split_and!; try lia.
      intros Hcons. eapply Consecutive_bound; [|done]. lia.
Qed.

Lemma feed_time (past : list Call) : ∀ tr,
  let tr' := feed sep tr past in
  Tracker.lastActivityTime tr ≤ Tracker.lastActivityTime tr'
  ∧ totalDuration (Tracker.queue tr) ≤ totalDuration (Tracker.queue tr')
  ∧ totalDuration (Tracker.queue tr') - totalDuration (Tracker.queue tr)
    ≤ Tracker.lastActivityTime tr' - Tracker.lastActivityTime tr
  ∧ (Consecutive 2000 (Tracker.lastActivityTime tr) (Tracker.queue tr) →
     Consecutive 2000 (Tracker.lastActivityTime tr') (Tracker.queue tr')).
Proof.
  induction past as [|c past IH]; intros tr; cbv zeta.
  - simpl. split_and!; try done; lia.
  - rewrite feed_cons.
    destruct (after_time tr c) as (H1 & H2 & H3 & _ & H5).
    destruct (IH (after sep tr c)) as (I1 & I2 & I3 & I4).
    split_and!; try lia. intros Hcons. by apply I4, H5.
Qed.

Lemma Consecutive_lookup gap bound logs : Consecutive gap bound logs →
  (∀ a, a ∈ logs → al_timestamp a ≤ bound)
  ∧ ∀ i j a b, logs !! i = Some a → logs !! j = Some b → (i < j)%nat →
      al_timestamp a + gap ≤ al_timestamp b
      ∧ al_timestamp a ≤ al_timestamp b - al_duration b.
Proof.
  induction logs as [|x logs IH]; simpl.
  - intros _. split; [intros a Ha; by apply elem_of_nil in Ha|].
    intros i j a b Hi. by rewrite lookup_nil in Hi.
  - intros (Hx & Hall & Hrest). destruct (IH Hrest) as [IH1 IH2]. split.
    + intros a Ha. apply elem_of_cons in Ha as [->|Ha]; [done|by apply IH1].
    + intros i j a b Hi Hj Hij. destruct j as [|j]; [lia|]. simpl in Hj.
      destruct i as [|i]; simpl in Hi.
      * injection Hi as <-. rewrite Forall_forall in Hall.
        apply Hall. by eapply list_elem_of_lookup_2.
      * apply (IH2 i j); [done|done|lia].
Qed.

(** X11. After any history of a new tracker, the durations of the logs
    in the queue add up to no more than the time between the first and the
    last accepted event; [lastActivityTime] is the time of the last
    accepted event and no log is dated after it; and of two logs in the
    queue the later is dated at least 2000 ms after the earlier, which is
    dated no later than the start [timestamp - duration] of the later: no
    stretch of time is counted twice. *)
Theorem recorded_time_within_elapsed (past : list Call) :
  let tr := feed sep Tracker.new past in
  let times := acceptedTimes sep Tracker.new past in
  let queue := Tracker.queue tr in
  0 ≤ totalDuration queue ≤ default 0 (last times) - default 0 (head times)
  ∧ Tracker.lastActivityTime tr = default 0 (last times)
  ∧ (∀ a, a ∈ queue → al_timestamp a ≤ Tracker.lastActivityTime tr)
  ∧ (∀ i j a b, queue !! i = Some a → queue !! j = Some b → (i < j)%nat →
       al_timestamp a + 2000 ≤ al_timestamp b
       ∧ al_timestamp a ≤ al_timestamp b - al_duration b).
Proof.
  cbv zeta.
  destruct (feed_lastActivityTime sep past Tracker.new) as [Hlast _]; [by left|].
  simpl in Hlast.
  destruct (feed_time past Tracker.new) as (_ & Hpos & _ & Hcons).
  destruct (Consecutive_lookup _ _ _ (Hcons I)) as [Hbound Hpairs].
  split_and!; [exact Hpos| |done|done|done].
  clear Hpos Hcons Hbound Hpairs. rewrite <- Hlast. clear Hlast.
  induction past as [|c past IH]; [done|].
  rewrite feed_cons, acceptedTimes_cons.
  destruct (Z.ltb_spec (call_now c - Tracker.lastActivityTime Tracker.new)
              Tracker.debounceInterval) as [Hlt|Hge].
  - rewrite after_debounced by done. exact IH.
  - simpl head. simpl default.
    destruct (after_time Tracker.new c) as (_ & _ & _ & H0 & _).
    specialize (H0 eq_refl). simpl in H0.
    destruct (feed_time past (after sep Tracker.new c)) as (_ & _ & H3 & _).
    rewrite (after_accepted sep _ c Hge) in H3. lia.
Qed.

End TimeFacts.

(** ** The phases of a cycle *)

Section FlushFacts.
Context {DB R : Type} `{Database DB} `{Remote R}.

Lemma storeCalls_app (a b : list Effect) :
  storeCalls (a ++ b) = (storeCalls a ++ storeCalls b)%list.
Proof. apply omap_app. Qed.

Lemma requests_app (a b : list Effect) :
  requests (a ++ b) = (requests a ++ requests b)%list.
Proof. apply omap_app. Qed.

Lemma flush_outcome (logs : list ActivityLog) (st : Tracker.Stores DB R) :
  let res := Tracker.flush logs st in
  storeCalls res.1.2 = map InsertActivity logs
  ∧ requests res.1.2 = []
  ∧ res.2 = Js.Returned tt
  ∧ Tracker.db res.1.1 = inserted logs (Tracker.db st)
  ∧ Tracker.remote res.1.1 = Tracker.remote st.
Proof.
  revert st. induction logs as [|log logs IH]; intros st; [done|].
  cbv zeta. simpl.
  unfold Tracker.bind, Tracker.try_catch, Tracker.update, Tracker.emit.
  unfold inserted. simpl fold_left. fold (inserted logs).
  destruct (insertActivity (Tracker.db st) log) as [db' [[]|]]; simpl;
    specialize (IH (Tracker.mkStores db' (Tracker.remote st)));
    cbv zeta in IH; simpl in IH;
    destruct (Tracker.flush logs _) as [[st2 es2] out]; simpl in *;
    destruct IH as (I1 & I2 & I3 & I4 & I5);
    split_and!; try done; by rewrite I1.
Qed.

(** X15. The first part of [syncLoop] hands every log taken from the
    queue to [insertActivity], once and in the order of the queue, also
    after an insertion threw; it makes no request, never throws, and has
    no other effect than these insertions and the report of a failed
    one. *)
Theorem flush_inserts_every_log (logs : list ActivityLog) (st : Tracker.Stores DB R) :
  let res := Tracker.flush logs st in
  storeCalls res.1.2 = map InsertActivity logs
  ∧ requests res.1.2 = []
  ∧ res.2 = Js.Returned tt
  ∧ Tracker.db res.1.1 = inserted logs (Tracker.db st)
  ∧ Tracker.remote res.1.1 = Tracker.remote st
  ∧ (∀ e, e ∈ res.1.2 →
       (∃ log, log ∈ logs ∧ e = Store (InsertActivity log))
       ∨ e = LogError "Failed to save activity to DB").
Proof.
  destruct (flush_outcome logs st) as (Hcalls & Hnone & Hret & Hdb & Hremote).
  split_and!; try done. clear.
  revert st. induction logs as [|log logs IH]; intros st e.
  { simpl. intros He. by apply elem_of_nil in He. }
  simpl. unfold Tracker.bind, Tracker.try_catch, Tracker.update, Tracker.emit.
  destruct (insertActivity (Tracker.db st) log) as [db' [[]|]]; simpl;
    specialize (IH (Tracker.mkStores db' (Tracker.remote st)) e);
    destruct (Tracker.flush logs _) as [[st2 es2] out]; simpl in *;
    intros He; apply elem_of_cons in He as [->|He];
    try (left; exists log; split; [left|done]).
  - destruct (IH He) as [(l & Hl & ->) | ->]; [left|by right].
    exists l. split; [by right|done].
  - apply elem_of_cons in He as [->|He]; [by right|].
    destruct (IH He) as [(l & Hl & ->) | ->]; [left|by right].
    exists l. split; [by right|done].
Qed.
End FlushFacts.

Section PhaseFacts.
Context {DB R : Type} `{Database DB} `{Remote R}.
Variable LocalTZA : Z → bool → Z.

Lemma syncDaily_unfold (now later : Z) (st : Tracker.Stores DB R) :
  Tracker.syncDaily LocalTZA now later st
  = match getDailyAggregatedActivities (Tracker.db st) 30 with
    | Js.Thrown => (st, [], Js.Thrown)
    | Js.Returned dailyStats =>
        match Tracker.completedDayStats LocalTZA now dailyStats with
        | [] => (st, [], Js.Returned tt)
        | completed =>
            match request (Tracker.remote st) (dailyRequest completed) with
            | (r', Js.Returned _) =>
                let before := Tracker.daysAgoStr LocalTZA 7 later in
                match deleteActivitiesBeforeDate (Tracker.db st) before with
                | (db', Js.Returned _) =>
                    (Tracker.mkStores db' r',
                     [LogDebug "Syncing daily stats summaries";
                      Request (dailyRequest completed);
                      LogInfo "Synced daily stats summaries";
                      Store (DeleteActivitiesBeforeDate before);
                      LogInfo "Synced and cleaned up daily stats"],
                     Js.Returned tt)
                | (db', Js.Thrown) =>
                    (Tracker.mkStores db' r',
                     [LogDebug "Syncing daily stats summaries";
                      Request (dailyRequest completed);
                      LogInfo "Synced daily stats summaries";
                      Store (DeleteActivitiesBeforeDate before)],
                     Js.Thrown)
                end
            | (r', Js.Thrown) =>
                (Tracker.mkStores (Tracker.db st) r',
                 [LogDebug "Syncing daily stats summaries";
                  Request (dailyRequest completed);
                  LogError "Failed to sync daily stats"],
                 Js.Returned tt)
            end
        end
    end.
Proof.
  unfold Tracker.syncDaily, Tracker.bind, Tracker.query, Tracker.emit, Tracker.api,
    Tracker.update, Tracker.ret, ApiClient.syncDailyStats, ApiClient.send, dailyRequest.
  destruct (getDailyAggregatedActivities _ _) as [dailyStats|]; [|done].
  destruct (Tracker.completedDayStats LocalTZA now dailyStats) as [|stat rest];
    [done|]. simpl.
  destruct (request _ _) as [r' [[]|]]; simpl; [|done].
  by destruct (deleteActivitiesBeforeDate _ _) as [db' [[]|]].
Qed.

(** The file-activity phase, case by case. *)
Lemma syncFiles_cases (st : Tracker.Stores DB R) :
  Tracker.syncFiles st
  = match getAggregatedActivities (Tracker.db st) 50 with
    | Js.Thrown => (st, [], Js.Thrown)
    | Js.Returned [] => (st, [], Js.Returned tt)
    | Js.Returned batch =>
        match request (Tracker.remote st) (fileRequest batch) with
        | (r', Js.Returned _) =>
            match deleteAggregatedActivities (Tracker.db st) batch with
            | (db', Js.Returned _) =>
                (Tracker.mkStores db' r',
                 [LogDebug "Syncing aggregated file activities";
                  Request (fileRequest batch);
                  LogInfo "Synced file activity";
                  LogInfo "Synced file activity summaries";
                  Store (DeleteAggregatedActivities batch);
                  LogInfo "Synced file activities";
                  UpdateStatus "CodeChrono: Synced"],
                 Js.Returned tt)
            | (db', Js.Thrown) =>
                (Tracker.mkStores db' r',
                 [LogDebug "Syncing aggregated file activities";
                  Request (fileRequest batch);
                  LogInfo "Synced file activity";
                  LogInfo "Synced file activity summaries";
                  Store (DeleteAggregatedActivities batch)],
                 Js.Thrown)
            end
        | (r', Js.Thrown) =>
            (Tracker.mkStores (Tracker.db st) r',
             [LogDebug "Syncing aggregated file activities";
              Request (fileRequest batch);
              LogError "Failed to sync file activities";
              UpdateStatus "CodeChrono: Offline"],
             Js.Returned tt)
        end
    end.
Proof.
  destruct (getAggregatedActivities (Tracker.db st) 50) as [[|s batch]|] eqn:Hq.
  - unfold Tracker.syncFiles, Tracker.bind, Tracker.query. by rewrite Hq.
  - by rewrite (syncFiles_unfold st (s :: batch)).
  - unfold Tracker.syncFiles, Tracker.bind, Tracker.query. by rewrite Hq.
Qed.

(** The commit phase, case by case. *)
Lemma syncGitCommits_cases (st : Tracker.Stores DB R) :
  Tracker.syncGitCommits st
  = match getUnsyncedCommits (Tracker.db st) 20 with
    | Js.Thrown => (st, [], Js.Thrown)
    | Js.Returned [] => (st, [], Js.Returned tt)
    | Js.Returned commits =>
        match request (Tracker.remote st) (commitsRequest commits) with
        | (r', Js.Returned _) =>
            match omap gc_id commits with
            | [] =>
                (Tracker.mkStores (Tracker.db st) r',
                 [LogDebug "Syncing commits";
                  Request (commitsRequest commits);
                  LogInfo "Synced"; LogInfo "Synced commits";
                  LogInfo "Synced commits"],
                 Js.Returned tt)
            | ids =>
                match deleteCommits (Tracker.db st) ids with
                | (db', Js.Returned _) =>
                    (Tracker.mkStores db' r',
                     [LogDebug "Syncing commits";
                      Request (commitsRequest commits);
                      LogInfo "Synced"; LogInfo "Synced commits";
                      Store (DeleteCommits ids);
                      LogInfo "Synced commits"],
                     Js.Returned tt)
                | (db', Js.Thrown) =>
                    (Tracker.mkStores db' r',
                     [LogDebug "Syncing commits";
                      Request (commitsRequest commits);
                      LogInfo "Synced"; LogInfo "Synced commits";
                      Store (DeleteCommits ids)],
                     Js.Thrown)
                end
            end
        | (r', Js.Thrown) =>
            (Tracker.mkStores (Tracker.db st) r',
             [LogDebug "Syncing commits";
              Request (commitsRequest commits);
              LogError "Failed to sync commits"],
             Js.Returned tt)
        end
    end.
Proof.
  unfold Tracker.syncGitCommits, Tracker.bind, Tracker.query, Tracker.emit, Tracker.api,
    Tracker.update, Tracker.ret, ApiClient.syncCommits, ApiClient.send, commitsRequest.
  destruct (getUnsyncedCommits _ _) as [[|c commits]|]; [done| |done].
  generalize (omap gc_id (c :: commits)). intros ids. simpl.
  destruct (request _ _) as [r' [[]|]]; simpl; [|done].
  destruct ids as [|id ids]; simpl; [done|].
  by destruct (deleteCommits _ _) as [db' [[]|]].
Qed.

End PhaseFacts.

Section CommitPhaseFacts.
Context {DB R : Type} `{Database DB} `{Remote R}.

(** X19. In the commit phase the up to 20 commits fetched are sent in
    one request, when there are any, and deleted by their ids exactly
    when the request is acknowledged and some commit has an id; commits
    without an id are sent and not deleted; else the store is
    unchanged. *)
Theorem commit_deletion_gated (st : Tracker.Stores DB R) (commits : list GitCommit) :
  getUnsyncedCommits (Tracker.db st) 20 = Js.Returned commits →
  let res := Tracker.syncGitCommits st in
  let ids := omap gc_id commits in
  let acked := commits ≠ [] ∧ Acks (Tracker.remote st) (commitsRequest commits) in
  (∀ m, Request m ∈ res.1.2 ↔ commits ≠ [] ∧ m = commitsRequest commits)
  ∧ (∀ call, Store call ∈ res.1.2 ↔ acked ∧ ids ≠ [] ∧ call = DeleteCommits ids)
  ∧ (∀ id, id ∈ ids ↔ ∃ c, c ∈ commits ∧ gc_id c = Some id)
  ∧ (acked → ids ≠ [] →
     Tracker.db res.1.1 = (deleteCommits (Tracker.db st) ids).1)
  ∧ (¬ (acked ∧ ids ≠ []) → Tracker.db res.1.1 = Tracker.db st).
Proof.
  intros Hq res ids acked. subst res acked.
  rewrite syncGitCommits_cases, Hq. fold ids. unfold Acks.
  split_and!.
  - intros m. destruct commits as [|c rest] eqn:Hc.
    { simpl. split; [intros Hin; by apply elem_of_nil in Hin|by intros [? _]]. }
    destruct (request _ _) as [r' [[]|]]; simpl;
      [destruct ids as [|id ids'];
        [|destruct (deleteCommits _ _) as [db' [[]|]]]; simpl|];
      (split; [intros Hin; case_mem Hin; done | intros [_ ->]; mem]).
  - intros call. destruct commits as [|c rest] eqn:Hc.
    { simpl. split; [intros Hin; by apply elem_of_nil in Hin|by intros [[? _] _]]. }
    destruct (request _ _) as [r' [[]|]]; simpl;
      [destruct ids as [|id ids'];
        [|destruct (deleteCommits _ _) as [db' [[]|]]]; simpl|];
      (split; [intros Hin; case_mem Hin; done
              | intros [[_ Hack] [Hids ->]]; try done; mem]).
  - intros id. subst ids. apply list_elem_of_omap.
  - intros [Hne Hack] Hids. destruct commits as [|c rest]; [done|].
    destruct (request _ _) as [r' [[]|]]; [|done].
    destruct ids as [|id ids']; [done|].
    by destruct (deleteCommits _ _) as [db' [[]|]].
  - intros Hno. destruct commits as [|c rest]; [done|].
    destruct (request _ _) as [r' [[]|]]; [|done].
    destruct ids as [|id ids']; [done|].
    destruct Hno. by split.
Qed.

End CommitPhaseFacts.

Section CycleOutcomeFacts.
Context {DB R : Type} `{Database DB} `{Remote R}.
Variable LocalTZA : Z → bool → Z.


(** X16. A cycle of [syncLoop] never throws. When the query of the daily
    aggregates throws, the cycle ends there with the error logged and the
    stores as the insertions left them. And whatever happens, when a
    suspended cycle resumes the next cycle is scheduled: the timer is
    armed and kept in [syncTimer]. *)
Theorem syncCycle_never_throws (logs : list ActivityLog) (now later : Z)
    (st : Tracker.Stores DB R) :
  let flushed := Tracker.flush logs st in
  let cycle := Tracker.syncCycle LocalTZA logs now later st in
  cycle.2 = Js.Returned tt
  ∧ (getDailyAggregatedActivities (Tracker.db flushed.1.1) 30 = Js.Thrown →
     cycle.1.2 = (flushed.1.2 ++ [LogError "Sync loop error"])%list
     ∧ cycle.1.1 = flushed.1.1)
  ∧ (∀ (w : Tracker.World (DB:=DB) (R:=R)) sep i,
       Tracker.inflight w !! i = Some logs → Tracker.stores w = st →
       let w' := (Tracker.step sep LocalTZA w (Tracker.Complete i now later)).1 in
       Tracker.timers (Tracker.host w')
       = (Tracker.timers (Tracker.host w) ++ [Tracker.fresh (Tracker.host w)])%list
       ∧ Tracker.syncTimer (Tracker.tracker w') = Some (Tracker.fresh (Tracker.host w))
       ∧ Tracker.stores w' = cycle.1.1).
Proof.
  cbv zeta. destruct (syncCycle_stores LocalTZA logs now later st) as [Hret Hst].
  split_and!; [done| |].
  - intros Hq. by rewrite syncCycle_phases, Hst, syncDaily_unfold, Hq.
  - intros w sep i Hi <-. simpl. rewrite Hi.
    by destruct (Tracker.syncCycle _ _ _ _ _) as [[st' es] out].
Qed.

Lemma AtMostOne_nil (P : Mutation → Prop) : AtMostOne P [].
Proof. by left. Qed.

Lemma syncDaily_request_once (now later : Z) (st : Tracker.Stores DB R) :
  AtMostOne (fun m => ∃ input, m = SyncDailyStats input)
    (requests (Tracker.syncDaily LocalTZA now later st).1.2).
Proof.
  rewrite syncDaily_unfold.
  destruct (getDailyAggregatedActivities _ _) as [dailyStats|];
    [|apply AtMostOne_nil].
  destruct (Tracker.completedDayStats _ _ _) as [|stat rest]; [apply AtMostOne_nil|].
  cbv zeta.
  destruct (request (Tracker.remote st) _) as [r' [[]|]];
    [destruct (deleteActivitiesBeforeDate _ _) as [db' [[]|]]|];
    right; eexists; (split; [reflexivity|]); by eexists.
Qed.

Lemma syncFiles_request_once (st : Tracker.Stores DB R) :
  AtMostOne (fun m => ∃ input, m = SyncFileActivities input)
    (requests (Tracker.syncFiles st).1.2).
Proof.
  rewrite syncFiles_cases.
  destruct (getAggregatedActivities _ _) as [[|s batch]|]; try apply AtMostOne_nil.
  cbv zeta.
  destruct (request (Tracker.remote st) _) as [r' [[]|]];
    [destruct (deleteAggregatedActivities _ _) as [db' [[]|]]|];
    right; eexists; (split; [reflexivity|]); by eexists.
Qed.

Lemma syncGitCommits_request_once (st : Tracker.Stores DB R) :
  AtMostOne (fun m => ∃ input, m = SyncCommits input)
    (requests (Tracker.syncGitCommits st).1.2).
Proof.
  rewrite syncGitCommits_cases.
  destruct (getUnsyncedCommits _ _) as [[|c commits]|]; try apply AtMostOne_nil.
  cbv zeta.
  destruct (request (Tracker.remote st) _) as [r' [[]|]];
    [destruct (omap gc_id (c :: commits)) as [|id ids];
      [|destruct (deleteCommits _ _) as [db' [[]|]]]|];
    right; eexists; (split; [reflexivity|]); by eexists.
Qed.

(** X17. A cycle of [syncLoop] makes at most three requests: at most one
    with daily aggregates, then at most one with file summaries, then at
    most one with commits. *)
Theorem cycle_requests_in_order (logs : list ActivityLog) (now later : Z)
    (st : Tracker.Stores DB R) :
  ∃ daily files commits,
    requests (Tracker.syncCycle LocalTZA logs now later st).1.2
    = (daily ++ files ++ commits)%list
    ∧ AtMostOne (fun m => ∃ input, m = SyncDailyStats input) daily
    ∧ AtMostOne (fun m => ∃ input, m = SyncFileActivities input) files
    ∧ AtMostOne (fun m => ∃ input, m = SyncCommits input) commits.
Proof.
  rewrite syncCycle_phases. cbv zeta.
  destruct (flush_outcome logs st) as (_ & Hnone & _).
  rewrite requests_app, Hnone, app_nil_l.
  set (st1 := (Tracker.flush logs st).1.1).
  pose proof (syncDaily_request_once now later st1) as Hd.
  destruct (Tracker.syncDaily LocalTZA now later st1) as [[st2 es2] [[]|]]; simpl in *.
  2:{ exists (requests es2), [], []. rewrite requests_app, !app_nil_r.
      split_and!; [done|done|apply AtMostOne_nil|apply AtMostOne_nil]. }
  pose proof (syncFiles_request_once st2) as Hf.
  destruct (Tracker.syncFiles st2) as [[st3 es3] [[]|]]; simpl in *.
  2:{ exists (requests es2), (requests es3), [].
      rewrite !requests_app, !app_nil_r.
      split_and!; [done|done|done|apply AtMostOne_nil]. }
  pose proof (syncGitCommits_request_once st3) as Hc.
  destruct (Tracker.syncGitCommits st3) as [[st4 es4] [[]|]]; simpl in *.
  - exists (requests es2), (requests es3), (requests es4).
    by rewrite !requests_app.
  - exists (requests es2), (requests es3), (requests es4).
    by rewrite !requests_app, app_nil_r.
Qed.

Lemma syncDaily_unreachable (now later : Z) (st : Tracker.Stores DB R) :
  Unreachable (Tracker.remote st) →
  let res := Tracker.syncDaily LocalTZA now later st in
  Tracker.db res.1.1 = Tracker.db st ∧ Tracker.remote res.1.1 = Tracker.remote st
  ∧ storeCalls res.1.2 = [].
Proof.
  intros Hdown. cbv zeta. rewrite syncDaily_unfold.
  destruct (getDailyAggregatedActivities _ _) as [dailyStats|]; [|done].
  destruct (Tracker.completedDayStats _ _ _) as [|stat rest]; [done|].
  cbv zeta. by rewrite Hdown.
Qed.

Lemma syncFiles_unreachable (st : Tracker.Stores DB R) :
  Unreachable (Tracker.remote st) →
  let res := Tracker.syncFiles st in
  Tracker.db res.1.1 = Tracker.db st ∧ Tracker.remote res.1.1 = Tracker.remote st
  ∧ storeCalls res.1.2 = [].
Proof.
  intros Hdown. cbv zeta. rewrite syncFiles_cases.
  destruct (getAggregatedActivities _ _) as [[|s batch]|]; [done| |done].
  cbv zeta. by rewrite Hdown.
Qed.

Lemma syncGitCommits_unreachable (st : Tracker.Stores DB R) :
  Unreachable (Tracker.remote st) →
  let res := Tracker.syncGitCommits st in
  Tracker.db res.1.1 = Tracker.db st ∧ Tracker.remote res.1.1 = Tracker.remote st
  ∧ storeCalls res.1.2 = [].
Proof.
  intros Hdown. cbv zeta. rewrite syncGitCommits_cases.
  destruct (getUnsyncedCommits _ _) as [[|c commits]|]; [done| |done].
  cbv zeta. by rewrite Hdown.
Qed.

(** X20. While the remote service cannot be reached, a cycle of
    [syncLoop] deletes nothing: its only calls that change the store are
    the insertions of the logs taken from the queue, and it does not
    throw. *)
Theorem offline_cycle_keeps_rows (logs : list ActivityLog) (now later : Z)
    (st : Tracker.Stores DB R) :
  Unreachable (Tracker.remote st) →
  let cycle := Tracker.syncCycle LocalTZA logs now later st in
  Tracker.db cycle.1.1 = inserted logs (Tracker.db st)
  ∧ Tracker.remote cycle.1.1 = Tracker.remote st
  ∧ storeCalls cycle.1.2 = map InsertActivity logs
  ∧ cycle.2 = Js.Returned tt.
Proof.
  intros Hdown. cbv zeta.
  destruct (syncCycle_stores LocalTZA logs now later st) as [Hret Hst].
  destruct (flush_outcome logs st) as (Hcalls & _ & _ & Hdb & Hremote).
  rewrite syncCycle_phases, Hst. cbv zeta.
  set (st1 := (Tracker.flush logs st).1.1) in *.
  rewrite <- Hremote in Hdown.
  destruct (syncDaily_unreachable now later st1 Hdown) as (D1 & D2 & D3).
  set (daily := Tracker.syncDaily LocalTZA now later st1) in *.
  rewrite <- D2 in Hdown.
  destruct (syncFiles_unreachable daily.1.1 Hdown) as (F1 & F2 & F3).
  set (files := Tracker.syncFiles daily.1.1) in *.
  rewrite <- F2 in Hdown.
  destruct (syncGitCommits_unreachable files.1.1 Hdown) as (C1 & C2 & C3).
  set (commits := Tracker.syncGitCommits files.1.1) in *.
  rewrite storeCalls_app, Hcalls.
  destruct daily.2 as [[]|]; [destruct files.2 as [[]|]; [destruct commits.2 as [[]|]|]|];
    rewrite ?storeCalls_app, ?D3, ?F3, ?C3, ?app_nil_r; simpl;
    split_and!; congruence.
Qed.

End CycleOutcomeFacts.

(** ** The methods of the client *)

Section ApiFacts.
Context {R : Type} `{Remote R}.

Lemma send_Reports (m : Mutation) (ok : list Effect) (failed : string) (r : R) :
  requests ok = [] → storeCalls ok = [] →
  let res := ApiClient.send m ok failed r in
  res.1.1 = (request r m).1
  ∧ (res.1.2 = true ↔ (request r m).2 = Js.Returned tt)
  ∧ requests res.2 = [m]
  ∧ storeCalls res.2 = [].
Proof.
  intros Hok Hst. cbv zeta. unfold ApiClient.send.
  destruct (request r m) as [r' [[]|]]; simpl; rewrite ?Hok, ?Hst; by split_and!.
Qed.

(** X21. Each of [syncActivities], [syncCommits], [syncFileActivities]
    and [syncDailyStats] of the [ApiClient] returns true without a request
    on an empty list, and else makes one request, with all the rows, and
    returns true exactly when the request returns: a failure is reported
    as false and not thrown. An activity without an editor is sent as
    [vscode]. *)
Theorem api_reports_acknowledgement :
  Reports ApiClient.syncActivities
    (fun logs => SyncActivity (map ApiClient.activityInput logs))
  ∧ Reports ApiClient.syncCommits commitsRequest
  ∧ Reports ApiClient.syncFileActivities fileRequest
  ∧ Reports ApiClient.syncDailyStats dailyRequest
  ∧ (∀ log, ai_editor (ApiClient.activityInput log)
            = if decide (al_editor log = "") then "vscode" else al_editor log).
Proof.
  split_and!.
  - intros [|log logs] r; [done|]. by apply send_Reports.
  - intros [|c commits] r; [done|]. by apply send_Reports.
  - intros [|s summaries] r; [done|]. by apply send_Reports.
  - intros [|d stats] r; [done|]. by apply send_Reports.
  - intros log. simpl. destruct (String.eqb_spec (al_editor log) "") as [->|Hne].
    + done.
    + by rewrite decide_False.
Qed.

End ApiFacts.

(** ** Worlds reached from a new one *)

Section LifecycleFacts.
Context {DB R : Type} `{Database DB} `{Remote R}.
Variable sep : string.
Variable LocalTZA : Z → bool → Z.

Lemma run_invariant (P : Tracker.World (DB:=DB) (R:=R) → Prop) :
  (∀ w ev, P w → P (Tracker.step sep LocalTZA w ev).1) →
  ∀ evs w, P w → P (Tracker.run sep LocalTZA w evs).1.
Proof.
  intros Hstep evs. induction evs as [|ev evs IH]; intros w Hw; simpl; [done|].
  specialize (Hstep w ev Hw). destruct (Tracker.step sep LocalTZA w ev) as [w1 es1].
  specialize (IH w1 Hstep). by destruct (Tracker.run sep LocalTZA w1 evs).
Qed.

(** *** One handler for each event *)

Lemma step_Wired (w : Tracker.World (DB:=DB) (R:=R)) (ev : Tracker.Event) :
  Wired w → Wired (Tracker.step sep LocalTZA w ev).1.
Proof.
  intros Hw.
  assert (ev ≠ Tracker.Start → ev ≠ Tracker.Stop →
          Wired (Tracker.step sep LocalTZA w ev).1) as Hother.
  { intros Hstart Hstop.
    destruct (step_same_subscriptions sep LocalTZA w ev Hstart Hstop) as (Hs & Hi & Hd).
    unfold Wired in *. by rewrite Hs, Hi, Hd. }
  destruct ev as [| |e now editor|id|i now later|git roots|git root];
    try (by apply Hother).
  - simpl. unfold Tracker.startTracking, Wired in *.
    destruct (Tracker.isTracking (Tracker.tracker w)) eqn:Htr;
      [simpl; by rewrite Htr|].
    simpl.
    match goal with |- context [Tracker.syncLoopEnter ?t] =>
      destruct (syncLoopEnter_frame t) as (Hi & Hd & _);
      destruct (Tracker.syncLoopEnter t) as [tr2 cycle] end.
    simpl in *. rewrite Hi, Hd, Hw. simpl. by eexists _, _, _.
  - simpl. unfold Tracker.stopTracking, Wired in *.
    destruct (Tracker.isTracking (Tracker.tracker w)) eqn:Htr; simpl;
      [|by rewrite Htr].
    destruct Hw as (a & b & c & Hsubs & ->).
    assert (Tracker.subscriptions
              (Tracker.dispose [a; b; c] (Tracker.host w)) = []) as Hnone.
    { apply dispose_owned. intros s. rewrite Hsubs, !elem_of_cons.
      intros [->|[->|[->|Hs]]]; simpl; auto. by apply elem_of_nil in Hs. }
    by destruct (Tracker.syncTimer (Tracker.tracker w)).
Qed.

Lemma newWorld_Wired g (st : Tracker.Stores DB R) : Wired (Tracker.newWorld g st).
Proof. done. Qed.

(** X12. In every world reached from a new one, an event of the host
    (a change of a document, a change of the selection, a save) runs
    [handleActivity] once while the tracker is tracking, whichever the
    event, and nothing while it is not: starting twice does not subscribe
    twice, and stopping leaves no subscription. *)
Theorem event_runs_one_handler (evs : list Tracker.Event)
    (g : option GitTracker.t) (st : Tracker.Stores DB R)
    (e : Tracker.HostEvent) (now : Z) (editor : option Tracker.TextDocument) :
  let w := (Tracker.run sep LocalTZA (Tracker.newWorld g st) evs).1 in
  let handled :=
    if Tracker.isTracking (Tracker.tracker w)
    then Tracker.handleActivity sep now editor (Tracker.gitTracker w) (Tracker.tracker w)
    else (Tracker.tracker w, []) in
  Tracker.step sep LocalTZA w (Tracker.Fire e now editor)
  = (Tracker.mkWorld handled.1 (Tracker.host w) (Tracker.gitTracker w)
       (Tracker.stores w) (Tracker.inflight w),
     handled.2).
Proof.
  intros w handled.
  assert (Wired w) as Hw.
  { apply run_invariant; [apply step_Wired|apply newWorld_Wired]. }
  subst handled. simpl. unfold Tracker.deliver, Wired in *.
  destruct (Tracker.isTracking (Tracker.tracker w)).
  - destruct Hw as (a & b & c & -> & _). unfold Tracker.notify.
    destruct e; simpl;
      by destruct (Tracker.handleActivity sep now editor (Tracker.gitTracker w)
                     (Tracker.tracker w)) as [tr es].
  - by rewrite Hw.
Qed.

(** *** The sync loops alive *)

Lemma clearTimeout_Timed id (h : Tracker.Host) :
  NoDup (Tracker.timers h) →
  NoDup (Tracker.timers (Tracker.clearTimeout id h))
  ∧ (∀ j, j ∈ Tracker.timers (Tracker.clearTimeout id h) → j ∈ Tracker.timers h)
  ∧ Tracker.fresh (Tracker.clearTimeout id h) = Tracker.fresh h
  ∧ (id ∈ Tracker.timers h →
     S (length (Tracker.timers (Tracker.clearTimeout id h)))
     = length (Tracker.timers h)).
Proof.
  intros Hnd. simpl. split_and!; [| |done|].
  - induction Hnd as [|x l Hx Hl IH]; simpl; [constructor|].
    destruct (negb _); [|done]. constructor; [|done].
    intros Hin. apply Hx. apply list_elem_of_In, filter_In in Hin as [Hin _].
    by apply list_elem_of_In.
  - intros j Hj. apply list_elem_of_In, filter_In in Hj as [Hj _].
    by apply list_elem_of_In.
  - induction Hnd as [|x l Hx Hl IH]; intros Hin; [by apply elem_of_nil in Hin|].
    simpl. destruct (Nat.eqb_spec x id) as [->|Hne]; simpl.
    + f_equal. clear IH Hin. induction l as [|y l IH]; [done|].
      simpl. apply not_elem_of_cons in Hx as [Hy Hx].
      apply NoDup_cons in Hl as [_ Hl].
      destruct (Nat.eqb_spec y id) as [->|_]; [done|]. simpl. f_equal. by apply IH.
    + f_equal. apply IH. apply elem_of_cons in Hin as [->|Hin]; done.
Qed.

Lemma step_Timed (w : Tracker.World (DB:=DB) (R:=R)) (ev : Tracker.Event) :
  Timed w → Timed (Tracker.step sep LocalTZA w ev).1.
Proof.
  intros [Hnd Hlt].
  destruct ev as [| |e now editor|id|i now later|git roots|git root]; simpl.
  - unfold Tracker.startTracking. destruct (Tracker.isTracking _); [done|]. simpl.
    destruct (Tracker.syncLoopEnter _) as [tr2 cycle]. split; simpl; [done|].
    intros id Hid. specialize (Hlt id Hid). lia.
  - unfold Tracker.stopTracking. destruct (negb _); [done|]. simpl.
    assert (Timed (Tracker.mkWorld (Tracker.tracker w)
                     (match Tracker.disposable (Tracker.tracker w) with
                      | Some handles => Tracker.dispose handles (Tracker.host w)
                      | None => Tracker.host w
                      end) (Tracker.gitTracker w) (Tracker.stores w)
                     (Tracker.inflight w))) as [Hnd1 Hlt1].
    { by destruct (Tracker.disposable (Tracker.tracker w)). }
    simpl in *. destruct (Tracker.syncTimer (Tracker.tracker w)) as [id|]; [|done].
    destruct (clearTimeout_Timed id _ Hnd1) as (Hnd2 & Hsub & Hfresh & _).
    split; simpl; [done|]. intros j Hj. apply Hlt1. by apply Hsub.
  - by destruct (Tracker.deliver sep e now editor w).
  - destruct (bool_decide _); [|done].
    destruct (Tracker.syncLoopEnter _) as [tr cycle].
    destruct (clearTimeout_Timed id _ Hnd) as (Hnd2 & Hsub & Hfresh & _).
    split; simpl; [done|]. intros j Hj. apply Hlt. by apply Hsub.
  - destruct (Tracker.inflight w !! i); [|done].
    destruct (Tracker.syncCycle _ _ _ _ _) as [[st es] out]. split; simpl.
    + apply NoDup_app. split_and!; [done| |apply NoDup_singleton].
      intros x Hx Hx'. apply list_elem_of_singleton in Hx' as ->.
      specialize (Hlt _ Hx). lia.
    + intros id Hid. apply elem_of_app in Hid as [Hid|Hid].
      * specialize (Hlt _ Hid). lia.
      * apply list_elem_of_singleton in Hid as ->. lia.
  - by destruct (Tracker.gitTracker w).
  - destruct (Tracker.gitTracker w); [|done]. by destruct (bool_decide _).
Qed.

Lemma step_pending (w : Tracker.World (DB:=DB) (R:=R)) (ev : Tracker.Event) :
  Timed w →
  let w' := (Tracker.step sep LocalTZA w ev).1 in
  match ev with
  | Tracker.Start =>
      Tracker.isTracking (Tracker.tracker w') = true
      ∧ pending w' = if Tracker.isTracking (Tracker.tracker w)
                     then pending w else S (pending w)
  | Tracker.Stop => Tracker.isTracking (Tracker.tracker w') = false
  | _ =>
      Tracker.isTracking (Tracker.tracker w') = Tracker.isTracking (Tracker.tracker w)
      ∧ (Tracker.isTracking (Tracker.tracker w) = true → pending w' = pending w)
  end.
Proof.
  intros [Hnd Hlt]. cbv zeta.
  destruct ev as [| |e now editor|id|i now later|git roots|git root]; simpl.
  - unfold Tracker.startTracking.
    destruct (Tracker.isTracking (Tracker.tracker w)) eqn:Htr; [done|]. simpl.
    unfold Tracker.syncLoopEnter. simpl.
    destruct (0 <? _)%nat; unfold pending; simpl; rewrite length_app; simpl;
      split; [done|lia|done|lia].
  - unfold Tracker.stopTracking.
    by destruct (Tracker.isTracking (Tracker.tracker w)) eqn:Htr.
  - destruct (step_same_subscriptions sep LocalTZA w (Tracker.Fire e now editor))
      as (_ & Hi & _); [done|done|]. simpl in Hi.
    destruct (Tracker.deliver sep e now editor w) as [tr es]. by split.
  - destruct (bool_decide_reflect (id ∈ Tracker.timers (Tracker.host w)))
      as [Hin|Hout]; [|done].
    destruct (syncLoopEnter_frame (Tracker.tracker w)) as (Hi & _).
    destruct (clearTimeout_Timed id _ Hnd) as (_ & _ & _ & Hlen).
    specialize (Hlen Hin). simpl in Hlen. unfold Tracker.syncLoopEnter in *.
    destruct (Tracker.isTracking (Tracker.tracker w)) eqn:Htr; simpl in *; [|done].
    destruct (0 <? _)%nat; unfold pending; simpl; rewrite length_app; simpl;
      split; [done|lia|done|lia].
  - destruct (Tracker.inflight w !! i) as [logs|] eqn:Hi; [|done].
    destruct (Tracker.syncCycle _ _ _ _ _) as [[st es] out]. simpl.
    split; [done|]. intros _. unfold pending. simpl.
    rewrite length_app, length_delete by (by eexists). simpl.
    apply lookup_lt_Some in Hi. lia.
  - by destruct (Tracker.gitTracker w).
  - destruct (Tracker.gitTracker w); [|done]. by destruct (bool_decide _).
Qed.

(** X13. In every world reached from a new one, while the tracker is
    tracking at least one sync loop is pending, as an armed timer or a
    suspended cycle, and no event but [stopTracking] changes their number;
    [startTracking] on a tracker that is not tracking adds one loop. *)
Theorem sync_loops_persist (evs : list Tracker.Event)
    (g : option GitTracker.t) (st : Tracker.Stores DB R) (ev : Tracker.Event) :
  let w := (Tracker.run sep LocalTZA (Tracker.newWorld g st) evs).1 in
  let w' := (Tracker.step sep LocalTZA w ev).1 in
  (Tracker.isTracking (Tracker.tracker w) = true →
   (0 < pending w)%nat ∧ (ev ≠ Tracker.Stop → pending w' = pending w))
  ∧ (Tracker.isTracking (Tracker.tracker w) = false →
     ev = Tracker.Start → pending w' = S (pending w)).
Proof.
  intros w w'.
  assert (Timed w ∧ (Tracker.isTracking (Tracker.tracker w) = true
                     → (0 < pending w)%nat)) as [Htimed Halive].
  { subst w. apply (run_invariant
      (fun w => Timed w ∧ (Tracker.isTracking (Tracker.tracker w) = true
                           → (0 < pending w)%nat))).
    - clear. intros w ev [Htimed Halive]. split; [by apply step_Timed|].
      pose proof (step_pending w ev Htimed) as Hstep. cbv zeta in Hstep.
      destruct ev; try (rewrite (proj1 Hstep); intros Htr;
                        rewrite (proj2 Hstep) by done; by apply Halive).
      + destruct Hstep as [_ Hp]. intros _. rewrite Hp.
        destruct (Tracker.isTracking (Tracker.tracker w)); [by apply Halive|lia].
      + by rewrite Hstep.
    - split; [|done]. split; [constructor|].
      intros id Hid. by apply elem_of_nil in Hid. }
  pose proof (step_pending w ev Htimed) as Hstep. cbv zeta in Hstep. fold w' in Hstep.
  split.
  - intros Htr. split; [by apply Halive|]. intros Hstop.
    destruct ev; try done; try (destruct Hstep as [_ Hp]; by apply Hp).
    destruct Hstep as [_ Hp]. by rewrite Htr in Hp.
  - intros Htr ->. destruct Hstep as [_ Hp]. by rewrite Htr in Hp.
Qed.

(** *** The logs from the queue to the store *)

Lemma pushes_app (a b : list Effect) : pushes (a ++ b) = (pushes a ++ pushes b)%list.
Proof. apply omap_app. Qed.

Lemma insertions_app (a b : list Effect) :
  insertions (a ++ b) = (insertions a ++ insertions b)%list.
Proof. apply omap_app. Qed.

Lemma plain_silent (es : list Effect) :
  Forall plain es → pushes es = [] ∧ insertions es = [].
Proof.
  induction 1 as [|e es He Hes [IH1 IH2]]; [done|].
  destruct e as [| | | | | |m|call]; try done. by destruct call.
Qed.

Lemma handleActivity_pushes now editor git tr :
  let result := Tracker.handleActivity sep now editor git tr in
  Tracker.queue result.1 = (Tracker.queue tr ++ pushes result.2)%list
  ∧ insertions result.2 = [].
Proof.
  cbv zeta. unfold Tracker.handleActivity.
  destruct (_ <? _); [by rewrite app_nil_r|].
  destruct editor as [doc|]; [|by rewrite app_nil_r]. simpl.
  rewrite !pushes_app, !insertions_app.
  destruct git as [g|]; simpl;
    repeat match goal with |- context [if ?b then _ else _] => destruct b end;
    done.
Qed.

Lemma notify_pushes e now editor git subs : ∀ (acc : Tracker.t * list Effect),
  let result := fold_left (Tracker.notify sep e now editor git) subs acc in
  ∃ new, result.2 = (acc.2 ++ new)%list
         ∧ Tracker.queue result.1 = (Tracker.queue acc.1 ++ pushes new)%list
         ∧ insertions new = [].
Proof.
  induction subs as [|s subs IH]; intros acc; cbv zeta.
  - exists []. by rewrite !app_nil_r.
  - simpl. destruct (IH (Tracker.notify sep e now editor git acc s))
      as (new & Hes & Hq & Hins).
    rewrite Hes, Hq. unfold Tracker.notify. destruct (bool_decide _).
    + destruct (handleActivity_pushes now editor git acc.1) as [Hq1 Hi1].
      destruct (Tracker.handleActivity sep now editor git acc.1) as [tr es].
      simpl in *. exists (es ++ new)%list.
      rewrite Hq1, pushes_app, insertions_app, Hi1, Hins, !app_assoc. done.
    + by exists new.
Qed.

Lemma syncLoopEnter_held_logs (tr : Tracker.t) (cycles : list (list ActivityLog)) :
  (concat (Tracker.suspend (Tracker.syncLoopEnter tr).2 cycles)
   ++ Tracker.queue (Tracker.syncLoopEnter tr).1)%list
  = (concat cycles ++ Tracker.queue tr)%list.
Proof.
  unfold Tracker.syncLoopEnter. destruct (negb _); [done|].
  destruct (Tracker.queue tr) as [|log logs] eqn:Hq; simpl.
  - rewrite Hq, concat_app. simpl. by rewrite !app_nil_r.
  - rewrite concat_app. simpl. by rewrite !app_nil_r.
Qed.

Lemma syncCycle_insertions (logs : list ActivityLog) (now later : Z)
    (st : Tracker.Stores DB R) :
  insertions (Tracker.syncCycle LocalTZA logs now later st).1.2 = logs
  ∧ pushes (Tracker.syncCycle LocalTZA logs now later st).1.2 = [].
Proof.
  rewrite syncCycle_phases. cbv zeta.
  assert (insertions (Tracker.flush logs st).1.2 = logs
          ∧ pushes (Tracker.flush logs st).1.2 = []) as [Hi Hp].
  { clear. revert st. induction logs as [|log logs IH]; intros st; [done|].
    simpl. unfold Tracker.bind, Tracker.try_catch, Tracker.update, Tracker.emit.
    destruct (insertActivity (Tracker.db st) log) as [db' [[]|]]; simpl;
      destruct (IH (Tracker.mkStores db' (Tracker.remote st))) as [I1 I2];
      destruct (Tracker.flush logs _) as [[st2 es2] out]; simpl in *;
      by rewrite I1, I2. }
  rewrite insertions_app, pushes_app, Hi, Hp.
  set (st1 := (Tracker.flush logs st).1.1).
  destruct (plain_silent _ (syncDaily_plain LocalTZA now later st1)) as [D1 D2].
  set (daily := Tracker.syncDaily LocalTZA now later st1) in *.
  destruct (plain_silent _ (syncFiles_plain daily.1.1)) as [F1 F2].
  set (files := Tracker.syncFiles daily.1.1) in *.
  destruct (plain_silent _ (syncGitCommits_plain files.1.1)) as [C1 C2].
  set (commits := Tracker.syncGitCommits files.1.1) in *.
  destruct daily.2; [destruct files.2; [destruct commits.2|]|];
    rewrite ?insertions_app, ?pushes_app, ?D1, ?D2, ?F1, ?F2, ?C1, ?C2;
    simpl; by rewrite ?app_nil_r.
Qed.

Lemma step_conserves (w : Tracker.World (DB:=DB) (R:=R)) (ev : Tracker.Event) :
  let w' := (Tracker.step sep LocalTZA w ev).1 in
  let es := (Tracker.step sep LocalTZA w ev).2 in
  (held w ++ pushes es)%list ≡ₚ (insertions es ++ held w')%list.
Proof.
  cbv zeta. unfold held.
  destruct ev as [| |e now editor|id|i now later|git roots|git root]; simpl.
  - unfold Tracker.startTracking. destruct (Tracker.isTracking _); simpl;
      [by rewrite app_nil_r|].
    match goal with |- context [Tracker.syncLoopEnter ?t] =>
      pose proof (syncLoopEnter_held_logs t (Tracker.inflight w)) as Hheld;
      destruct (Tracker.syncLoopEnter t) as [tr2 cycle] end.
    simpl in *. by rewrite Hheld, app_nil_r.
  - unfold Tracker.stopTracking. destruct (negb _); simpl; by rewrite app_nil_r.
  - unfold Tracker.deliver.
    destruct (notify_pushes e now editor (Tracker.gitTracker w)
                (Tracker.subscriptions (Tracker.host w)) (Tracker.tracker w, []))
      as (new & Hes & Hq & Hins).
    destruct (fold_left _ _ _) as [tr es]. simpl in *. subst es.
    rewrite Hq, Hins. simpl. by rewrite <- app_assoc.
  - destruct (bool_decide _); simpl; [|by rewrite app_nil_r].
    pose proof (syncLoopEnter_held_logs (Tracker.tracker w) (Tracker.inflight w))
      as Hheld.
    destruct (Tracker.syncLoopEnter (Tracker.tracker w)) as [tr cycle].
    simpl in *. by rewrite Hheld, app_nil_r.
  - destruct (Tracker.inflight w !! i) as [logs|] eqn:Hi; simpl;
      [|by rewrite app_nil_r].
    destruct (syncCycle_insertions logs now later (Tracker.stores w)) as [Hins Hp].
    destruct (Tracker.syncCycle _ _ _ _ _) as [[st es] out]. simpl in *.
    rewrite Hins, Hp, app_nil_r, app_assoc. apply Permutation_app_tail.
    rewrite <- (take_drop_middle _ _ _ Hi) at 1. rewrite delete_take_drop.
    rewrite !concat_app. simpl. apply Permutation_app_swap_app.
  - destruct (Tracker.gitTracker w) as [g|]; simpl; [|by rewrite app_nil_r].
    destruct (plain_silent _ (git_only_plain _
      (initializeAllRoots_git_only git roots g (Tracker.db (Tracker.stores w)))))
      as [-> ->].
    by rewrite app_nil_r.
  - destruct (Tracker.gitTracker w) as [g|]; simpl; [|by rewrite app_nil_r].
    destruct (bool_decide _); simpl; [|by rewrite app_nil_r].
    destruct (plain_silent _ (git_only_plain _
      (trackCommitChange_git_only git root g (Tracker.db (Tracker.stores w)))))
      as [-> ->].
    by rewrite app_nil_r.
Qed.

(** X14. Over every run from a new world, the logs pushed onto the
    queue are, up to their order, the logs handed to [insertActivity]
    together with those still held by a suspended cycle or in the queue:
    no log is dropped and none is inserted twice. *)
Theorem pushed_logs_conserved (evs : list Tracker.Event)
    (g : option GitTracker.t) (st : Tracker.Stores DB R) :
  let w := (Tracker.run sep LocalTZA (Tracker.newWorld g st) evs).1 in
  let es := (Tracker.run sep LocalTZA (Tracker.newWorld g st) evs).2 in
  pushes es
  ≡ₚ (insertions es ++ concat (Tracker.inflight w)
      ++ Tracker.queue (Tracker.tracker w))%list.
Proof.
  cbv zeta.
  assert (∀ evs (w : Tracker.World (DB:=DB) (R:=R)),
            (held w ++ pushes (Tracker.run sep LocalTZA w evs).2)%list
            ≡ₚ (insertions (Tracker.run sep LocalTZA w evs).2
                ++ held (Tracker.run sep LocalTZA w evs).1)%list) as Hrun.
  { clear. induction evs as [|ev evs IH]; intros w; simpl.
    - by rewrite app_nil_r.
    - pose proof (step_conserves w ev) as Hstep. cbv zeta in Hstep.
      destruct (Tracker.step sep LocalTZA w ev) as [w1 es1]. simpl in *.
      specialize (IH w1). destruct (Tracker.run sep LocalTZA w1 evs) as [w2 es2].
      simpl in *. rewrite pushes_app, insertions_app.
      rewrite app_assoc, Hstep, <- app_assoc, IH, app_assoc. done. }
  specialize (Hrun evs (Tracker.newWorld g st)). by unfold held in Hrun at 1.
Qed.

End LifecycleFacts.

(** * The properties at work *)

(** ** Debounce and duration *)

(** A new tracker takes its first event at 1500 ms after the epoch: its
    [lastActivityTime] is 0, and yet the event is discarded, nothing
    enqueued and nothing updated. *)
Lemma first_event_debounced :
  Tracker.lastActivityTime Tracker.new = 0
  ∧ Tracker.handleActivity "/" 1500 (Some Example.doc) (Some Example.repo) Tracker.new
    = (Tracker.new, []).
Proof. split; reflexivity. Qed.

(** An event at 5 s with no editor, then one at 15 s in [Example.doc]: the
    second is accepted and its log has the gap of 10000 ms as duration. *)
Lemma recorded_duration_witness :
  let past := [mkCall 5000 None None] in
  let tr := feed "/" Tracker.new past in
  let result := Tracker.handleActivity "/" 15000 (Some Example.doc) None tr in
  result ≠ (tr, [])
  ∧ ∃ log, Tracker.queue result.1 = [log] ∧ al_duration log = 10000.
Proof.
  assert (Tracker.handleActivity "/" 15000 (Some Example.doc) None
            (feed "/" Tracker.new [mkCall 5000 None None])
          ≠ (feed "/" Tracker.new [mkCall 5000 None None], [])) as Hacc.
  { vm_compute. discriminate. }
  split; [exact Hacc|].
  destruct (recorded_duration "/" [mkCall 5000 None None] 15000 Example.doc None Hacc)
    as (log & Hq & _ & Hd & _).
  exists log. split; [exact Hq | exact Hd].
Defined.

(** An accepted event at 5 s with no editor open. *)
Lemma no_editor_witness :
  Tracker.debounceInterval ≤ 5000 - Tracker.lastActivityTime Tracker.new
  ∧ Tracker.queue
      (Tracker.handleActivity "/" 5000 None (Some Example.repo) Tracker.new).1 = []
  ∧ (Tracker.handleActivity "/" 5000 None (Some Example.repo) Tracker.new).2 = []
  ∧ Tracker.lastActivityTime
      (Tracker.handleActivity "/" 5000 None (Some Example.repo) Tracker.new).1 = 5000.
Proof.
  assert (Tracker.debounceInterval ≤ 5000 - Tracker.lastActivityTime Tracker.new) as Hgap.
  { vm_compute. discriminate. }
  split; [exact Hgap|].
  destruct (no_editor_only_updates_lastActivityTime "/" 5000 (Some Example.repo)
              Tracker.new Hgap) as (Hq & _ & _ & Hes & Hlast & _).
  split; [exact Hq|]. split; [exact Hes | exact Hlast].
Defined.

(** ** Commit tracking *)

(** The [HEAD] of [/w/app] moves from [abc123] to [def456] while the
    commit-details commands fail: no row is stored, but the cached commit
    is now [def456], and a second trigger does nothing, so the commit is
    never recorded. With the branch command failing instead, the row is
    stored. *)
Lemma details_failure_advances_cache :
  let res := GitTracker.trackCommitChange Example.detailsFail "/w/app"
               Example.repo Example.emptyStore in
  let res' := GitTracker.trackCommitChange Example.branchFails "/w/app"
                Example.repo Example.emptyStore in
  GitTracker.currentCommit Example.repo !! "/w/app" = Some "abc123"
  ∧ GitTracker.currentCommit (GitTracker.tracker res) !! "/w/app" = Some "def456"
  ∧ GitTracker.store res = Example.emptyStore
  ∧ GitTracker.effects
      (GitTracker.trackCommitChange Example.detailsFail "/w/app"
         (GitTracker.tracker res) (GitTracker.store res)) = []
  ∧ length (Example.commits (GitTracker.store res')) = 1%nat.
Proof. vm_compute. by repeat split. Qed.

(** ** Diff statistics *)

Lemma single_phrase_witness :
  let diffStats := " src/parser.ts | 3 +++
 1 file changed, 3 insertions(+)
" in
  GitTracker.showStat Example.healthy "/w/app" "def456" = Js.Returned diffStats
  ∧ ¬ Contains " deletion" diffStats
  ∧ GitTracker.parseDiffStats diffStats = (Js.Finite 0, Js.Finite 0)
  ∧ match (GitTracker.getCommitDetails Example.healthy "/w/app" "def456").1 with
    | Some details =>
        GitTracker.linesAdded details = 0 ∧ GitTracker.linesDeleted details = 0
    | None => DetailsQueryFails Example.healthy "/w/app" "def456"
    end.
Proof.
  cbv zeta.
  assert (¬ Contains " deletion" " src/parser.ts | 3 +++
 1 file changed, 3 insertions(+)
") as Hno.
  { rewrite <- includes_Contains. vm_compute. discriminate. }
  destruct (single_phrase_counts_zero Example.healthy "/w/app" "def456" _
              eq_refl (or_introl Hno)) as (Hz & Hd & _).
  split; [reflexivity|]. split; [exact Hno|]. split; [exact Hz | exact Hd].
Defined.

(** The pattern at work on outputs that do hold the combined phrase. *)
Lemma combined_phrase_examples :
  GitTracker.parseDiffStats " 2 files changed, 13 insertions(+), 4 deletions(-)
" = (Js.Finite 13, Js.Finite 4)
  ∧ GitTracker.parseDiffStats " 1 file changed, 1 insertion(+), 1 deletion(-)
" = (Js.Finite 1, Js.Finite 1)
  ∧ GitTracker.parseDiffStats " 1 file changed, 2 deletions(-)
" = (Js.Finite 0, Js.Finite 0).
Proof. by vm_compute. Qed.

(** ** The sync loop *)



(** At noon of 10 June 2025, with the aggregates of 8 and 9 June in the
    store, only that of 8 June is sent. *)
Lemma completed_days_witness :
  let st := Tracker.mkStores Example.twoDays Example.Up in
  let now := 1749556800000 in
  getDailyAggregatedActivities (Tracker.db (Tracker.flush [] st).1.1) 30
  = Js.Returned (Example.daily Example.twoDays)
  ∧ Tracker.yesterdayStr Example.utc now = "2025-06-09"
  ∧ Request (SyncDailyStats [ApiClient.dailyStatsInput (Example.day "2025-06-08")])
      ∈ (Tracker.syncCycle Example.utc [] now now st).1.2
  ∧ ∀ input, Request (SyncDailyStats input)
               ∈ (Tracker.syncCycle Example.utc [] now now st).1.2 →
             input = [ApiClient.dailyStatsInput (Example.day "2025-06-08")].
Proof.
  cbv zeta.
  assert (getDailyAggregatedActivities
            (Tracker.db (Tracker.flush [] (Tracker.mkStores Example.twoDays Example.Up)).1.1)
            30
          = Js.Returned (Example.daily Example.twoDays)) as Hq by reflexivity.
  destruct (completed_days_only Example.utc [] 1749556800000 1749556800000
              (Tracker.mkStores Example.twoDays Example.Up)
              (Example.daily Example.twoDays) Hq)
    as (Hyes & Hsent & _ & _ & Hdate).
  split; [exact Hq|]. split; [|split].
  - rewrite Hyes. destruct (Hdate eq_refl) as (_ & Hex). apply Hex. lia.
  - vm_compute. apply elem_of_cons. right. by apply elem_of_cons; left.
  - intros input Hin. apply Hsent in Hin. rewrite Hin. by vm_compute.
Defined.

(** The date the loop takes for yesterday is not the date of yesterday.
    On 9 March 2025 at 23:30 UTC in New York, 19:30 local time on the day
    daylight saving time began, the day before is 8 March in local time
    and in Coordinated Universal Time, and yet [yesterdayStr] is the date
    of today: the aggregate of 8 March, which is yesterday and not earlier,
    is sent. And at 02:00 of 10 June 2025 in India, [yesterdayStr] is
    2025-06-08: the aggregate of 8 June is not sent. *)
Lemma yesterdayStr_is_not_yesterday :
  let now := 1741563000000 in
  let st := Tracker.mkStores
              (Example.mkStore [] [] [Example.day "2025-03-08"] []) Example.Up in
  let now' := 1749501000000 in
  let st' := Tracker.mkStores Example.twoDays Example.Up in
  (JsDate.toISOString now = "2025-03-09T23:30:00.000Z"
   ∧ JsDate.toISOString (JsDate.LocalTime Example.newYork now)
     = "2025-03-09T19:30:00.000Z"
   ∧ JsDate.isoDate (now - JsDate.msPerDay) = "2025-03-08"
   ∧ JsDate.isoDate (JsDate.LocalTime Example.newYork now - JsDate.msPerDay)
     = "2025-03-08"
   ∧ Tracker.yesterdayStr Example.newYork now = "2025-03-09"
   ∧ (Tracker.syncCycle Example.newYork [] now now st).1.2
     = [LogDebug "Syncing daily stats summaries";
        Request (SyncDailyStats [ApiClient.dailyStatsInput (Example.day "2025-03-08")]);
        LogInfo "Synced daily stats summaries";
        Store (DeleteActivitiesBeforeDate "2025-03-03");
        LogInfo "Synced and cleaned up daily stats"])
  ∧ (JsDate.toISOString (JsDate.LocalTime Example.ist now')
     = "2025-06-10T02:00:00.000Z"
     ∧ Example.daily (Tracker.db st')
       = [Example.day "2025-06-08"; Example.day "2025-06-09"]
     ∧ Tracker.yesterdayStr Example.ist now' = "2025-06-08"
     ∧ (Tracker.syncCycle Example.ist [] now' now' st').1.2 = []).
Proof. by vm_compute. Qed.

(** A day after the clocks changed in New York, the cut-off of the cleanup
    is six days before the date of today. *)
Lemma cutoff_after_clock_change :
  JsDate.toISOString 1741649400000 = "2025-03-10T23:30:00.000Z"
  ∧ Tracker.daysAgoStr Example.newYork 7 1741649400000 = "2025-03-04".
Proof. by vm_compute. Qed.

(** ** Stopping *)

(** The tracker is started, so that a first sync cycle is suspended, and
    stopped before the cycle has run to its end. The cycle then completes
    and arms a timeout: a timeout is armed although the tracker is stopped.
    When it expires, [syncLoop] returns at once. *)
Lemma timer_armed_after_stop :
  let w0 := Tracker.newWorld (Some Example.repo)
              (Tracker.mkStores Example.threeFiles Example.Up) in
  let stopped := (Tracker.run "/" Example.utc w0 [Tracker.Start; Tracker.Stop]).1 in
  let w := (Tracker.run "/" Example.utc stopped
              [Tracker.Complete 0 1749556800000 1749556800000]).1 in
  let w' := (Tracker.run "/" Example.utc w [Tracker.Timeout 3]).1 in
  Tracker.isTracking (Tracker.tracker stopped) = false
  ∧ Tracker.timers (Tracker.host stopped) = []
  ∧ length (Tracker.inflight stopped) = 1%nat
  ∧ Tracker.isTracking (Tracker.tracker w) = false
  ∧ Tracker.timers (Tracker.host w) = [3%nat]
  ∧ Tracker.syncTimer (Tracker.tracker w) = Some 3%nat
  ∧ Example.files (Tracker.db (Tracker.stores w)) = []
  ∧ Tracker.timers (Tracker.host w') = []
  ∧ Tracker.inflight w' = [].
Proof. vm_compute. by repeat split. Qed.

(** A cycle has completed and its timeout is armed when the tracker is
    stopped; then the host raises an event and the timeout would expire. *)
Lemma stop_quiesces_witness :
  let w0 := Tracker.newWorld (Some Example.repo)
              (Tracker.mkStores Example.emptyStore Example.Up) in
  let before := [Tracker.Start; Tracker.Complete 0 1749556800000 1749556800000] in
  let after := [Tracker.Fire Tracker.DidSaveTextDocument 1749556900000 (Some Example.doc);
                Tracker.Timeout 3] in
  let w1 := (Tracker.step "/" Example.utc (Tracker.run "/" Example.utc w0 before).1
               Tracker.Stop).1 in
  let w2 := (Tracker.run "/" Example.utc w1 after).1 in
  (Tracker.Start ∉ after)
  ∧ Tracker.isTracking (Tracker.tracker w2) = false
  ∧ Tracker.subscriptions (Tracker.host w2) = []
  ∧ Tracker.queue (Tracker.tracker w2) = Tracker.queue (Tracker.tracker w1)
  ∧ Tracker.inflight w2 = []
  ∧ Tracker.timers (Tracker.host w2) = [].
Proof.
  cbv zeta.
  assert (Tracker.Start
            ∉ [Tracker.Fire Tracker.DidSaveTextDocument 1749556900000 (Some Example.doc);
               Tracker.Timeout 3]) as Hno.
  { intros Hin. case_mem Hin. }
  destruct (stop_quiesces "/" Example.utc
              [Tracker.Start; Tracker.Complete 0 1749556800000 1749556800000]
              [Tracker.Fire Tracker.DidSaveTextDocument 1749556900000 (Some Example.doc);
               Tracker.Timeout 3]
              (Some Example.repo) (Tracker.mkStores Example.emptyStore Example.Up) Hno)
    as ((Hoff & Hsubs) & (Hq & _) & _ & _ & Hclean).
  destruct Hclean as (Hnil & _ & _ & Hnone); [reflexivity|].
  split; [exact Hno|]. split; [exact Hoff|]. split; [exact Hsubs|].
  split; [exact Hq|]. split; [exact Hnil|].
  apply Hnone; [reflexivity|].
  intros id Hid. vm_compute in Hid. apply list_elem_of_singleton in Hid as ->.
  reflexivity.
Defined.

(** ** The rest of the code *)

(** The repositories of [Example.workspace]: [lib] and [app], found in the
    order the stack gives; the repository nested in [app] is not found. *)
Lemma nested_repository_not_found :
  GitTracker.findGitRootsInWorkspace Example.join (Some Example.workspace)
  = ["/w/lib"; "/w/app"].
Proof. reflexivity. Qed.

(** The output of [git rev-parse HEAD] of [Example.healthy] ends with a
    line feed, which the commit hash does not hold. *)
Lemma head_and_branch_trimmed_witness :
  GitTracker.revParseHead Example.healthy "/w/app"
  = Js.Returned ("" ++ "def456" ++ String "010"%char "")
  ∧ GitTracker.getCurrentCommit Example.healthy "/w/app" = Some "def456".
Proof.
  assert (Blank "") as Hpre by exact I.
  assert (Blank (String "010"%char "")) as Hpost by (by vm_compute).
  assert (starts_outside Js.isSpace "def456") as Hs by reflexivity.
  assert (ends_outside Js.isSpace "def456") as He.
  { apply (ends_outside_last Js.isSpace "def45" "6"%char). reflexivity. }
  split; [reflexivity|].
  apply (head_and_branch_trimmed Example.healthy "/w/app" "" "def456"
           (String "010"%char "") Hpre Hpost Hs He).
  reflexivity.
Defined.

(** The details of the commit of [Example.healthy]: the author time is
    printed in seconds and the statistics have two lines, for one file. *)
Lemma getCommitDetails_reads_output_witness :
  (GitTracker.getCommitDetails Example.healthy "/w/app" "def456").1
  = Some Example.details
  ∧ GitTracker.timestamp Example.details = Js.Finite (1749556800 * 1000)
  ∧ GitTracker.filesChanged Example.details = 2.
Proof.
  assert ((GitTracker.getCommitDetails Example.healthy "/w/app" "def456").1
          = Some Example.details) as Hd by (by vm_compute).
  assert (GitTracker.logFormat Example.healthy "/w/app" GitTracker.AuthorTime "def456"
          = Js.Returned (pretty 1749556800%N ++ "")) as Htime by (by vm_compute).
  assert (GitTracker.showStat Example.healthy "/w/app" "def456"
          = Js.Returned
              (unlines [" src/parser.ts | 3 +++"; " 1 file changed, 3 insertions(+)"]))
    as Hstat by (by vm_compute).
  assert (Forall (fun l => Js.count_char "010"%char l = 0)
            [" src/parser.ts | 3 +++"; " 1 file changed, 3 insertions(+)"])
    as Hlines by (repeat constructor).
  destruct (getCommitDetails_reads_output Example.healthy "/w/app" "def456"
              1749556800%N ""
              [" src/parser.ts | 3 +++"; " 1 file changed, 3 insertions(+)"]
              Example.details Htime I Hstat Hlines Hd)
    as (_ & Hexact & _ & Hfiles).
  split; [exact Hd|]. split; [|exact Hfiles].
  apply Hexact. by vm_compute.
Defined.

(** The summary line of a commit with insertions and deletions. *)
Lemma parseDiffStats_combined_witness :
  " 2 files changed, " ++ pretty 13%N ++ " insertion" ++ "s(+), " ++ pretty 4%N
    ++ " deletion" ++ "s(-)"
  = " 2 files changed, 13 insertions(+), 4 deletions(-)"
  ∧ GitTracker.parseDiffStats
      (" 2 files changed, " ++ pretty 13%N ++ " insertion" ++ "s(+), " ++ pretty 4%N
         ++ " deletion" ++ "s(-)")
    = (Js.Finite 13, Js.Finite 4).
Proof.
  assert (¬ Contains " insertion" " 2 files changed, ") as Hpre.
  { intros Hc%includes_Contains. by vm_compute in Hc. }
  assert (ends_outside Js.isDigit " 2 files changed, ") as Hend.
  { apply (ends_outside_last Js.isDigit " 2 files changed," " "%char). reflexivity. }
  assert (all_units (fun c => Regex.dot c = true ∧ Js.isDigit c = false) "s(+), ")
    as Hmid by (by vm_compute).
  destruct (parseDiffStats_combined " 2 files changed, " "s(+), " "s(-)" 13 4
              Hpre Hend Hmid) as (Hparse & _ & Hexact & _).
  split; [by vm_compute|].
  rewrite Hparse. by rewrite !Hexact by (by vm_compute).
Defined.

(** Beyond [2^53] the digits are read as the nearest double: [2^53 + 1] as
    [2^53], so that this author time gives the timestamp [2^53 * 1000];
    [2^54 + 6] as [2^54 + 8]; 400 digits as an infinity; and a zero after
    a minus sign as the negative zero. *)
Lemma large_numbers_are_rounded :
  Js.parseInt "9007199254740993" = Js.Finite 9007199254740992
  ∧ Js.mul (Js.parseInt "9007199254740993") 1000 = Js.Finite 9007199254740992000
  ∧ Js.parseInt "18014398509481990" = Js.Finite 18014398509481992
  ∧ Js.parseInt (pretty (10 ^ 400)%N) = Js.Infinity false
  ∧ Js.num_or_zero (Js.parseInt (pretty (10 ^ 400)%N)) = Js.Infinity false
  ∧ Js.mul (Js.parseInt "-0") 1000 = Js.NegativeZero.
Proof. by vm_compute. Qed.

(** The commit [def456] of [Example.healthy], new to [Example.repo], is
    recorded in the empty store. *)
Lemma trackCommitChange_records_change_witness :
  let res := GitTracker.trackCommitChange Example.healthy "/w/app" Example.repo
               Example.emptyStore in
  GitTracker.getCurrentCommit Example.healthy "/w/app" = Some "def456"
  ∧ GitTracker.currentCommit Example.repo !! "/w/app" = Some "abc123"
  ∧ Example.commits (GitTracker.store res) = Example.commits Example.oneCommit
  ∧ GitTracker.currentCommit (GitTracker.tracker res) !! "/w/app" = Some "def456"
  ∧ NoOp Example.healthy "/w/app" (GitTracker.tracker res) (GitTracker.store res).
Proof.
  assert (GitTracker.getCurrentCommit Example.healthy "/w/app" = Some "def456")
    as Hc by reflexivity.
  assert ("def456" ≠ "") as Hne by discriminate.
  assert (GitTracker.currentCommit Example.repo !! "/w/app" ≠ Some "def456")
    as Hold by (by vm_compute).
  assert ((GitTracker.getCommitDetails Example.healthy "/w/app" "def456").1
          = Some Example.details) as Hd by (by vm_compute).
  assert (insertCommit Example.emptyStore
            (GitTracker.commitRow "/w/app" "def456" Example.details
               (GitTracker.getBranch Example.healthy "/w/app"))
          = (Example.oneCommit, Js.Returned tt)) as Hins by reflexivity.
  destruct (trackCommitChange_records_change Example.healthy "/w/app" "def456"
              Example.repo Example.emptyStore Example.oneCommit Example.details
              Hc Hne Hold Hd Hins) as (_ & _ & Hstore & _ & Hcc & _ & Hnoop & _).
  cbv zeta. split; [exact Hc|]. split; [reflexivity|].
  split; [by rewrite Hstore|]. split; [|apply Hnoop].
  rewrite Hcc. apply lookup_insert_eq.
Defined.

(** Two triggers on the same change of HEAD, as the two callbacks of a
    watcher give: both calls test the cache before either has written it,
    and the row of the commit is inserted twice. *)
Lemma overlapping_triggers_insert_twice :
  let first :=
    GitTracker.recordChange Example.healthy "/w/app" "def456" Example.repo
      Example.emptyStore in
  let second :=
    GitTracker.recordChange Example.healthy "/w/app" "def456"
      (GitTracker.tracker first) (GitTracker.store first) in
  GitTracker.detectChange Example.healthy "/w/app" Example.repo = Some "def456"
  ∧ map gc_commitHash (Example.commits (GitTracker.store second))
    = ["def456"; "def456"]
  ∧ GitTracker.detectChange Example.healthy "/w/app" (GitTracker.tracker second)
    = None.
Proof. by vm_compute. Qed.

(** The same commit with the store closed: the call rejects, the cached
    commit stays, and the next trigger tries the insertion again. *)
Lemma trackCommitChange_store_failure_witness :
  let res := GitTracker.trackCommitChange Example.healthy "/w/app" Example.repo
               Example.closed in
  insertCommit Example.closed
    (GitTracker.commitRow "/w/app" "def456" Example.details (Some "main"))
  = (Example.closed, Js.Thrown)
  ∧ GitTracker.settled res = Js.Thrown
  ∧ GitTracker.tracker res = Example.repo
  ∧ Store (InsertCommit
             (GitTracker.commitRow "/w/app" "def456" Example.details (Some "main")))
      ∈ GitTracker.effects
          (GitTracker.trackCommitChange Example.healthy "/w/app"
             (GitTracker.tracker res) (GitTracker.store res)).
Proof.
  assert (GitTracker.getCurrentCommit Example.healthy "/w/app" = Some "def456")
    as Hc by reflexivity.
  assert ("def456" ≠ "") as Hne by discriminate.
  assert (GitTracker.currentCommit Example.repo !! "/w/app" ≠ Some "def456")
    as Hold by (by vm_compute).
  assert ((GitTracker.getCommitDetails Example.healthy "/w/app" "def456").1
          = Some Example.details) as Hd by (by vm_compute).
  assert (insertCommit Example.closed
            (GitTracker.commitRow "/w/app" "def456" Example.details
               (GitTracker.getBranch Example.healthy "/w/app"))
          = (Example.closed, Js.Thrown)) as Hins by reflexivity.
  destruct (trackCommitChange_store_failure Example.healthy "/w/app" "def456"
              Example.repo Example.closed Example.closed Example.details
              Hc Hne Hold Hd Hins) as (Hset & Htr & _ & _ & _ & Hagain).
  cbv zeta. split; [reflexivity|]. split; [exact Hset|]. split; [exact Htr|].
  exact Hagain.
Defined.

(** An event in [Example.doc], in the repository [/w/app]. *)
Lemma recorded_log_resolution_witness :
  Tracker.debounceInterval ≤ 5000 - Tracker.lastActivityTime Tracker.new
  ∧ GitTracker.getGitRootForPath "/" Example.repo (Tracker.fileName Example.doc)
    = Some "/w/app"
  ∧ ∃ log,
      Tracker.queue
        (Tracker.handleActivity "/" 5000 (Some Example.doc) (Some Example.repo)
           Tracker.new).1 = [log]
      ∧ al_projectPath log = "/w/app"
      ∧ al_commitHash log = Some "abc123"
      ∧ al_branch log = Some "main".
Proof.
  assert (Tracker.debounceInterval ≤ 5000 - Tracker.lastActivityTime Tracker.new)
    as Hgap by (by vm_compute).
  assert (GitTracker.getGitRootForPath "/" Example.repo (Tracker.fileName Example.doc)
          = Some "/w/app") as Hroot by reflexivity.
  split; [exact Hgap|]. split; [exact Hroot|].
  destruct (recorded_log_resolution "/" 5000 Example.doc (Some Example.repo)
              Tracker.new Hgap) as (log & Hq & _ & Hin & _).
  destruct (Hin Example.repo "/w/app" eq_refl Hroot) as (Hp & _ & Hc & Hb);
    [discriminate|].
  exists log. split; [exact Hq|]. split; [exact Hp|].
  split; [by rewrite Hc|by rewrite Hb].
Defined.


(** The commit phase on [Example.oneCommit], the remote service up: the
    row is sent and deleted by its id. *)
Lemma commit_deletion_gated_witness :
  let st := Tracker.mkStores Example.oneCommit Example.Up in
  getUnsyncedCommits (Tracker.db st) 20
  = Js.Returned (Example.commits Example.oneCommit)
  ∧ Store (DeleteCommits [1]) ∈ (Tracker.syncGitCommits st).1.2
  ∧ Example.commits (Tracker.db (Tracker.syncGitCommits st).1.1) = [].
Proof.
  cbv zeta.
  assert (getUnsyncedCommits
            (Tracker.db (Tracker.mkStores Example.oneCommit Example.Up)) 20
          = Js.Returned (Example.commits Example.oneCommit)) as Hq by reflexivity.
  split; [exact Hq|].
  destruct (commit_deletion_gated (Tracker.mkStores Example.oneCommit Example.Up)
              (Example.commits Example.oneCommit) Hq)
    as (_ & Hcalls & _ & Hdb & _).
  split.
  - apply Hcalls. split; [|split; [discriminate|reflexivity]].
    split; [discriminate|reflexivity].
  - rewrite Hdb; [reflexivity| |discriminate].
    split; [discriminate|reflexivity].
Defined.

(** A cycle on [Example.threeFiles] with the remote service down: the
    three summaries stay in the store. *)
Lemma offline_cycle_keeps_rows_witness :
  let st := Tracker.mkStores Example.threeFiles Example.Down in
  let cycle := Tracker.syncCycle Example.utc [] 1749556800000 1749556800000 st in
  Unreachable (Tracker.remote st)
  ∧ Tracker.db cycle.1.1 = Example.threeFiles
  ∧ storeCalls cycle.1.2 = [].
Proof.
  cbv zeta.
  assert (Unreachable
            (Tracker.remote (Tracker.mkStores Example.threeFiles Example.Down)))
    as Hdown by (intros m; reflexivity).
  split; [exact Hdown|].
  destruct (offline_cycle_keeps_rows Example.utc [] 1749556800000 1749556800000
              (Tracker.mkStores Example.threeFiles Example.Down) Hdown)
    as (Hdb & _ & Hcalls & _).
  split; [exact Hdb|exact Hcalls].
Defined.
